(** * Noctune Studio control plane: a shallow embedding in Rocq

    This file models the TypeScript core of Noctune Studio
    ([apps/studio-web/lib/studio/*.ts] and the run-state module) and proves
    the properties its specification states about it.

    Modelling conventions.
    - A JavaScript string is a list of UTF-16 code units ([text := list N]);
      [t "..."] turns an ASCII literal into such a list.
    - Synchronous code that may throw is a [result]; code that touches the
      filesystem, the process table or the module-level maps is an [io]
      action: a function from the [world] to a result and the new world.
      An exception keeps the effects done before it, as in JavaScript.
    - The filesystem is a finite map from absolute path strings to entries
      (file with its text, or directory); ["/"] is always a directory.
    - Engine built-ins whose results depend on the platform
      ([decodeURIComponent], [Date.parse], [localeCompare], [process.kill],
      [Date.prototype.toISOString]) are the fields of a [JSRuntime] instance. *)

From Stdlib Require Import Ascii String ZArith Lia Sorting.Permutation Sorting.Sorted.
From stdpp Require Import base gmap list.

Open Scope list_scope.
Set Warnings "-register-all".

(* ------------------------------------------------------------------ *)
(** ** JavaScript strings *)

Definition text := list N.

Definition t (s : string) : text :=
  map (fun a => N_of_ascii a) (list_ascii_of_string s).

Definition teq (a b : text) : bool := bool_decide (a = b).

Definition slash : N := 47.

(** [j "..."] is [t "..."] with each backquote read as a double quote, to
    write JSON texts compactly. *)
Definition j (s : string) : text :=
  map (fun c => if N.eqb c 96 then 34%N else c) (t s).

(** [String.prototype.startsWith] *)
Fixpoint starts_with (pre s : text) : bool :=
  match pre, s with
  | [], _ => true
  | c :: pre', d :: s' => N.eqb c d && starts_with pre' s'
  | _ :: _, [] => false
  end.

(** [String.prototype.endsWith] *)
Definition ends_with (suf s : text) : bool := starts_with (rev suf) (rev s).

(** [String.prototype.split] with a one-unit separator. *)
Fixpoint split_on (sep : N) (s : text) : list text :=
  match s with
  | [] => [[]]
  | c :: r =>
      if N.eqb c sep then [] :: split_on sep r
      else match split_on sep r with
           | x :: xs => (c :: x) :: xs
           | [] => [[c]]
           end
  end.

(** [Array.prototype.join] *)
Fixpoint join_with (sep : text) (l : list text) : text :=
  match l with
  | [] => []
  | [x] => x
  | x :: r => x ++ sep ++ join_with sep r
  end.

(** WhiteSpace and LineTerminator code points, as removed by [trim]. *)
Definition is_js_space (c : N) : bool :=
  N.eqb c 9 || N.eqb c 10 || N.eqb c 11 || N.eqb c 12 || N.eqb c 13 ||
  N.eqb c 32 || N.eqb c 160 || N.eqb c 5760 ||
  (N.leb 8192 c && N.leb c 8202) || N.eqb c 8232 || N.eqb c 8233 ||
  N.eqb c 8239 || N.eqb c 8287 || N.eqb c 12288 || N.eqb c 65279.

Fixpoint trim_start (s : text) : text :=
  match s with
  | c :: r => if is_js_space c then trim_start r else s
  | [] => []
  end.

(** [String.prototype.trim] *)
Definition js_trim (s : text) : text := rev (trim_start (rev (trim_start s))).

(** Code-unit order, used by [Array.prototype.sort] without comparator. *)
Fixpoint text_ltb (a b : text) : bool :=
  match a, b with
  | [], [] => false
  | [], _ :: _ => true
  | _ :: _, [] => false
  | x :: a', y :: b' => N.ltb x y || (N.eqb x y && text_ltb a' b')
  end.

(* ------------------------------------------------------------------ *)
(** ** Exceptions, the world and the [io] monad *)

Inductive js_error :=
  | RootNotAllowed (rr : text)   (* "repoRoot is not allowed ..." *)
  | RunIdRequired                (* "runId is required" *)
  | ApprovalIdRequired           (* "approvalId is required" *)
  | ENOENT | EEXIST | ENOTDIR | EISDIR
  | URIError | RangeError | SyntaxError
  | KillFailed                   (* process.kill threw: ESRCH, EPERM, ... *).

Inductive result (A : Type) :=
  | Ok (a : A)
  | Err (e : js_error).
Arguments Ok {A} a.
Arguments Err {A} e.

Definition rbind {A B} (m : result A) (k : A -> result B) : result B :=
  match m with Ok a => k a | Err e => Err e end.

Inductive entry := EFile (content : text) | EDir.

(** [process.env] and [process.cwd()] as far as the code reads them. *)
Record env := {
  env_cwd : text;
  env_allowed_roots : option text   (* NOCTUNE_STUDIO_ALLOWED_ROOTS *)
}.

Record world := {
  w_env : env;
  w_fs : gmap text entry;
  w_procs : gset Z;                 (* live process ids *)
  w_once : gmap text Z;             (* __noctuneStudioOnceTokens: expiresAtMs *)
  w_sessions : gmap text Z;         (* __noctuneStudioAllowedSessions *)
  w_now : Z                         (* Date.now() *)
}.

Definition set_fs (w : world) (fs : gmap text entry) : world :=
  {| w_env := w_env w; w_fs := fs; w_procs := w_procs w;
     w_once := w_once w; w_sessions := w_sessions w; w_now := w_now w |}.
Definition set_procs (w : world) (p : gset Z) : world :=
  {| w_env := w_env w; w_fs := w_fs w; w_procs := p;
     w_once := w_once w; w_sessions := w_sessions w; w_now := w_now w |}.
Definition set_once (w : world) (m : gmap text Z) : world :=
  {| w_env := w_env w; w_fs := w_fs w; w_procs := w_procs w;
     w_once := m; w_sessions := w_sessions w; w_now := w_now w |}.
Definition set_sessions (w : world) (m : gmap text Z) : world :=
  {| w_env := w_env w; w_fs := w_fs w; w_procs := w_procs w;
     w_once := w_once w; w_sessions := m; w_now := w_now w |}.

Definition io (A : Type) := world -> result A * world.

Definition io_ret {A} (a : A) : io A := fun w => (Ok a, w).
Definition io_throw {A} (e : js_error) : io A := fun w => (Err e, w).
Definition io_bind {A B} (m : io A) (k : A -> io B) : io B :=
  fun w => match m w with
           | (Ok a, w') => k a w'
           | (Err e, w') => (Err e, w')
           end.
(** [try { m } catch { h }] *)
Definition io_catch {A} (m : io A) (h : js_error -> io A) : io A :=
  fun w => match m w with
           | (Ok a, w') => (Ok a, w')
           | (Err e, w') => h e w'
           end.
Definition io_lift {A} (r : result A) : io A :=
  fun w => (r, w).
Definition io_get : io world := fun w => (Ok w, w).

Notation "'let!' x := m 'in' k" := (io_bind m (fun x => k))
  (at level 200, x name, m at level 100, k at level 200).

(* ------------------------------------------------------------------ *)
(** ** Node's [path] module (posix) *)

Definition is_slash (c : N) : bool := N.eqb c slash.

(** Segment loop of [normalizeString]: [acc] is the reversed output.
    Empty and ["."] segments vanish; [".."] drops the last segment, or is
    kept when [above_root] (relative paths) and nothing can be dropped. *)
Fixpoint norm_rev (above_root : bool) (acc : list text) (segs : list text)
  : list text :=
  match segs with
  | [] => acc
  | s :: r =>
      if teq s [] || teq s (t ".") then norm_rev above_root acc r
      else if teq s (t "..") then
        match acc with
        | x :: acc' =>
            if teq x (t "..") then
              (if above_root then norm_rev above_root (t ".." :: acc) r
               else norm_rev above_root acc r)
            else norm_rev above_root acc' r
        | [] =>
            if above_root then norm_rev above_root [t ".."] r
            else norm_rev above_root [] r
        end
      else norm_rev above_root (s :: acc) r
  end.

Definition normalize_segs (above_root : bool) (p : text) : list text :=
  rev (norm_rev above_root [] (split_on slash p)).

Definition is_abs (p : text) : bool :=
  match p with c :: _ => is_slash c | [] => false end.

Definition last_is_slash (p : text) : bool :=
  match rev p with c :: _ => is_slash c | [] => false end.

(** An absolute path made of the given segments. *)
Definition mk_path (segs : list text) : text := slash :: join_with [slash] segs.

(** [path.normalize] *)
Definition path_normalize (p : text) : text :=
  match p with
  | [] => t "."
  | _ =>
      let abs := is_abs p in
      let trailing := last_is_slash p in
      match normalize_segs (negb abs) p with
      | [] => if abs then t "/" else if trailing then t "./" else t "."
      | segs =>
          (if abs then [slash] else []) ++ join_with [slash] segs ++
          (if trailing then [slash] else [])
      end
  end.

(** [path.join(...parts)] *)
Definition path_join (parts : list text) : text :=
  match join_with [slash] (filter (fun p => negb (teq p [])) parts) with
  | [] => t "."
  | joined => path_normalize joined
  end.

(** The right-to-left scan of [path.resolve]: prepends arguments until an
    absolute one is met; the boolean says whether one was. *)
Fixpoint resolve_scan (args_rev : list text) (acc : text) : text * bool :=
  match args_rev with
  | [] => (acc, false)
  | p :: r =>
      match p with
      | [] => resolve_scan r acc
      | _ => let acc' := p ++ [slash] ++ acc in
             if is_abs p then (acc', true) else resolve_scan r acc'
      end
  end.

(** [path.resolve(...args)], with [cwd] standing for [process.cwd()]. *)
Definition path_resolve (cwd : text) (args : list text) : text :=
  let '(p, abs) :=
    match resolve_scan (rev args) [] with
    | (p, true) => (p, true)
    | (p, false) => (cwd ++ [slash] ++ p, is_abs cwd)
    end in
  let segs := normalize_segs (negb abs) p in
  if abs then mk_path segs
  else match segs with [] => t "." | _ => join_with [slash] segs end.

Fixpoint drop_while (f : N -> bool) (l : text) : text :=
  match l with c :: r => if f c then drop_while f r else l | [] => [] end.

(** [path.dirname]: [rest] is scanned from its end; trailing slashes are
    skipped, then the last segment, and the path is cut at the slash met. *)
Definition path_dirname (p : text) : text :=
  match p with
  | [] => t "."
  | c0 :: rest =>
      let has_root := is_slash c0 in
      let r1 := drop_while is_slash (rev rest) in
      let r2 := drop_while (fun c => negb (is_slash c)) r1 in
      match r2 with
      | [] => if has_root then t "/" else t "."
      | _ :: before =>
          match before with
          | [] => if has_root then t "//" else [c0]
          | _ => c0 :: rev before
          end
      end
  end.

(* ------------------------------------------------------------------ *)
(** ** [paths.ts]: the allow-list of repository roots *)

(** [getDefaultRepoRoot]: [path.resolve(process.cwd(), '../..')] *)
Definition getDefaultRepoRoot (E : env) : text :=
  path_resolve (env_cwd E) [env_cwd E; t "../.."].

(** The [seen]/[out] loop of [getAllowedRepoRoots]. *)
Fixpoint dedupe_loop (seen : gset text) (l : list text) : list text :=
  match l with
  | [] => []
  | r :: l' =>
      if bool_decide (r ∈ seen) then dedupe_loop seen l'
      else r :: dedupe_loop ({[r]} ∪ seen) l'
  end.

Definition getAllowedRepoRoots (E : env) : list text :=
  let raw := js_trim (default [] (env_allowed_roots E)) in
  let fromEnv :=
    match raw with
    | [] => []
    | _ => map (fun p => path_resolve (env_cwd E) [p])
               (filter (fun s => negb (teq s [])) (map js_trim (split_on 44 raw)))
    end in
  let fallback := [getDefaultRepoRoot E] in
  dedupe_loop ∅ (fromEnv ++ fallback).

(** The [for (const base of allowed)] loop. *)
Fixpoint root_check (rr : text) (allowed : list text) : result text :=
  match allowed with
  | [] => Err (RootNotAllowed rr)
  | base :: rest =>
      if teq rr base then Ok rr
      else if starts_with (base ++ [slash]) rr then Ok rr
      else root_check rr rest
  end.

Definition resolveRepoRootOrThrow (E : env) (repoRoot : text) : result text :=
  let rr := path_resolve (env_cwd E) [repoRoot] in
  root_check rr (getAllowedRepoRoots E).

(* ------------------------------------------------------------------ *)
(** ** [fs/promises] over the modelled filesystem *)

Definition is_root (p : text) : bool := teq p (t "/").

Definition fs_stat (p : text) : io unit := fun w =>
  if is_root p then (Ok tt, w) else
  match w_fs w !! p with
  | Some _ => (Ok tt, w)
  | None => (Err ENOENT, w)
  end.

Definition fs_readFile (p : text) : io text := fun w =>
  if is_root p then (Err EISDIR, w) else
  match w_fs w !! p with
  | Some (EFile c) => (Ok c, w)
  | Some EDir => (Err EISDIR, w)
  | None => (Err ENOENT, w)
  end.

(** The name of [k] inside directory [d], when [k] is a direct child. *)
Definition child_name (d k : text) : option text :=
  let pre := if is_root d then [slash] else d ++ [slash] in
  if starts_with pre k then
    let name := drop (length pre) k in
    if teq name [] || existsb is_slash name then None else Some name
  else None.

(** [fs.readdir]: entries in the (unspecified) order of the map. *)
Definition fs_readdir (d : text) : io (list text) := fun w =>
  let names := omap (fun '(k, _) => child_name d k) (map_to_list (w_fs w)) in
  if is_root d then (Ok names, w) else
  match w_fs w !! d with
  | Some EDir => (Ok names, w)
  | Some (EFile _) => (Err ENOTDIR, w)
  | None => (Err ENOENT, w)
  end.

(** [fs.mkdir(p, { recursive: true })]: an existing directory is fine; a
    missing one is created after its parent. *)
Fixpoint mkdirp_fuel (n : nat) (p : text) (fs : gmap text entry)
  : result (gmap text entry) :=
  match n with
  | O => Err ENOENT
  | S n' =>
      if is_root p then Ok fs else
      match fs !! p with
      | Some EDir => Ok fs
      | Some (EFile _) => Err EEXIST
      | None =>
          match mkdirp_fuel n' (path_dirname p) fs with
          | Ok fs' => Ok (<[p := EDir]> fs')
          | Err e => Err e
          end
      end
  end.

Definition fs_mkdirp (p : text) : io unit := fun w =>
  match mkdirp_fuel (S (length p)) p (w_fs w) with
  | Ok fs' => (Ok tt, set_fs w fs')
  | Err e => (Err e, w)
  end.

(** [fs.writeFile(p, c)]: the parent must be a directory, [p] must not be. *)
Definition fs_writeFile (p c : text) : io unit := fun w =>
  let parent := path_dirname p in
  let parent_ok :=
    if is_root parent then Ok tt else
    match w_fs w !! parent with
    | Some EDir => Ok tt
    | Some (EFile _) => Err ENOTDIR
    | None => Err ENOENT
    end in
  match parent_ok with
  | Err e => (Err e, w)
  | Ok _ =>
      if is_root p then (Err EISDIR, w) else
      match w_fs w !! p with
      | Some EDir => (Err EISDIR, w)
      | _ => (Ok tt, set_fs w (<[p := EFile c]> (w_fs w)))
      end
  end.

(* ------------------------------------------------------------------ *)
(** ** JSON values, [JSON.parse] and [JSON.stringify] *)

(** A number as JavaScript holds it after [JSON.parse]: zero, a finite
    nonzero value [m * 10^e], or an infinity (a literal beyond the binary64
    range). Digits below binary64 precision are kept exactly: nothing in
    this code inspects them, only whether a number is zero or finite. *)
Inductive jsnum := NFin (m : Z) (e : Z) | NInf (neg : bool).

Inductive jsval :=
  | JNull
  | JBool (b : bool)
  | JNum (n : jsnum)
  | JStr (s : text)
  | JArr (l : list jsval)
  | JObj (kvs : list (text * jsval)).

(** Rounding thresholds of binary64: values at or above [2^1024 - 2^970]
    round to Infinity, values at or below [2^-1075] round to zero. *)
Definition binary64_overflow : Z := 2 ^ 1024 - 2 ^ 970.

Definition classify (neg : bool) (m e : Z) : jsnum :=
  if (m =? 0)%Z then NFin 0 0 else
  let overflow :=
    if (0 <=? e)%Z then (binary64_overflow <=? m * 10 ^ e)%Z
    else (binary64_overflow * 10 ^ (- e) <=? m)%Z in
  if overflow then NInf neg else
  let underflow := if (0 <=? e)%Z then false else (m * 2 ^ 1075 <=? 10 ^ (- e))%Z in
  if underflow then NFin 0 0 else NFin (if neg then - m else m) e.

Definition is_json_ws (c : N) : bool :=
  N.eqb c 9 || N.eqb c 10 || N.eqb c 13 || N.eqb c 32.

Definition skip_ws (s : text) : text := drop_while is_json_ws s.

Definition is_digit (c : N) : bool := N.leb 48 c && N.leb c 57.

Fixpoint take_digits (s : text) : list N * text :=
  match s with
  | c :: r => if is_digit c then let '(d, rest) := take_digits r in (c :: d, rest)
              else ([], s)
  | [] => ([], [])
  end.

Definition digits_value (ds : list N) : Z :=
  fold_left (fun acc d => acc * 10 + Z.of_N (d - 48))%Z ds 0%Z.

(** Optional exponent part [e|E [+|-] digits]: its value and the rest. *)
Definition parse_exponent (s : text) : option (Z * text) :=
  match s with
  | c :: r =>
      if N.eqb c 101 || N.eqb c 69 then
        let '(neg, r1) :=
          match r with
          | d :: r' => if N.eqb d 45 then (true, r') else if N.eqb d 43 then (false, r') else (false, r)
          | [] => (false, r)
          end in
        match take_digits r1 with
        | ([], _) => None
        | (ds, r2) => Some ((if neg then - digits_value ds else digits_value ds)%Z, r2)
        end
      else Some (0%Z, s)
  | [] => Some (0%Z, [])
  end.

(** The JSON number grammar [-? (0 | [1-9][0-9]* ) (. [0-9]+)? exponent?]. *)
Definition parse_number (s : text) : option (jsnum * text) :=
  let '(neg, s1) :=
    match s with c :: r => if N.eqb c 45 then (true, r) else (false, s) | [] => (false, s) end in
  match take_digits s1 with
  | ([], _) => None
  | (ip, s2) =>
      match ip with
      | 48 :: _ :: _ => None
      | _ =>
          let frac :=
            match s2 with
            | 46 :: r => match take_digits r with ([], _) => None | (fp, s3) => Some (fp, s3) end
            | _ => Some ([], s2)
            end in
          match frac with
          | None => None
          | Some (fp, s3) =>
              match parse_exponent s3 with
              | None => None
              | Some (ex, s4) =>
                  Some (classify neg (digits_value (ip ++ fp)) (ex - Z.of_nat (length fp))%Z, s4)
              end
          end
      end
  end%N.

Definition hex_val (c : N) : option N :=
  if N.leb 48 c && N.leb c 57 then Some (c - 48)%N
  else if N.leb 97 c && N.leb c 102 then Some (c - 87)%N
  else if N.leb 65 c && N.leb c 70 then Some (c - 55)%N
  else None.

Definition hex4 (a b c d : N) : option N :=
  match hex_val a, hex_val b, hex_val c, hex_val d with
  | Some x, Some y, Some z, Some u => Some (((x * 16 + y) * 16 + z) * 16 + u)%N
  | _, _, _, _ => None
  end.

Definition simple_escape (c : N) : option N :=
  if N.eqb c 34 then Some 34%N else if N.eqb c 92 then Some 92%N
  else if N.eqb c 47 then Some 47%N else if N.eqb c 98 then Some 8%N
  else if N.eqb c 102 then Some 12%N else if N.eqb c 110 then Some 10%N
  else if N.eqb c 114 then Some 13%N else if N.eqb c 116 then Some 9%N
  else None.

(** The characters of a string literal after its opening quote. *)
Fixpoint parse_str_body (s : text) : option (text * text) :=
  match s with
  | [] => None
  | c :: r =>
      if N.eqb c 34 then Some ([], r)
      else if N.eqb c 92 then
        match r with
        | [] => None
        | e :: r' =>
            if N.eqb e 117 then
              match r' with
              | h1 :: h2 :: h3 :: h4 :: r'' =>
                  match hex4 h1 h2 h3 h4, parse_str_body r'' with
                  | Some u, Some (b, rest) => Some (u :: b, rest)
                  | _, _ => None
                  end
              | _ => None
              end
            else
              match simple_escape e, parse_str_body r' with
              | Some u, Some (b, rest) => Some (u :: b, rest)
              | _, _ => None
              end
        end
      else if N.ltb c 32 then None
      else match parse_str_body r with
           | Some (b, rest) => Some (c :: b, rest)
           | None => None
           end
  end.

(** Own properties of an object: a later definition of a key replaces the
    value in place ([CreateDataProperty]); a read sees that value. *)
Definition obj_has (k : text) (kvs : list (text * jsval)) : bool :=
  existsb (fun '(k', _) => teq k' k) kvs.

Definition obj_set (k : text) (v : jsval) (kvs : list (text * jsval))
  : list (text * jsval) :=
  if obj_has k kvs then map (fun '(k', v') => if teq k' k then (k', v) else (k', v')) kvs
  else kvs ++ [(k, v)].

Definition obj_get (kvs : list (text * jsval)) (k : text) : option jsval :=
  fold_left (fun acc '(k', v) => if teq k' k then Some v else acc) kvs None.

Fixpoint parse_value (fuel : nat) (s : text) : option (jsval * text) :=
  match fuel with
  | O => None
  | S f =>
      match skip_ws s with
      | [] => None
      | c :: r =>
          if N.eqb c 34 then
            match parse_str_body r with
            | Some (str, rest) => Some (JStr str, rest)
            | None => None
            end
          else if N.eqb c 123 then
            match skip_ws r with
            | d :: r' => if N.eqb d 125 then Some (JObj [], r') else parse_members f [] r
            | [] => None
            end
          else if N.eqb c 91 then
            match skip_ws r with
            | d :: r' => if N.eqb d 93 then Some (JArr [], r') else parse_elems f [] r
            | [] => None
            end
          else if starts_with (t "true") (c :: r) then Some (JBool true, drop 4 (c :: r))
          else if starts_with (t "false") (c :: r) then Some (JBool false, drop 5 (c :: r))
          else if starts_with (t "null") (c :: r) then Some (JNull, drop 4 (c :: r))
          else if N.eqb c 45 || is_digit c then
            match parse_number (c :: r) with
            | Some (n, rest) => Some (JNum n, rest)
            | None => None
            end
          else None
      end
  end
(** [member (, member)* }] with [acc] the members read so far. *)
with parse_members (fuel : nat) (acc : list (text * jsval)) (s : text)
  : option (jsval * text) :=
  match fuel with
  | O => None
  | S f =>
      match skip_ws s with
      | c :: r =>
          if N.eqb c 34 then
            match parse_str_body r with
            | Some (k, r1) =>
                match skip_ws r1 with
                | d :: r2 =>
                    if N.eqb d 58 then
                      match parse_value f r2 with
                      | Some (v, r3) =>
                          let acc' := obj_set k v acc in
                          match skip_ws r3 with
                          | e :: r4 =>
                              if N.eqb e 44 then parse_members f acc' r4
                              else if N.eqb e 125 then Some (JObj acc', r4)
                              else None
                          | [] => None
                          end
                      | None => None
                      end
                    else None
                | [] => None
                end
            | None => None
            end
          else None
      | [] => None
      end
  end
(** [value (, value)* ]] with [acc] the reversed elements read so far. *)
with parse_elems (fuel : nat) (acc : list jsval) (s : text)
  : option (jsval * text) :=
  match fuel with
  | O => None
  | S f =>
      match parse_value f s with
      | Some (v, r1) =>
          match skip_ws r1 with
          | e :: r2 =>
              if N.eqb e 44 then parse_elems f (v :: acc) r2
              else if N.eqb e 93 then Some (JArr (rev (v :: acc)), r2)
              else None
          | [] => None
          end
      | None => None
      end
  end.

(** [JSON.parse]; a syntax error is [None]. *)
Definition JSON_parse (s : text) : option jsval :=
  match parse_value (S (length s)) s with
  | Some (v, rest) => match skip_ws rest with [] => Some v | _ => None end
  | None => None
  end.

Fixpoint pos_digits (fuel : nat) (n : Z) (acc : text) : text :=
  match fuel with
  | O => acc
  | S f => if (n <? 10)%Z then (Z.to_N n + 48)%N :: acc
           else pos_digits f (n / 10)%Z ((Z.to_N (n mod 10) + 48)%N :: acc)
  end.

(** Decimal digits of a nonnegative integer. *)
Definition dec_digits (n : Z) : text := pos_digits (S (Z.to_nat (Z.log2 n))) n [].

Definition int_text (n : Z) : text :=
  if (n <? 0)%Z then 45%N :: dec_digits (- n) else dec_digits n.

(** Number text: [m] with an exponent suffix when [e <> 0]; infinities
    print as [null], as [JSON.stringify] does. *)
Definition num_text (n : jsnum) : text :=
  match n with
  | NFin m e => int_text m ++ (if (e =? 0)%Z then [] else 101%N :: int_text e)
  | NInf _ => t "null"
  end.

Definition hex_digit (n : N) : N := if N.ltb n 10 then (n + 48)%N else (n + 87)%N.

(** [\uXXXX] with lower-case hex digits. *)
Definition u_escape (c : N) : text :=
  [92%N; 117%N; hex_digit (c / 4096 mod 16); hex_digit (c / 256 mod 16);
   hex_digit (c / 16 mod 16); hex_digit (c mod 16)].

Definition is_high_surrogate (c : N) : bool := N.leb 55296 c && N.leb c 56319.
Definition is_low_surrogate (c : N) : bool := N.leb 56320 c && N.leb c 57343.

(** [QuoteJSONString] for one code unit that is not part of a pair. *)
Definition escape_unit (c : N) : text :=
  if N.eqb c 8 then [92%N; 98%N] else if N.eqb c 9 then [92%N; 116%N]
  else if N.eqb c 10 then [92%N; 110%N] else if N.eqb c 12 then [92%N; 102%N]
  else if N.eqb c 13 then [92%N; 114%N] else if N.eqb c 34 then [92%N; 34%N]
  else if N.eqb c 92 then [92%N; 92%N]
  else if N.ltb c 32 || is_high_surrogate c || is_low_surrogate c then u_escape c
  else [c].

Fixpoint quote_units (s : text) : text :=
  match s with
  | [] => []
  | c :: r =>
      match r with
      | d :: r' =>
          if is_high_surrogate c && is_low_surrogate d then c :: d :: quote_units r'
          else escape_unit c ++ quote_units r
      | [] => escape_unit c
      end
  end.

Definition quote (s : text) : text := 34%N :: quote_units s ++ [34%N].

(** [SerializeJSONProperty] with the indentation [gap] of
    [JSON.stringify(v, null, gap)] and the current [indent]. *)
Fixpoint stringify (gap indent : text) (v : jsval) : text :=
  match v with
  | JNull => t "null"
  | JBool true => t "true"
  | JBool false => t "false"
  | JNum n => num_text n
  | JStr s => quote s
  | JArr l =>
      match l with
      | [] => t "[]"
      | _ =>
          let ind' := indent ++ gap in
          let items := map (stringify gap ind') l in
          match gap with
          | [] => [91%N] ++ join_with [44%N] items ++ [93%N]
          | _ => [91%N; 10%N] ++ ind' ++ join_with ([44%N; 10%N] ++ ind') items ++
                 [10%N] ++ indent ++ [93%N]
          end
      end
  | JObj kvs =>
      match kvs with
      | [] => t "{}"
      | _ =>
          let ind' := indent ++ gap in
          let items :=
            map (fun '(k, x) => quote k ++ [58%N] ++ (match gap with [] => [] | _ => [32%N] end) ++
                                stringify gap ind' x) kvs in
          match gap with
          | [] => [123%N] ++ join_with [44%N] items ++ [125%N]
          | _ => [123%N; 10%N] ++ ind' ++ join_with ([44%N; 10%N] ++ ind') items ++
                 [10%N] ++ indent ++ [125%N]
          end
      end
  end.

(** [JSON.stringify(v)] and [JSON.stringify(v, null, 2)] *)
Definition JSON_stringify (v : jsval) : text := stringify [] [] v.
Definition JSON_stringify2 (v : jsval) : text := stringify (t "  ") [] v.

(** Property reads and writes on JSON-built values. *)

(** [CanonicalNumericIndexString] restricted to array indices. *)
Definition array_index (k : text) : option nat :=
  match k with
  | [] => None
  | [48%N] => Some 0
  | 48%N :: _ => None
  | _ => if forallb is_digit k then
           let n := digits_value k in
           if (n <? 4294967295)%Z then Some (Z.to_nat n) else None
         else None
  end.

Definition js_length (n : nat) : jsval := JNum (NFin (Z.of_nat n) 0).

(** [v[k]] for own properties. Inherited members (prototype methods,
    [__proto__]) read as [None]: none of them has the [browsers] or
    [allowed] members the code goes on to read, so every chain below ends
    in [undefined] for them just as here. *)
Definition get_prop (v : jsval) (k : text) : option jsval :=
  match v with
  | JObj kvs => obj_get kvs k
  | JArr l => if teq k (t "length") then Some (js_length (length l))
              else match array_index k with Some i => nth_error l i | None => None end
  | JStr s => if teq k (t "length") then Some (js_length (length s))
              else match array_index k with
                   | Some i => match nth_error s i with Some c => Some (JStr [c]) | None => None end
                   | None => None
                   end
  | _ => None
  end.

(** [Boolean(v)] *)
Definition truthy (v : jsval) : bool :=
  match v with
  | JNull => false
  | JBool b => b
  | JNum (NFin m _) => negb (m =? 0)%Z
  | JNum (NInf _) => true
  | JStr s => negb (teq s [])
  | JArr _ | JObj _ => true
  end.

(** [Boolean(x)] for a possibly [undefined] [x]. *)
Definition js_Boolean (o : option jsval) : bool :=
  match o with Some v => truthy v | None => false end.

Definition typeof_object (v : jsval) : bool :=
  match v with JNull | JArr _ | JObj _ => true | _ => false end.

(** Writing [l[i] = x]: past the end the array grows, the holes serialize
    as [null]. *)
Definition array_store (l : list jsval) (i : nat) (x : jsval) : list jsval :=
  if Nat.ltb i (length l) then <[i := x]> l
  else l ++ repeat JNull (i - length l) ++ [x].

(** [o[k] = x] as far as [JSON.stringify] sees it afterwards: assigning
    [__proto__] (when not an own key) changes the prototype, and a
    non-index key of an array is not serialized; [length] of an array
    rejects an object value. *)
Definition set_prop (o : jsval) (k : text) (x : jsval) : result jsval :=
  match o with
  | JObj kvs =>
      if teq k (t "__proto__") && negb (obj_has k kvs) then Ok o
      else Ok (JObj (obj_set k x kvs))
  | JArr l =>
      if teq k (t "length") then Err RangeError
      else match array_index k with
           | Some i => Ok (JArr (array_store l i x))
           | None => Ok o
           end
  | _ => Ok o
  end.

(* ------------------------------------------------------------------ *)
(** ** Engine built-ins *)

Inductive probe_result := ProbeOk | ProbeESRCH | ProbeOther.

Class JSRuntime := {
  (** [decodeURIComponent]; [None] is a [URIError] *)
  decodeURIComponent : text -> option text;
  (** [Date.parse]; [None] is [NaN] *)
  date_parse : text -> option Z;
  (** [a.localeCompare(b)] *)
  locale_compare : text -> text -> Z;
  (** [new Date(ms).toISOString()] *)
  to_iso_string : Z -> text;
  (** [process.kill(pid, 'SIGTERM')]: the new process table, [None] if it throws *)
  kill_term : gset Z -> Z -> option (gset Z);
  (** [process.kill(pid, 0)] *)
  kill_probe : gset Z -> Z -> probe_result
}.

Section Studio.
Context `{RT : JSRuntime}.

Definition resolve_root_io (repoRoot : text) : io text := fun w =>
  (resolveRepoRootOrThrow (w_env w) repoRoot, w).

(* ------------------------------------------------------------------ *)
(** ** [allow.ts]: one-time tokens, session grants, persistent grants *)

Definition STUDIO_BROWSER_ID_COOKIE : text := t "noctune_studio_browser_id".
Definition STUDIO_SESSION_ID_COOKIE : text := t "noctune_studio_session_id".

(** [issueOnceToken(ttlMs)] with [token] the fresh [newId(24)]. *)
Definition issueOnceToken (token : text) (ttlMs : Z) : io (text * Z) := fun w =>
  let expiresAtMs := (w_now w + ttlMs)%Z in
  (Ok (token, expiresAtMs), set_once w (<[token := expiresAtMs]> (w_once w))).

Definition consumeOnceToken (token : text) : io bool := fun w =>
  match w_once w !! token with
  | None => (Ok false, w)
  | Some expiresAtMs =>
      let w' := set_once w (delete token (w_once w)) in
      if (w_now w' >? expiresAtMs)%Z then (Ok false, w') else (Ok true, w')
  end.

Definition allowSession (sessionId : text) (ttlMs : Z) : io Z := fun w =>
  let expiresAtMs := (w_now w + ttlMs)%Z in
  (Ok expiresAtMs, set_sessions w (<[sessionId := expiresAtMs]> (w_sessions w))).

Definition isSessionAllowed (sessionId : text) : io bool := fun w =>
  match w_sessions w !! sessionId with
  | None => (Ok false, w)
  | Some exp =>
      if (exp =? 0)%Z then (Ok false, w)
      else if (w_now w >? exp)%Z then (Ok false, set_sessions w (delete sessionId (w_sessions w)))
      else (Ok true, w)
  end.

Definition allowFilePath (repoRoot : text) : text :=
  path_join [repoRoot; t ".noctune_cache"; t "studio_allow.json"].

(** [JSON.parse(await fs.readFile(p, 'utf-8'))] inside a [try]. *)
Definition read_json (p : text) : io jsval :=
  let! raw := fs_readFile p in
  match JSON_parse raw with
  | Some v => io_ret v
  | None => io_throw SyntaxError
  end.

(** The document update of [setAlwaysAllowed], from the parsed [obj]. *)
Definition update_allow_doc (obj : jsval) (browserId : text) (rec : jsval) : result jsval :=
  let obj1 := if negb (truthy obj) || negb (typeof_object obj) then JObj [] else obj in
  let browsers :=
    match get_prop obj1 (t "browsers") with
    | Some b => if truthy b && typeof_object b then b else JObj []
    | None => JObj []
    end in
  rbind (set_prop browsers browserId rec) (fun browsers' =>
    set_prop obj1 (t "browsers") browsers').

Definition setAlwaysAllowed (repoRoot browserId : text) : io unit :=
  let! rr := resolve_root_io repoRoot in
  let p := allowFilePath rr in
  let! _ := fs_mkdirp (path_dirname p) in
  let! obj := io_catch (read_json p) (fun _ => io_ret (JObj [])) in
  let! w := io_get in
  let rec := JObj [(t "allowed", JBool true); (t "updatedAt", JStr (to_iso_string (w_now w)))] in
  match update_allow_doc obj browserId rec with
  | Err e => io_throw e
  | Ok obj' => fs_writeFile p (JSON_stringify2 obj' ++ [10%N])
  end.

(** [obj?.browsers?.[browserId]?.allowed] *)
Definition allowed_member (obj : jsval) (browserId : text) : option jsval :=
  match get_prop obj (t "browsers") with
  | Some b => match get_prop b browserId with
              | Some e => get_prop e (t "allowed")
              | None => None
              end
  | None => None
  end.

Definition isAlwaysAllowed (repoRoot browserId : text) : io bool :=
  let! rr := resolve_root_io repoRoot in
  let p := allowFilePath rr in
  io_catch (let! obj := read_json p in io_ret (js_Boolean (allowed_member obj browserId)))
           (fun _ => io_ret false).

(* ------------------------------------------------------------------ *)
(** ** [permissions.ts]: [getCookie] and [computeAllowWrite] *)

Fixpoint cookie_loop (name : text) (parts : list text) : result (option text) :=
  match parts with
  | [] => Ok None
  | p :: rest =>
      if negb (starts_with (name ++ [61%N]) p) then cookie_loop name rest
      else match decodeURIComponent (drop (length name + 1) p) with
           | Some v => Ok (Some v)
           | None => Err URIError
           end
  end.

Definition getCookie (header : option text) (name : text) : result (option text) :=
  match header with
  | None | Some [] => Ok None
  | Some h => cookie_loop name (map js_trim (split_on 59 h))
  end.

Inductive allow_mode := MOnce | MSession | MAlways | MNone.

Definition computeAllowWrite (repoRoot : text) (allowToken cookieHeader : option text)
  : io (bool * allow_mode) :=
  let! once :=
    match allowToken with
    | Some ((_ :: _) as tok) => consumeOnceToken tok
    | _ => io_ret false
    end in
  if once then io_ret (true, MOnce) else
  let! sessionId := io_lift (getCookie cookieHeader STUDIO_SESSION_ID_COOKIE) in
  let! sess :=
    match sessionId with
    | Some ((_ :: _) as s) => isSessionAllowed s
    | _ => io_ret false
    end in
  if sess then io_ret (true, MSession) else
  let! browserId := io_lift (getCookie cookieHeader STUDIO_BROWSER_ID_COOKIE) in
  let! always :=
    match browserId with
    | Some ((_ :: _) as b) => isAlwaysAllowed repoRoot b
    | _ => io_ret false
    end in
  if always then io_ret (true, MAlways) else io_ret (false, MNone).

End Studio.

(* ------------------------------------------------------------------ *)
(** ** Array helpers: [slice] and the stable [sort] *)

(* ------------------------------------------------------------------ *)
(** ** Numbers passed as a limit or a cursor *)

(** A JavaScript number as a caller passes it (the routes pass
    [Number(s)] of a query value): NaN, or a [jsnum], that is an infinity
    or a finite value [m * 10^e]; every binary64 value is such a finite
    decimal. *)
Inductive jsnumber := JSNaN | JSNum (n : jsnum).

(** A number with an integral value, as [Math.floor] returns: NaN, an
    infinity, or an integer. *)
Inductive xint := XNaN | XInf (neg : bool) | XInt (z : Z).

(** [Math.floor(x)] *)
Definition js_floor (x : jsnumber) : xint :=
  match x with
  | JSNaN => XNaN
  | JSNum (NInf neg) => XInf neg
  | JSNum (NFin m e) => XInt (if (0 <=? e)%Z then m * 10 ^ e else m / 10 ^ (- e))%Z
  end.

(** [Math.min(a, b)]: NaN when either argument is NaN. *)
Definition js_min (a b : xint) : xint :=
  match a, b with
  | XNaN, _ | _, XNaN => XNaN
  | XInf true, _ | _, XInf true => XInf true
  | XInf false, y => y
  | x, XInf false => x
  | XInt x, XInt y => XInt (Z.min x y)
  end.

(** [Math.max(a, b)]: NaN when either argument is NaN. *)
Definition js_max (a b : xint) : xint :=
  match a, b with
  | XNaN, _ | _, XNaN => XNaN
  | XInf false, _ | _, XInf false => XInf false
  | XInf true, y => y
  | x, XInf true => x
  | XInt x, XInt y => XInt (Z.max x y)
  end.

(** [a + b] *)
Definition js_add (a b : xint) : xint :=
  match a, b with
  | XNaN, _ | _, XNaN => XNaN
  | XInf p, XInf q => if Bool.eqb p q then XInf p else XNaN
  | XInf p, XInt _ | XInt _, XInf p => XInf p
  | XInt x, XInt y => XInt (x + y)
  end.

(** [- a] *)
Definition js_neg (a : xint) : xint :=
  match a with
  | XNaN => XNaN
  | XInf p => XInf (negb p)
  | XInt x => XInt (- x)
  end.

(** [a - b] *)
Definition js_sub (a b : xint) : xint := js_add a (js_neg b).

(** The number an integral value is, when it is passed back as an
    argument. *)
Definition xint_number (x : xint) : jsnumber :=
  match x with
  | XNaN => JSNaN
  | XInf neg => JSNum (NInf neg)
  | XInt z => JSNum (NFin z 0)
  end.

(** The number [z], for an integer [z]. *)
Definition jsint (z : Z) : jsnumber := JSNum (NFin z 0).

(** An index argument of [Array.prototype.slice] on an array of length
    [n]: [ToIntegerOrInfinity] (NaN counts as 0), then a negative index
    counts from the end, and the result is clamped to [0, n]. *)
Definition slice_index (n : Z) (x : xint) : Z :=
  match x with
  | XNaN => 0
  | XInf true => 0
  | XInf false => n
  | XInt z => if (z <? 0)%Z then Z.max 0 (n + z) else Z.min z n
  end.

(** [Array.prototype.slice(start, end)] with integral arguments *)
Definition js_slice {A} (l : list A) (s e : xint) : list A :=
  let n := Z.of_nat (length l) in
  let s' := slice_index n s in
  let e' := slice_index n e in
  take (Z.to_nat (e' - s')) (drop (Z.to_nat s') l).

(** Insertion of a later element: it goes before the first element it is
    strictly smaller than, hence after the equal ones (a stable sort). *)
Fixpoint insert_by {A} (lt : A -> A -> bool) (x : A) (l : list A) : list A :=
  match l with
  | [] => [x]
  | y :: r => if lt x y then x :: y :: r else y :: insert_by lt x r
  end.

(** [Array.prototype.sort] (stable since ES2019) for a consistent
    comparator; [lt a b] holds when the comparator puts [a] first. *)
Definition sort_by {A} (lt : A -> A -> bool) (l : list A) : list A :=
  fold_left (fun acc x => insert_by lt x acc) l [].

(** [names.sort()]: code-unit order. *)
Definition sort_texts (l : list text) : list text := sort_by text_ltb l.

(** [s.replace(/\.json$/, r)] *)
Definition replace_json_suffix (s r : text) : text :=
  if ends_with (t ".json") s then take (length s - 5) s ++ r else s.

Section Runs.
Context `{RT : JSRuntime}.

(* ------------------------------------------------------------------ *)
(** ** [noctune.ts]: stop, event tail, approvals *)

Definition send_sigterm (pid : Z) : io unit := fun w =>
  match kill_term (w_procs w) pid with
  | Some procs => (Ok tt, set_procs w procs)
  | None => (Err KillFailed, w)
  end.

Definition stopNoctuneRun (repoRoot runId : text) (pid : option Z) : io (bool * text) :=
  let! rr := resolve_root_io repoRoot in
  let runId' := js_trim runId in
  match runId' with
  | [] => io_throw RunIdRequired
  | _ =>
      let stopFlagPath :=
        path_join [rr; t ".noctune_cache"; t "runs"; runId'; t "state"; t "stop.flag"] in
      let! _ := fs_mkdirp (path_dirname stopFlagPath) in
      let! _ := fs_writeFile stopFlagPath (t "stop" ++ [10%N]) in
      let! _ :=
        match pid with
        | Some p => if (p =? 0)%Z then io_ret tt
                    else io_catch (send_sigterm p) (fun _ => io_ret tt)
        | None => io_ret tt
        end in
      io_ret (true, stopFlagPath)
  end.

Record tail_result := {
  events : list jsval;
  cursor : xint;
  nextCursor : xint;
  tail_path : text
}.

(** [raw.split('\n').filter(Boolean)] *)
Definition log_lines (raw : text) : list text :=
  filter (fun l => negb (teq l [])) (split_on 10 raw).

(** [Math.max(1, Math.min(Math.floor(limit ?? dflt), hi))]; [None] is
    [null] or [undefined]. *)
Definition clamp_limit (limit : option jsnumber) (dflt hi : Z) : xint :=
  js_max (XInt 1) (js_min (js_floor (default (JSNum (NFin dflt 0)) limit)) (XInt hi)).

(** The window computation of [tailNoctuneEvents] once the log is read. *)
Definition tail_window (raw : text) (cur limit : option jsnumber) (ep : text) : tail_result :=
  let lines := log_lines raw in
  let n := XInt (Z.of_nat (length lines)) in
  let lim := clamp_limit limit 200 500 in
  let start :=
    match cur with
    | None => js_max (XInt 0) (js_sub n lim)
    | Some c => js_max (XInt 0) (js_min (js_floor c) n)
    end in
  let end_ := js_min n (js_add start lim) in
  let out := omap JSON_parse (js_slice lines start end_) in
  {| events := out; cursor := start; nextCursor := end_; tail_path := ep |}.

Definition tailNoctuneEvents (repoRoot runId : text) (cur limit : option jsnumber)
  : io tail_result :=
  let! rr := resolve_root_io repoRoot in
  let runId' := js_trim runId in
  let p1 := path_join [rr; t ".noctune_cache"; t "runs"; runId'; t "events"; t "events.jsonl"] in
  let p2 := path_join [rr; t ".noctune_cache"; t "runs"; runId'; t "logs"; t "events.jsonl"] in
  let! ep := io_catch (let! _ := fs_stat p1 in io_ret p1) (fun _ => io_ret p2) in
  let! raw := io_catch (let! r := fs_readFile ep in io_ret (Some r)) (fun _ => io_ret None) in
  match raw with
  | None => io_ret {| events := []; cursor := XInt 0; nextCursor := XInt 0; tail_path := ep |}
  | Some r => io_ret (tail_window r cur limit ep)
  end.

Definition approvals_dir (rr runId : text) : text :=
  path_join [rr; t ".noctune_cache"; t "runs"; runId; t "state"; t "approvals"].

(** [try { await fs.stat(p); ... } catch {}] as a boolean *)
Definition fs_exists (p : text) : io bool :=
  io_catch (let! _ := fs_stat p in io_ret true) (fun _ => io_ret false).

(** The [for (const name of entries.sort())] loop of [listPendingApprovals]. *)
Fixpoint pending_loop (dir : text) (names : list text) : io (list jsval) :=
  match names with
  | [] => io_ret []
  | name :: rest =>
      if negb (ends_with (t ".json") name) then pending_loop dir rest else
      let p := path_join [dir; name] in
      let decision := replace_json_suffix p (t ".decision") in
      let! decided := fs_exists decision in
      if decided then pending_loop dir rest else
      let! item := io_catch (let! v := read_json p in io_ret (Some v)) (fun _ => io_ret None) in
      let! more := pending_loop dir rest in
      io_ret (match item with Some v => v :: more | None => more end)
  end.

Definition listPendingApprovals (repoRoot runId : text) : io (list jsval * text) :=
  let! rr := resolve_root_io repoRoot in
  let dir := approvals_dir rr (js_trim runId) in
  let! entries := io_catch (let! es := fs_readdir dir in io_ret (Some es)) (fun _ => io_ret None) in
  match entries with
  | None => io_ret ([], dir)
  | Some es => let! approvals := pending_loop dir (sort_texts es) in io_ret (approvals, dir)
  end.

Definition decideApproval (repoRoot runId approvalId : text) (approved : bool)
  (reason : option text) : io (bool * text) :=
  let! rr := resolve_root_io repoRoot in
  let runId' := js_trim runId in
  let approvalId' := js_trim approvalId in
  match approvalId' with
  | [] => io_throw ApprovalIdRequired
  | _ =>
      let dir := approvals_dir rr runId' in
      let! _ := fs_mkdirp dir in
      let decisionPath := path_join [dir; approvalId' ++ t ".decision"] in
      let! _ := fs_writeFile decisionPath
                  (JSON_stringify (JObj [(t "approved", JBool approved);
                                         (t "reason", JStr (default [] reason))])) in
      io_ret (true, decisionPath)
  end.

(* ------------------------------------------------------------------ *)
(** ** [runs.ts]: run state, run listing, approvals with decisions *)

(** [isoToMs]: [Date.parse] of a non-empty string, [0] otherwise. *)
Definition isoToMs (s : option jsval) : Z :=
  match s with
  | Some (JStr ((_ :: _) as str)) => match date_parse str with Some ms => ms | None => 0%Z end
  | _ => 0%Z
  end.

(** [safeJsonParse]: [null] on a syntax error. *)
Definition safeJsonParse (raw : text) : jsval := default JNull (JSON_parse raw).

(** The integer a number denotes, if it is one. *)
Definition num_int (n : jsnum) : option Z :=
  match n with
  | NFin m e => if (0 <=? e)%Z then Some (m * 10 ^ e)%Z
                else if (m mod 10 ^ (- e) =? 0)%Z then Some (m / 10 ^ (- e))%Z else None
  | NInf _ => None
  end.

(** [pidExists]: [process.kill(pid, 0)] refused with anything but [ESRCH]
    (a non-integer pid included) counts as alive. *)
Definition pidExists (pid : jsnum) : io bool := fun w =>
  let positive := match pid with NFin m _ => (0 <? m)%Z | NInf neg => negb neg end in
  if negb positive then (Ok false, w) else
  match num_int pid with
  | Some z => match kill_probe (w_procs w) z with
              | ProbeESRCH => (Ok false, w)
              | _ => (Ok true, w)
              end
  | None => (Ok true, w)
  end.

Record run_state_result := {
  rs_ok : bool;
  rs_state : option jsval;          (* None is null *)
  rs_path : text;
  rs_pidAlive : option bool         (* None is absent *)
}.

Definition readRunState (repoRoot runId : text) : io run_state_result :=
  let! rr := resolve_root_io repoRoot in
  let runId' := js_trim runId in
  let p := path_join [rr; t ".noctune_cache"; t "runs"; runId'; t "state"; t "run.json"] in
  io_catch
    (let! raw := fs_readFile p in
     let obj := safeJsonParse raw in
     let state := if truthy obj && typeof_object obj then Some obj else None in
     let pid := match state with
                | Some s => match get_prop s (t "pid") with Some (JNum n) => Some n | _ => None end
                | None => None
                end in
     let! alive := match pid with
                   | Some n => if truthy (JNum n) then pidExists n else io_ret false
                   | None => io_ret false
                   end in
     io_ret {| rs_ok := true; rs_state := state; rs_path := p; rs_pidAlive := Some alive |})
    (fun _ => io_ret {| rs_ok := false; rs_state := None; rs_path := p; rs_pidAlive := None |}).

Record run_rec := { rec_runId : text; rec_state : option jsval; rec_sortMs : Z }.

Definition state_field (st : option jsval) (k : text) : option jsval :=
  match st with Some s => get_prop s k | None => None end.

(** [isoToMs(updated_at) || isoToMs(started_at) || 0] *)
Definition sort_ms (st : option jsval) : Z :=
  let u := isoToMs (state_field st (t "updated_at")) in
  if negb (u =? 0)%Z then u else
  let s := isoToMs (state_field st (t "started_at")) in
  if negb (s =? 0)%Z then s else 0%Z.

Fixpoint runs_loop (rr : text) (names : list text) : io (list run_rec) :=
  match names with
  | [] => io_ret []
  | name :: rest =>
      if teq name [] || starts_with (t ".") name then runs_loop rr rest else
      let! st := readRunState rr name in
      let! more := runs_loop rr rest in
      io_ret ({| rec_runId := name; rec_state := rs_state st;
                 rec_sortMs := sort_ms (rs_state st) |} :: more)
  end.

(** The comparator of [recs.sort]. *)
Definition run_cmp (a b : run_rec) : Z :=
  if negb (rec_sortMs a =? rec_sortMs b)%Z then (rec_sortMs b - rec_sortMs a)%Z
  else locale_compare (rec_runId b) (rec_runId a).

Definition run_lt (a b : run_rec) : bool := (run_cmp a b <? 0)%Z.

Definition listRuns (repoRoot : text) (limit : option jsnumber)
  : io (list (text * option jsval)) :=
  let! rr := resolve_root_io repoRoot in
  let dir := path_join [rr; t ".noctune_cache"; t "runs"] in
  let! names := io_catch (let! ns := fs_readdir dir in io_ret (Some ns)) (fun _ => io_ret None) in
  match names with
  | None => io_ret []
  | Some ns =>
      let! recs := runs_loop rr ns in
      let sorted := sort_by run_lt recs in
      let lim := clamp_limit limit 50 200 in
      io_ret (map (fun r => (rec_runId r, rec_state r)) (js_slice sorted (XInt 0) lim))
  end.

Record approval_rec := {
  approval_id : text;
  approval : jsval;
  decided : bool;
  decision : jsval;
  ap_path : text
}.

Fixpoint decisions_loop (dir : text) (names : list text) : io (list approval_rec) :=
  match names with
  | [] => io_ret []
  | name :: rest =>
      if negb (ends_with (t ".json") name) then decisions_loop dir rest else
      let p := path_join [dir; name] in
      let aid := replace_json_suffix name [] in
      let! appr := io_catch (let! raw := fs_readFile p in io_ret (safeJsonParse raw))
                            (fun _ => io_ret JNull) in
      let decisionPath := replace_json_suffix p (t ".decision") in
      let! dec := io_catch
                    (let! raw := fs_readFile decisionPath in
                     let d := match safeJsonParse raw with
                              | JNull => JObj [(t "raw", JStr (js_trim raw))]
                              | v => v
                              end in
                     io_ret (true, d))
                    (fun _ => io_ret (false, JNull)) in
      let! more := decisions_loop dir rest in
      io_ret ({| approval_id := aid; approval := appr; decided := fst dec;
                 decision := snd dec; ap_path := p |} :: more)
  end.

Definition listApprovalsWithDecisions (repoRoot runId : text) : io (list approval_rec * text) :=
  let! rr := resolve_root_io repoRoot in
  let dir := approvals_dir rr (js_trim runId) in
  let! entries := io_catch (let! es := fs_readdir dir in io_ret (Some es)) (fun _ => io_ret None) in
  match entries with
  | None => io_ret ([], dir)
  | Some es => let! approvals := decisions_loop dir (sort_texts es) in io_ret (approvals, dir)
  end.

End Runs.

(* ------------------------------------------------------------------ *)
(** ** An example runtime

    Concrete built-ins, used to run the functions above on example worlds:
    - [decodeURIComponent] decodes [%XX] escapes as UTF-8 and throws on
      malformed input;
    - [Date.parse] reads the [YYYY-MM-DDTHH:mm:ss.sssZ] form that
      [toISOString] prints (and gives [NaN] for any other text);
    - [localeCompare] compares code units;
    - [process.kill] succeeds exactly on live pids. *)

Definition pct_byte (s : text) : option (N * text) :=
  match s with
  | 37%N :: a :: b :: r =>
      match hex_val a, hex_val b with
      | Some x, Some y => Some ((x * 16 + y)%N, r)
      | _, _ => None
      end
  | _ => None
  end.

(** [k] continuation bytes [10xxxxxx], each written [%XX]. *)
Fixpoint cont_bytes (k : nat) (s : text) : option (list N * text) :=
  match k with
  | O => Some ([], s)
  | S k' =>
      match pct_byte s with
      | Some (b, r) =>
          if N.eqb (N.land b 192) 128 then
            match cont_bytes k' r with
            | Some (bs, r') => Some (b :: bs, r')
            | None => None
            end
          else None
      | None => None
      end
  end.

(** Number of continuation bytes announced by a leading byte. *)
Definition utf8_extra (b : N) : option nat :=
  if N.ltb b 128 then Some 0
  else if N.ltb b 192 then None
  else if N.ltb b 224 then Some 1
  else if N.ltb b 240 then Some 2
  else if N.ltb b 248 then Some 3
  else None.

(** The UTF-16 code units of a decoded sequence, if it is well formed. *)
Definition utf8_units (b : N) (cs : list N) : option text :=
  let k := length cs in
  let lead := match k with 0 => b | 1 => N.land b 31 | 2 => N.land b 15 | _ => N.land b 7 end in
  let cp := fold_left (fun acc c => (acc * 64 + N.land c 63)%N) cs lead in
  let min_cp := match k with 0 => 0%N | 1 => 128%N | 2 => 2048%N | _ => 65536%N end in
  if N.ltb cp min_cp || N.ltb 1114111 cp || (N.leb 55296 cp && N.leb cp 57343) then None
  else if N.ltb cp 65536 then Some [cp]
  else Some [(55296 + (cp - 65536) / 1024)%N; (56320 + (cp - 65536) mod 1024)%N].

Fixpoint uri_decode (fuel : nat) (s : text) : option text :=
  match fuel with
  | O => None
  | S f =>
      match s with
      | [] => Some []
      | 37%N :: _ =>
          match pct_byte s with
          | None => None
          | Some (b, r) =>
              match utf8_extra b with
              | None => None
              | Some k =>
                  match cont_bytes k r with
                  | None => None
                  | Some (cs, r') =>
                      match utf8_units b cs, uri_decode f r' with
                      | Some us, Some rest => Some (us ++ rest)
                      | _, _ => None
                      end
                  end
              end
          end
      | c :: r => option_map (cons c) (uri_decode f r)
      end
  end.

(** Days from 1970-01-01 to a proleptic Gregorian date, and back. *)
Definition days_from_civil (y m d : Z) : Z :=
  let y' := if (m <=? 2)%Z then (y - 1)%Z else y in
  let era := (y' / 400)%Z in
  let yoe := (y' - era * 400)%Z in
  let mp := if (2 <? m)%Z then (m - 3)%Z else (m + 9)%Z in
  let doy := ((153 * mp + 2) / 5 + d - 1)%Z in
  let doe := (yoe * 365 + yoe / 4 - yoe / 100 + doy)%Z in
  (era * 146097 + doe - 719468)%Z.

Definition civil_from_days (z : Z) : Z * Z * Z :=
  let z' := (z + 719468)%Z in
  let era := (z' / 146097)%Z in
  let doe := (z' - era * 146097)%Z in
  let yoe := ((doe - doe / 1460 + doe / 36524 - doe / 146096) / 365)%Z in
  let doy := (doe - (365 * yoe + yoe / 4 - yoe / 100))%Z in
  let mp := ((5 * doy + 2) / 153)%Z in
  let d := (doy - (153 * mp + 2) / 5 + 1)%Z in
  let m := if (mp <? 10)%Z then (mp + 3)%Z else (mp - 9)%Z in
  let y := (yoe + era * 400 + (if (m <=? 2)%Z then 1 else 0))%Z in
  (y, m, d).

Definition is_leap (y : Z) : bool :=
  ((y mod 4 =? 0) && negb (y mod 100 =? 0) || (y mod 400 =? 0))%Z.

Definition days_in_month (y m : Z) : Z :=
  if (m =? 2)%Z then (if is_leap y then 29 else 28)
  else if (m =? 4)%Z || (m =? 6)%Z || (m =? 9)%Z || (m =? 11)%Z then 30 else 31.

Definition digit_val (c : N) : option Z :=
  if is_digit c then Some (Z.of_N (c - 48)) else None.

Fixpoint digits_num (s : text) : option Z :=
  match s with
  | [] => Some 0%Z
  | c :: r =>
      match digit_val c, digits_num r with
      | Some d, Some v => Some (d * 10 ^ Z.of_nat (length r) + v)%Z
      | _, _ => None
      end
  end.

(** [Date.parse] on [YYYY-MM-DDTHH:mm:ss.sssZ]. *)
Definition iso_parse (s : text) : option Z :=
  match s with
  | [y1; y2; y3; y4; 45%N; m1; m2; 45%N; d1; d2; 84%N; h1; h2; 58%N; n1; n2; 58%N;
     s1; s2; 46%N; f1; f2; f3; 90%N] =>
      match digits_num [y1; y2; y3; y4], digits_num [m1; m2], digits_num [d1; d2],
            digits_num [h1; h2], digits_num [n1; n2], digits_num [s1; s2],
            digits_num [f1; f2; f3] with
      | Some y, Some mo, Some d, Some h, Some mi, Some se, Some ms =>
          if (1 <=? mo)%Z && (mo <=? 12)%Z && (1 <=? d)%Z && (d <=? days_in_month y mo)%Z &&
             (h <=? 23)%Z && (mi <=? 59)%Z && (se <=? 59)%Z
          then Some (days_from_civil y mo d * 86400000 + ((h * 60 + mi) * 60 + se) * 1000 + ms)%Z
          else None
      | _, _, _, _, _, _, _ => None
      end
  | _ => None
  end.

Definition pad_digits (width : nat) (n : Z) : text :=
  let ds := dec_digits n in repeat 48%N (width - length ds) ++ ds.

(** [new Date(ms).toISOString()] for years 0 to 9999. *)
Definition iso_string (ms : Z) : text :=
  let days := (ms / 86400000)%Z in
  let rem := (ms mod 86400000)%Z in
  let '(y, mo, d) := civil_from_days days in
  pad_digits 4 y ++ [45%N] ++ pad_digits 2 mo ++ [45%N] ++ pad_digits 2 d ++ [84%N] ++
  pad_digits 2 (rem / 3600000) ++ [58%N] ++ pad_digits 2 (rem / 60000 mod 60) ++ [58%N] ++
  pad_digits 2 (rem / 1000 mod 60) ++ [46%N] ++ pad_digits 3 (rem mod 1000) ++ [90%N].

Definition code_unit_compare (a b : text) : Z :=
  if text_ltb a b then (-1)%Z else if teq a b then 0%Z else 1%Z.

Definition demo_rt : JSRuntime := {|
  decodeURIComponent := fun s => uri_decode (S (length s)) s;
  date_parse := iso_parse;
  locale_compare := code_unit_compare;
  to_iso_string := iso_string;
  kill_term := fun procs pid =>
    if bool_decide (pid ∈ procs) then Some (procs ∖ {[pid]}) else None;
  kill_probe := fun procs pid =>
    if bool_decide (pid ∈ procs) then ProbeOk else ProbeESRCH
|}.

(* ------------------------------------------------------------------ *)
(** ** The specification's vocabulary

    Definitions in the words of the specification, to state the properties
    of the code above. *)

#[global] Instance jsnum_eq_dec : EqDecision jsnum.
Proof. solve_decision. Defined.

(** A segment of a normalized absolute path. *)
Definition plain (s : text) : bool :=
  negb (teq s []) && negb (teq s (t ".")) && negb (teq s (t "..")) && negb (existsb is_slash s).





(** The three grant tiers, read on the world before the request. *)
Definition once_grant (w : world) (tok : option text) : bool :=
  match tok with
  | Some ((_ :: _) as k) =>
      match w_once w !! k with Some exp => (w_now w <=? exp)%Z | None => false end
  | _ => false
  end.

Definition session_grant (w : world) (sid : option text) : bool :=
  match sid with
  | Some ((_ :: _) as s) =>
      match w_sessions w !! s with
      | Some exp => negb (exp =? 0)%Z && (w_now w <=? exp)%Z
      | None => false
      end
  | _ => false
  end.

(** The persistent-allow document of root [rr] grants browser [b]. *)
Definition persistent_grant (w : world) (rr b : text) : bool :=
  match fst (fs_readFile (allowFilePath rr) w) with
  | Ok raw => match JSON_parse raw with
              | Some doc => js_Boolean (allowed_member doc b)
              | None => false
              end
  | Err _ => false
  end.



(** The decision file named after the request file [<id>.json]. *)
Definition decision_file (dir name : text) : text :=
  dir ++ [slash] ++ take (length name - 5) name ++ t ".decision".

(** Request files without a decision file, in the listing order. *)
Definition pending_entries (w : world) (dir : text) (names : list text) : list text :=
  filter (fun n => ends_with (t ".json") n &&
                   negb (bool_decide (is_Some (w_fs w !! decision_file dir n)))) names.

(** The parsed content of a request file. *)
Definition entry_payload (w : world) (dir name : text) : option jsval :=
  match w_fs w !! (dir ++ [slash] ++ name) with
  | Some (EFile raw) => JSON_parse raw
  | _ => None
  end.

(** What [JSON.parse(JSON.stringify(v))] gives back: infinities become
    [null], numbers are rounded again. *)
Fixpoint json_rt (v : jsval) : jsval :=
  match v with
  | JNum (NFin m e) => JNum (classify (m <? 0)%Z (Z.abs m) e)
  | JNum (NInf _) => JNull
  | JArr l => JArr (map json_rt l)
  | JObj kvs => JObj (map (fun '(k, x) => (k, json_rt x)) kvs)
  | _ => v
  end.

(** Values as [JSON.parse] builds them: distinct keys, rounded numbers. *)
Fixpoint json_wf (v : jsval) : bool :=
  match v with
  | JNum (NFin m e) => bool_decide (classify (m <? 0)%Z (Z.abs m) e = NFin m e)
  | JArr l => forallb json_wf l
  | JObj kvs => bool_decide (NoDup (map fst kvs)) && forallb (fun '(_, x) => json_wf x) kvs
  | _ => true
  end.

(* ------------------------------------------------------------------ *)
(** ** Example worlds *)

(** Studio started in [/repo/apps/studio-web] with no configured roots:
    the only allowed root is [/repo]. *)
Definition demo_env : env := {| env_cwd := t "/repo/apps/studio-web"; env_allowed_roots := None |}.

Definition demo_world (fs : list (string * entry)) (procs : gset Z) (now : Z) : world :=
  {| w_env := demo_env;
     w_fs := list_to_map (map (fun '(p, e) => (t p, e)) fs);
     w_procs := procs; w_once := ∅; w_sessions := ∅; w_now := now |}.

Definition run_dirs (run : string) : list (string * entry) :=
  [("/repo"%string, EDir); ("/repo/.noctune_cache"%string, EDir); ("/repo/.noctune_cache/runs"%string, EDir);
   ("/repo/.noctune_cache/runs/" ++ run, EDir)]%string.

(** A run [r1] whose event log has the given lines. *)
Definition events_world (lines : list text) : world :=
  let w := demo_world (run_dirs "r1" ++ [("/repo/.noctune_cache/runs/r1/events"%string, EDir)]) ∅ 0 in
  set_fs w (<[t "/repo/.noctune_cache/runs/r1/events/events.jsonl" :=
               EFile (join_with [10%N] lines ++ [10%N])]> (w_fs w)).



(** A run [r1] with one approval request [a1.json] of the given content. *)
Definition approvals_world (content : text) : world :=
  let w := demo_world (run_dirs "r1" ++ [("/repo/.noctune_cache/runs/r1/state"%string, EDir);
                                         ("/repo/.noctune_cache/runs/r1/state/approvals"%string, EDir)]) ∅ 0 in
  set_fs w (<[t "/repo/.noctune_cache/runs/r1/state/approvals/a1.json" := EFile content]> (w_fs w)).

(** A repository whose persistent-allow document has the given content. *)
Definition allow_world (content : text) : world :=
  let w := demo_world [("/repo"%string, EDir); ("/repo/.noctune_cache"%string, EDir)] ∅ 0 in
  set_fs w (<[t "/repo/.noctune_cache/studio_allow.json" := EFile content]> (w_fs w)).

(** A one-time token [tok] expiring at 150, at time 100. *)
Definition token_world : world :=
  set_once (demo_world [] ∅ 100) {[t "tok" := 150%Z]}.

Definition three_event_world : world :=
  events_world [j "{`i`:0}"; j "{`i`:1}"; j "{`i`:2}"].


(** The last line is a torn write. *)
Definition torn_event_world : world := events_world [j "{`i`:0}"; j "{`i`:1}"; t "{"].



(** The record [listApprovalsWithDecisions] gives for request file [name]. *)
Definition decision_record (w : world) (dir name : text) : approval_rec :=
  let dp := decision_file dir name in
  {| approval_id := take (length name - 5) name;
     approval := match w_fs w !! (dir ++ [slash] ++ name) with
                 | Some (EFile raw) => safeJsonParse raw
                 | _ => JNull
                 end;
     decided := match w_fs w !! dp with Some (EFile _) => true | _ => false end;
     decision := match w_fs w !! dp with
                 | Some (EFile raw) =>
                     match safeJsonParse raw with
                     | JNull => JObj [(t "raw", JStr (js_trim raw))]
                     | v => v
                     end
                 | _ => JNull
                 end;
     ap_path := dir ++ [slash] ++ name |}.

(** What may follow a number literal without extending it. *)
Definition num_end (rest : text) : Prop :=
  match rest with
  | c :: _ => is_digit c = false /\ c <> 46%N /\ c <> 101%N /\ c <> 69%N
  | [] => True
  end.

(** Nesting measure of a value: the fuel [parse_value] spends on its text. *)
Fixpoint jsize (v : jsval) : nat :=
  match v with
  | JArr l => S ((fix go (l : list jsval) : nat :=
                   match l with [] => 0 | x :: r => S (jsize x) + go r end) l)
  | JObj kvs => S ((fix go (kvs : list (text * jsval)) : nat :=
                     match kvs with [] => 0 | (_, x) :: r => S (jsize x) + go r end) kvs)
  | _ => 1
  end.

Fixpoint elems_size (l : list jsval) : nat :=
  match l with [] => 0 | x :: r => S (jsize x) + elems_size r end.

Fixpoint members_size (kvs : list (text * jsval)) : nat :=
  match kvs with [] => 0 | (_, x) :: r => S (jsize x) + members_size r end.

(** [browsers?.[b]?.allowed] for a [browsers] value. *)
Definition browser_allowed (B : jsval) (b : text) : option jsval :=
  match get_prop B b with Some e => get_prop e (t "allowed") | None => None end.

(** An approval request [a1] whose decision file holds a torn write. *)
Definition torn_decision_world : world :=
  let w := approvals_world (j "{`q`:true}") in
  set_fs w (<[t "/repo/.noctune_cache/runs/r1/state/approvals/a1.decision" :=
               EFile (j " {`approved`:tr ")]> (w_fs w)).

(* ------------------------------------------------------------------ *)
(** ** [paths.ts] and [permissions.ts]: paths inside a repository *)

(** [resolvePathInRepoOrThrow]; [None] is the thrown
    "path escapes repoRoot" error. *)
Definition resolvePathInRepoOrThrow (E : env) (repoRoot relOrAbsPath : text) : option text :=
  let rr := path_resolve (env_cwd E) [repoRoot] in
  let p := path_resolve (env_cwd E) [rr; relOrAbsPath] in
  if teq p rr || starts_with (rr ++ [slash]) p then Some p else None.

(** [isSafeCachePath] *)
Definition isSafeCachePath (E : env) (repoRoot relOrAbsPath : text) : bool :=
  let rr := path_resolve (env_cwd E) [repoRoot] in
  let p := path_resolve (env_cwd E) [rr; relOrAbsPath] in
  let cacheDir := path_join [rr; t ".noctune_cache"] in
  teq p cacheDir || starts_with (cacheDir ++ [slash]) p.

(* ================================================================== *)
(** * Properties *)

(** ** The model on examples *)

Example path_examples :
  path_join [t "/repo"; t ".noctune_cache"; t "runs"; t "r1"; t "state"; t "stop.flag"]
    = t "/repo/.noctune_cache/runs/r1/state/stop.flag" /\
  path_resolve (t "/repo/apps/studio-web") [t "/repo/apps/studio-web"; t "../.."] = t "/repo" /\
  path_resolve (t "/x") [t "a/./b//../c/"] = t "/x/a/c" /\
  path_resolve (t "/x") [t "/../.."] = t "/" /\
  path_join [t "/a"; t "b/"] = t "/a/b/" /\
  path_dirname (t "/a/b/stop.flag") = t "/a/b" /\
  path_dirname (t "/a") = t "/" /\
  path_dirname (t "/a//b//") = t "/a/".
Proof. vm_compute. repeat split. Qed.

Example json_examples :
  JSON_parse (j "{`i`:0}") = Some (JObj [(t "i", JNum (NFin 0 0))]) /\
  JSON_parse (j " [1, -2.5e3, true, null, `a\nA`] ") =
    Some (JArr [JNum (NFin 1 0); JNum (NFin (-25) 2); JBool true; JNull;
                JStr (t "a" ++ [10%N] ++ t "A")]) /\
  JSON_parse (j "{`a`:1,`a`:2}") = Some (JObj [(t "a", JNum (NFin 2 0))]) /\
  JSON_parse (t "1e999") = Some (JNum (NInf false)) /\
  JSON_parse (t "1e-999") = Some (JNum (NFin 0 0)) /\
  JSON_parse (t "{") = None /\
  JSON_parse (t "01") = None /\
  JSON_stringify2 (JObj [(t "b", JObj [(t "x", JBool true)])]) =
    t "{" ++ [10%N] ++ j "  `b`: {" ++ [10%N] ++ j "    `x`: true" ++ [10%N] ++
    t "  }" ++ [10%N] ++ t "}" /\
  JSON_stringify (JObj [(t "approved", JBool true); (t "reason", JStr [])]) =
    j "{`approved`:true,`reason`:``}".
Proof. vm_compute. repeat split. Qed.

Example demo_rt_examples :
  uri_decode 20 (t "a%20b%C3%A9") = Some (t "a b" ++ [233%N]) /\
  uri_decode 20 (t "%E0%A4") = None /\
  iso_parse (t "2024-03-01T12:00:00.000Z") = Some 1709294400000%Z /\
  iso_string 1709294400000 = t "2024-03-01T12:00:00.000Z" /\
  iso_parse (t "1970-01-01T00:00:00.000Z") = Some 0%Z /\
  iso_parse (t "2023-02-29T00:00:00.000Z") = None.
Proof. vm_compute. repeat split. Qed.

(* ------------------------------------------------------------------ *)
(** ** Reading the filesystem leaves the world unchanged *)

Lemma fs_stat_world (p : text) (w : world) : snd (fs_stat p w) = w.
Proof. unfold fs_stat. destruct (is_root p); [done| ]. by destruct (w_fs w !! p). Qed.

Lemma fs_readFile_world (p : text) (w : world) : snd (fs_readFile p w) = w.
Proof.
  unfold fs_readFile. destruct (is_root p); [done| ].
  destruct (w_fs w !! p) as [[]| ]; done.
Qed.

Lemma fs_readdir_world (d : text) (w : world) : snd (fs_readdir d w) = w.
Proof.
  unfold fs_readdir. destruct (is_root d); [done| ].
  destruct (w_fs w !! d) as [[]| ]; done.
Qed.

Lemma pair_eta {A B} (x : A * B) : x = (fst x, snd x).
Proof. by destruct x. Qed.

Lemma io_catch_pure {A} (m : io A) (h : js_error -> io A) (w : world) :
  snd (m w) = w -> (forall e, snd (h e w) = w) -> snd (io_catch m h w) = w.
Proof.
  intros Hm Hh. unfold io_catch. rewrite (pair_eta (m w)), Hm.
  destruct (fst (m w)); [done| ]. apply Hh.
Qed.

Lemma set_fs_same (w : world) : set_fs w (w_fs w) = w.
Proof. by destruct w. Qed.

(* ------------------------------------------------------------------ *)
(** ** [mkdir -p] *)

(** It only adds directories: what was there stays. *)
Lemma mkdirp_fuel_mono (n : nat) (p : text) (fs fs' : gmap text entry) :
  mkdirp_fuel n p fs = Ok fs' -> forall k x, fs !! k = Some x -> fs' !! k = Some x.
Proof.
  revert p fs fs'. induction n as [ |n IH]; intros p fs fs' H k x Hk; simpl in H; [done| ].
  destruct (is_root p); [by injection H as <- | ].
  destruct (fs !! p) as [[]| ] eqn:Hp; try (by injection H as <-); try done.
  destruct (mkdirp_fuel n (path_dirname p) fs) as [fs1| ] eqn:Hm; [ |done].
  injection H as <-. rewrite lookup_insert_ne; [by eapply IH| ].
  intros ->. congruence.
Qed.

(** Afterwards the directory is there. *)
Lemma mkdirp_fuel_dir (n : nat) (p : text) (fs fs' : gmap text entry) :
  mkdirp_fuel n p fs = Ok fs' -> is_root p = true \/ fs' !! p = Some EDir.
Proof.
  destruct n as [ |n]; simpl; [done| ]. intros H.
  destruct (is_root p); [by left| ]. right.
  destruct (fs !! p) as [[]| ] eqn:Hp; try (by injection H as <-); try done.
  destruct (mkdirp_fuel n (path_dirname p) fs); [ |done].
  injection H as <-. by rewrite lookup_insert_eq.
Qed.

(** An existing directory is left as it is. *)
Lemma fs_mkdirp_existing (p : text) (w : world) :
  (is_root p = true \/ w_fs w !! p = Some EDir) -> fs_mkdirp p w = (Ok tt, w).
Proof.
  intros Hp. unfold fs_mkdirp. simpl.
  destruct (is_root p) eqn:Hr; [by rewrite set_fs_same| ].
  destruct Hp as [ | ->]; [done| ]. by rewrite set_fs_same.
Qed.

Lemma fs_mkdirp_ok (p : text) (w w' : world) :
  fs_mkdirp p w = (Ok tt, w') ->
  w_env w' = w_env w /\ w_procs w' = w_procs w /\
  (forall k x, w_fs w !! k = Some x -> w_fs w' !! k = Some x) /\
  (is_root p = true \/ w_fs w' !! p = Some EDir).
Proof.
  unfold fs_mkdirp. destruct (mkdirp_fuel _ p (w_fs w)) as [fs'| ] eqn:Hm; [ |done].
  intros [= <-]. simpl. split; [done| ]. split; [done| ]. split.
  - by eapply mkdirp_fuel_mono.
  - by eapply mkdirp_fuel_dir.
Qed.

(** What a successful [fs.writeFile] requires and does. *)
Lemma fs_writeFile_ok (p c : text) (w w' : world) :
  fs_writeFile p c w = (Ok tt, w') ->
  (is_root (path_dirname p) = true \/ w_fs w !! path_dirname p = Some EDir) /\
  is_root p = false /\ w_fs w !! p <> Some EDir /\
  w' = set_fs w (<[p := EFile c]> (w_fs w)).
Proof.
  unfold fs_writeFile.
  destruct (is_root (path_dirname p)) eqn:Hr.
  - destruct (is_root p) eqn:Hp; [done| ].
    destruct (w_fs w !! p) as [[]| ] eqn:Hl; intros [= <-]; repeat split; auto; congruence.
  - destruct (w_fs w !! path_dirname p) as [[]| ] eqn:Hd; try done.
    destruct (is_root p) eqn:Hp; [done| ].
    destruct (w_fs w !! p) as [[]| ] eqn:Hl; intros [= <-]; repeat split; auto; congruence.
Qed.

(** Writing the content a file already has changes nothing. *)
Lemma fs_writeFile_same (p c : text) (w : world) :
  (is_root (path_dirname p) = true \/ w_fs w !! path_dirname p = Some EDir) ->
  is_root p = false -> w_fs w !! p = Some (EFile c) ->
  fs_writeFile p c w = (Ok tt, w).
Proof.
  intros Hd Hp Hl. unfold fs_writeFile.
  assert (Hpo : (if is_root (path_dirname p) then Ok tt else
           match w_fs w !! path_dirname p with
           | Some EDir => Ok tt | Some (EFile _) => Err ENOTDIR | None => Err ENOENT end) = Ok tt).
  { destruct (is_root (path_dirname p)); [done| ]. destruct Hd as [ | ->]; done. }
  rewrite Hpo, Hp, Hl. f_equal. rewrite insert_id; [ |done]. apply set_fs_same.
Qed.

(* ------------------------------------------------------------------ *)
(** ** One-time tokens *)

(** C2. An issued one-time token is in the store. Applied to a token of
    the store, [consumeOnceToken] removes it whatever its expiry and returns
    [true] exactly when [Date.now()] has not passed the expiry; any later
    call with the same token, at any time, returns [false] and changes
    nothing. *)
Theorem consumeOnceToken_twice :
  (forall (w : world) (tok : text) (ttl : Z),
     w_once (snd (issueOnceToken tok ttl w)) !! tok = Some (w_now w + ttl)%Z) /\
  (forall (w : world) (tok : text) (exp : Z),
     w_once w !! tok = Some exp ->
     fst (consumeOnceToken tok w) = Ok (w_now w <=? exp)%Z /\
     snd (consumeOnceToken tok w) = set_once w (delete tok (w_once w)) /\
     forall w2 : world, w_once w2 = delete tok (w_once w) ->
       consumeOnceToken tok w2 = (Ok false, w2)).
Proof.
  split.
  - intros w tok ttl. simpl. apply lookup_insert_eq.
  - intros w tok exp Hin. unfold consumeOnceToken. rewrite Hin. simpl.
    split; [ | split].
    + destruct (Z.gtb_spec (w_now w) exp), (Z.leb_spec (w_now w) exp); simpl; f_equal; lia.
    + by destruct (w_now w >? exp)%Z.
    + intros w2 Hw2. rewrite Hw2, lookup_delete_eq. done.
Qed.

Lemma consumeOnceToken_twice_witness :
  w_once token_world !! t "tok" = Some 150%Z /\
  fst (consumeOnceToken (t "tok") token_world) = Ok true /\
  consumeOnceToken (t "tok") (snd (consumeOnceToken (t "tok") token_world)) =
    (Ok false, snd (consumeOnceToken (t "tok") token_world)).
Proof.
  assert (H : w_once token_world !! t "tok" = Some 150%Z) by (vm_compute; reflexivity).
  destruct (proj2 consumeOnceToken_twice token_world (t "tok") 150%Z H) as (H1 & H2 & H3).
  split; [exact H | split].
  - exact H1.
  - apply H3. rewrite H2. reflexivity.
Defined.

(* ------------------------------------------------------------------ *)
(** ** The event tail *)

Lemma resolve_root_io_ok (repoRoot rr : text) (w : world) :
  resolveRepoRootOrThrow (w_env w) repoRoot = Ok rr -> resolve_root_io repoRoot w = (Ok rr, w).
Proof. unfold resolve_root_io. by intros ->. Qed.

(** The call reads the log (from [events/] or else [logs/]) and returns the
    window of [tail_window], or the empty answer when it cannot. *)
Lemma tail_read (w : world) (repoRoot runId rr : text) (cur limit : option jsnumber) :
  resolveRepoRootOrThrow (w_env w) repoRoot = Ok rr ->
  exists r, tailNoctuneEvents repoRoot runId cur limit w = (Ok r, w) /\
    match fst (fs_readFile (tail_path r) w) with
    | Ok raw => r = tail_window raw cur limit (tail_path r)
    | Err _ => events r = [] /\ cursor r = XInt 0 /\ nextCursor r = XInt 0
    end.
Proof.
  intros Hr. unfold tailNoctuneEvents, io_bind at 1. rewrite (resolve_root_io_ok _ _ _ Hr).
  set (p1 := path_join _). set (p2 := path_join _).
  set (choose := io_catch (let! _ := fs_stat p1 in io_ret p1) (fun _ => io_ret p2)).
  assert (Hc : exists ep, choose w = (Ok ep, w)).
  { unfold choose, io_catch, io_bind. rewrite (pair_eta (fs_stat p1 w)), fs_stat_world.
    destruct (fst (fs_stat p1 w)); eauto. }
  destruct Hc as [ep Hep]. unfold io_bind at 1. rewrite Hep.
  unfold io_bind at 1, io_catch at 1. unfold io_bind at 1.
  rewrite (pair_eta (fs_readFile ep w)), fs_readFile_world.
  destruct (fst (fs_readFile ep w)) as [raw|e] eqn:Hf; simpl.
  - eexists; split; [reflexivity | ]. simpl. by rewrite Hf.
  - eexists; split; [reflexivity | ]. simpl. by rewrite Hf.
Qed.

Lemma slice_index_nonneg (n : Z) (x : xint) : (0 <= n)%Z -> (0 <= slice_index n x)%Z.
Proof.
  intros Hn. destruct x as [ | [] | z]; simpl; try lia.
  destruct (Z.ltb_spec z 0); lia.
Qed.

Lemma js_slice_window {A} (l : list A) (s e : Z) :
  (0 <= s <= e)%Z -> (e <= Z.of_nat (length l))%Z ->
  js_slice l (XInt s) (XInt e) = take (Z.to_nat (e - s)) (drop (Z.to_nat s) l).
Proof.
  intros Hs He. unfold js_slice, slice_index.
  destruct (Z.ltb_spec s 0); [lia | ]. destruct (Z.ltb_spec e 0); [lia | ].
  do 2 f_equal; lia.
Qed.

(** [slice(s, NaN)] is empty. *)
Lemma js_slice_nan_end {A} (l : list A) (s : xint) : js_slice l s XNaN = [].
Proof.
  unfold js_slice. cbv zeta.
  pose proof (slice_index_nonneg (Z.of_nat (length l)) s ltac:(lia)).
  replace (Z.to_nat (slice_index (Z.of_nat (length l)) XNaN
                     - slice_index (Z.of_nat (length l)) s)) with 0%nat
    by (simpl; lia).
  reflexivity.
Qed.


(** The clamped limit, case by case: NaN stays NaN. *)
Lemma clamp_limit_value (limit : option jsnumber) (dflt hi : Z) :
  clamp_limit limit dflt hi =
    match limit with
    | None => XInt (Z.max 1 (Z.min dflt hi))
    | Some x =>
        match js_floor x with
        | XNaN => XNaN
        | XInf neg => XInt (if neg then 1 else Z.max 1 hi)
        | XInt v => XInt (Z.max 1 (Z.min v hi))
        end
    end.
Proof.
  unfold clamp_limit. destruct limit as [x | ]; simpl.
  - destruct (js_floor x) as [ | [] | v]; reflexivity.
  - by rewrite Z.mul_1_r.
Qed.

Lemma clamp_limit_cases (limit : option jsnumber) (dflt hi : Z) :
  (1 <= hi)%Z ->
  (clamp_limit limit dflt hi = XNaN /\ limit = Some JSNaN) \/
  (exists L, clamp_limit limit dflt hi = XInt L /\ (1 <= L <= hi)%Z).
Proof.
  intros Hhi. rewrite clamp_limit_value.
  destruct limit as [[ | [m e | neg]] | ]; simpl.
  - left. done.
  - right. eexists. split; [reflexivity | lia].
  - right. destruct neg; (eexists; split; [reflexivity | lia]).
  - right. eexists. split; [reflexivity | lia].
Qed.

(** The window in lines: it starts at the cursor, spans [lim] lines or up
    to the end, and its events are the lines of it that parse; a NaN
    cursor or limit gives a NaN [nextCursor] and no events. *)
Lemma tail_window_spec (raw : text) (cur limit : option jsnumber) (ep : text) :
  let r := tail_window raw cur limit ep in
  let lines := log_lines raw in
  let n := XInt (Z.of_nat (length lines)) in
  let lim := clamp_limit limit 200 500 in
  cursor r = match cur with
             | None => js_max (XInt 0) (js_sub n lim)
             | Some c => js_max (XInt 0) (js_min (js_floor c) n)
             end /\
  nextCursor r = js_min n (js_add (cursor r) lim) /\
  tail_path r = ep /\
  (((cursor r = XNaN \/ lim = XNaN) /\ nextCursor r = XNaN /\ events r = []) \/
   (exists s e L,
      cursor r = XInt s /\ nextCursor r = XInt e /\ lim = XInt L /\ (1 <= L <= 500)%Z /\
      e = Z.min (Z.of_nat (length lines)) (s + L) /\
      (0 <= s <= e)%Z /\ (e <= Z.of_nat (length lines))%Z /\
      events r = omap JSON_parse (take (Z.to_nat (e - s)) (drop (Z.to_nat s) lines)))).
Proof.
  intros r lines n lim.
  assert (Hc : cursor r = match cur with
                          | None => js_max (XInt 0) (js_sub n lim)
                          | Some c => js_max (XInt 0) (js_min (js_floor c) n)
                          end) by reflexivity.
  assert (Hn : nextCursor r = js_min n (js_add (cursor r) lim)) by reflexivity.
  assert (Hev : events r = omap JSON_parse (js_slice lines (cursor r) (nextCursor r)))
    by reflexivity.
  split; [exact Hc | ]. split; [exact Hn | ]. split; [reflexivity | ].
  set (N := Z.of_nat (length lines)) in *.
  assert (Hs : cursor r = XNaN \/ exists s, cursor r = XInt s /\ (0 <= s <= N)%Z).
  { rewrite Hc. unfold n.
    destruct cur as [c | ].
    - destruct (js_floor c) as [ | [] | v]; simpl; [left; done | right | right | right];
        (eexists; split; [reflexivity | lia]).
    - destruct (clamp_limit_cases limit 200 500 ltac:(lia)) as [[HL _] | (L & HL & HLr)].
      + left. assert (HL' : lim = XNaN) by exact HL. rewrite HL'. reflexivity.
      + right. assert (HL' : lim = XInt L) by exact HL. rewrite HL'. simpl.
        eexists. split; [reflexivity | lia]. }
  destruct (clamp_limit_cases limit 200 500 ltac:(lia)) as [[HL _] | (L & HL & HLr)].
  - assert (HL' : lim = XNaN) by exact HL.
    assert (Hn' : nextCursor r = XNaN).
    { rewrite Hn, HL'. unfold n. destruct (cursor r) as [ | [] | z]; reflexivity. }
    left. split; [right; exact HL' | ]. split; [exact Hn' | ].
    rewrite Hev, Hn', js_slice_nan_end. reflexivity.
  - assert (HL' : lim = XInt L) by exact HL.
    destruct Hs as [Hs | (s & Hs & Hsr)].
    + assert (Hn' : nextCursor r = XNaN) by (rewrite Hn, Hs; reflexivity).
      left. split; [left; exact Hs | ]. split; [exact Hn' | ].
      rewrite Hev, Hn', js_slice_nan_end. reflexivity.
    + assert (Hn' : nextCursor r = XInt (Z.min N (s + L))) by (rewrite Hn, Hs, HL'; reflexivity).
      right. exists s, (Z.min N (s + L)), L.
      split; [exact Hs | ]. split; [exact Hn' | ]. split; [exact HL' | ].
      split; [exact HLr | ]. split; [reflexivity | ]. split; [lia | ]. split; [lia | ].
      rewrite Hev, Hs, Hn'. rewrite js_slice_window; [reflexivity | lia | ].
      fold N. lia.
Qed.


(** C5 (amended). For every log and every cursor and limit, the call
    returns without error and the window is counted in lines: it starts at
    the cursor (the floored cursor clamped to [0, n], or [n - lim] when
    absent) and spans [lim] lines or up to the end, whether or not they
    parse; its events are the lines of the window that parse, in order, the
    others being dropped without affecting the rest. A NaN cursor or limit
    makes the window bounds NaN and the window empty. *)
Theorem tailNoctuneEvents_lines :
  forall (w : world) (repoRoot runId rr : text) (cur limit : option jsnumber),
    resolveRepoRootOrThrow (w_env w) repoRoot = Ok rr ->
    exists r, tailNoctuneEvents repoRoot runId cur limit w = (Ok r, w) /\
    match fst (fs_readFile (tail_path r) w) with
    | Ok raw =>
        let lines := log_lines raw in
        let n := XInt (Z.of_nat (length lines)) in
        let lim := clamp_limit limit 200 500 in
        cursor r = match cur with
                   | None => js_max (XInt 0) (js_sub n lim)
                   | Some c => js_max (XInt 0) (js_min (js_floor c) n)
                   end /\
        nextCursor r = js_min n (js_add (cursor r) lim) /\
        events r = match cursor r, nextCursor r with
                   | XInt s, XInt e =>
                       omap JSON_parse (take (Z.to_nat (e - s)) (drop (Z.to_nat s) lines))
                   | _, _ => []
                   end
    | Err _ => events r = [] /\ cursor r = XInt 0 /\ nextCursor r = XInt 0
    end.
Proof.
  intros w repoRoot runId rr cur limit Hr.
  destruct (tail_read w repoRoot runId rr cur limit Hr) as (r & Hcall & Hm).
  exists r. split; [exact Hcall | ].
  destruct (fst (fs_readFile (tail_path r) w)) as [raw|e]; [ | exact Hm].
  rewrite Hm.
  destruct (tail_window_spec raw cur limit (tail_path r))
    as (Hc & Hn & _ & [(_ & Hn' & He) | (s & e & L & Hs & He' & _ & _ & _ & _ & _ & He)]).
  - split; [exact Hc | ]. split; [exact Hn | ].
    rewrite Hn', He. destruct (cursor _); reflexivity.
  - split; [exact Hc | ]. split; [exact Hn | ].
    rewrite Hs, He'. exact He.
Qed.



Lemma tailNoctuneEvents_lines_witness :
  resolveRepoRootOrThrow (w_env torn_event_world) (t "/repo") = Ok (t "/repo") /\
  exists r, tailNoctuneEvents (t "/repo") (t "r1") None (Some (jsint 2)) torn_event_world =
              (Ok r, torn_event_world).
Proof.
  assert (H : resolveRepoRootOrThrow (w_env torn_event_world) (t "/repo") = Ok (t "/repo"))
    by (vm_compute; reflexivity).
  split; [exact H | ].
  destruct (tailNoctuneEvents_lines torn_event_world (t "/repo") (t "r1") (t "/repo")
              None (Some (jsint 2)) H) as (r & Hr & _).
  exists r. exact Hr.
Defined.

(** C5 counterexample: two of the three lines parse and the limit is 2,
    yet one event comes back: the torn last line takes a place in the
    window. *)
Lemma tailNoctuneEvents_torn_line_cex :
  length (omap JSON_parse [j "{`i`:0}"; j "{`i`:1}"; t "{"]) = 2 /\
  fst (tailNoctuneEvents (t "/repo") (t "r1") None (Some (jsint 2)) torn_event_world) =
    Ok {| events := [JObj [(t "i", JNum (NFin 1 0))]]; cursor := XInt 1; nextCursor := XInt 3;
          tail_path := t "/repo/.noctune_cache/runs/r1/events/events.jsonl" |}.
Proof. vm_compute. split; reflexivity. Qed.

Section RunStateProps.
Context `{RT : JSRuntime}.

(* ------------------------------------------------------------------ *)
(** ** Run state *)


(* ------------------------------------------------------------------ *)
(** ** Stopping a run *)

Lemma sigterm_step (pid : option Z) (w : world) :
  exists w', (match pid with
              | Some p => if (p =? 0)%Z then io_ret tt
                          else io_catch (send_sigterm p) (fun _ => io_ret tt)
              | None => io_ret tt
              end) w = (Ok tt, w') /\ w_fs w' = w_fs w /\ w_env w' = w_env w.
Proof.
  destruct pid as [p| ]; [ | by eexists].
  destruct (p =? 0)%Z; [by eexists | ].
  unfold io_catch, send_sigterm.
  destruct (kill_term (w_procs w) p); by eexists.
Qed.

Lemma stop_unfold (repoRoot runId : text) (pid : option Z) (w : world) :
  stopNoctuneRun repoRoot runId pid w =
  match resolveRepoRootOrThrow (w_env w) repoRoot with
  | Err e => (Err e, w)
  | Ok rr =>
      match js_trim runId with
      | [] => (Err RunIdRequired, w)
      | _ =>
          let p := path_join [rr; t ".noctune_cache"; t "runs"; js_trim runId; t "state"; t "stop.flag"] in
          match fs_mkdirp (path_dirname p) w with
          | (Err e, w1) => (Err e, w1)
          | (Ok _, w1) =>
              match fs_writeFile p (t "stop" ++ [10%N]) w1 with
              | (Err e, w2) => (Err e, w2)
              | (Ok _, w2) =>
                  match (match pid with
                         | Some q => if (q =? 0)%Z then io_ret tt
                                     else io_catch (send_sigterm q) (fun _ => io_ret tt)
                         | None => io_ret tt
                         end) w2 with
                  | (Ok _, w3) => (Ok (true, p), w3)
                  | (Err e, w3) => (Err e, w3)
                  end
              end
          end
      end
  end.
Proof.
  unfold stopNoctuneRun, io_bind at 1, resolve_root_io.
  destruct (resolveRepoRootOrThrow (w_env w) repoRoot) as [rr|e]; [ | reflexivity].
  destruct (js_trim runId) as [ | c rid] eqn:Ht; [reflexivity | ].
  unfold io_bind. rewrite <- Ht.
  destruct (fs_mkdirp _ w) as [[[] | e] w1]; [ | reflexivity].
  destruct (fs_writeFile _ _ w1) as [[[] | e] w2]; [ | reflexivity].
  reflexivity.
Qed.
(** C9 (amended). Whenever [stopNoctuneRun] succeeds, it has written
    ["stop\n"] at the stop-flag path it returns, and a second call with the
    same arguments succeeds with the same answer and leaves the filesystem
    as it was. The termination signal never changes the outcome: with or
    without a pid, and whether [process.kill] fails or not, the result and
    the filesystem are the same. A root that is not allowed makes it throw
    the root error, and a run id that is empty after trimming makes it
    throw [runId is required], before anything is written. *)
Theorem stopNoctuneRun_idempotent :
  (forall (w w1 : world) (repoRoot runId p : text) (pid : option Z),
     stopNoctuneRun repoRoot runId pid w = (Ok (true, p), w1) ->
     w_fs w1 !! p = Some (EFile (t "stop" ++ [10%N])) /\
     exists w2, stopNoctuneRun repoRoot runId pid w1 = (Ok (true, p), w2) /\
                w_fs w2 = w_fs w1) /\
  (forall (w : world) (repoRoot runId : text) (pid : option Z),
     fst (stopNoctuneRun repoRoot runId pid w) = fst (stopNoctuneRun repoRoot runId None w) /\
     w_fs (snd (stopNoctuneRun repoRoot runId pid w)) =
       w_fs (snd (stopNoctuneRun repoRoot runId None w))) /\
  (forall (w : world) (repoRoot runId : text) (pid : option Z),
     (forall e, resolveRepoRootOrThrow (w_env w) repoRoot = Err e ->
        stopNoctuneRun repoRoot runId pid w = (Err e, w)) /\
     (forall rr, resolveRepoRootOrThrow (w_env w) repoRoot = Ok rr -> js_trim runId = [] ->
        stopNoctuneRun repoRoot runId pid w = (Err RunIdRequired, w))).
Proof.
  split; [ | split].
  - intros w w1 repoRoot runId p pid H. revert H.
    rewrite stop_unfold.
    destruct (resolveRepoRootOrThrow (w_env w) repoRoot) as [rr|e] eqn:Hr; [ | discriminate].
    destruct (js_trim runId) as [ | c rid] eqn:Ht; [discriminate | ].
    cbv zeta.
    match goal with |- context [fs_mkdirp (path_dirname ?q) w] => set (p0 := q) end.
    destruct (fs_mkdirp (path_dirname p0) w) as [[[] | e] w1'] eqn:Hm; [ | discriminate].
    destruct (fs_writeFile p0 (t "stop" ++ [10%N]) w1') as [[[] | e] w2] eqn:Hw; [ | discriminate].
    intros H.
    destruct (sigterm_step pid w2) as (w3 & Hk & Hfs3 & Henv3).
    rewrite Hk in H. injection H as <- <-.
    apply fs_writeFile_ok in Hw as (Hpar & Hroot & Hnotdir & ->).
    apply fs_mkdirp_ok in Hm as (Henv1 & _ & _ & _).
    assert (Hp : w_fs w3 !! p0 = Some (EFile (t "stop" ++ [10%N]))).
    { rewrite Hfs3. simpl. apply lookup_insert_eq. }
    split; [exact Hp | ].
    assert (Hpar3 : is_root (path_dirname p0) = true \/ w_fs w3 !! path_dirname p0 = Some EDir).
    { destruct Hpar as [Hpar | Hpar]; [by left | right].
      rewrite Hfs3. simpl. rewrite lookup_insert_ne; [exact Hpar | ].
      intros Heq. apply Hnotdir. by rewrite Heq. }
    rewrite stop_unfold. cbv zeta.
    rewrite Henv3. cbn [w_env set_fs]. rewrite Henv1, Hr, Ht. fold p0.
    rewrite (fs_mkdirp_existing _ _ Hpar3).
    rewrite (fs_writeFile_same _ _ _ Hpar3 Hroot Hp).
    destruct (sigterm_step pid w3) as (w4 & Hk4 & Hfs4 & _).
    rewrite Hk4. exists w4. split; [reflexivity | exact Hfs4].
  - intros w repoRoot runId pid.
    rewrite !stop_unfold. cbv zeta.
    destruct (resolveRepoRootOrThrow (w_env w) repoRoot) as [rr|e]; [ | done].
    destruct (js_trim runId) as [ | c rid]; [done | ].
    destruct (fs_mkdirp _ w) as [[[] | e] w1]; [ | done].
    destruct (fs_writeFile _ _ w1) as [[[] | e] w2]; [ | done].
    destruct (sigterm_step pid w2) as (w3 & Hk & Hfs3 & _).
    rewrite Hk. simpl. split; [reflexivity | exact Hfs3].
  - intros w repoRoot runId pid. split.
    + intros e He. rewrite stop_unfold, He. reflexivity.
    + intros rr Hr Ht. rewrite stop_unfold, Hr, Ht. reflexivity.
Qed.
End RunStateProps.



Lemma stopNoctuneRun_idempotent_witness :
  let w0 := demo_world [] ∅ 0 in
  let w1 := snd (@stopNoctuneRun demo_rt (t "/repo") (t "r1") (Some 42%Z) w0) in
  let p := t "/repo/.noctune_cache/runs/r1/state/stop.flag" in
  @stopNoctuneRun demo_rt (t "/repo") (t "r1") (Some 42%Z) w0 = (Ok (true, p), w1) /\
  w_fs w1 !! p = Some (EFile (t "stop" ++ [10%N])) /\
  exists w2, @stopNoctuneRun demo_rt (t "/repo") (t "r1") (Some 42%Z) w1 = (Ok (true, p), w2) /\
             w_fs w2 = w_fs w1.
Proof.
  intros w0 w1 p.
  assert (H : @stopNoctuneRun demo_rt (t "/repo") (t "r1") (Some 42%Z) w0 = (Ok (true, p), w1))
    by (vm_compute; reflexivity).
  split; [exact H | ].
  exact (proj1 (@stopNoctuneRun_idempotent demo_rt) w0 w1 _ _ _ _ H).
Defined.

(** A root outside the allowed roots makes [stopNoctuneRun] throw. *)
Lemma stopNoctuneRun_root_cex :
  fst (@stopNoctuneRun demo_rt (t "/elsewhere") (t "r1") None (demo_world [] ∅ 0)) =
    Err (RootNotAllowed (t "/elsewhere")).
Proof. vm_compute. reflexivity. Qed.

(* ------------------------------------------------------------------ *)
(** ** Write permission *)

Lemma io_bind_ok {A B} (m : io A) (k : A -> io B) (w w1 : world) (a : A) :
  m w = (Ok a, w1) -> io_bind m k w = k a w1.
Proof. intros H. unfold io_bind. by rewrite H. Qed.

Lemma io_bind_err {A B} (m : io A) (k : A -> io B) (w w1 : world) (e : js_error) :
  m w = (Err e, w1) -> io_bind m k w = (Err e, w1).
Proof. intros H. unfold io_bind. by rewrite H. Qed.

Lemma fs_readFile_fs (p : text) (w w' : world) :
  w_fs w = w_fs w' -> fst (fs_readFile p w) = fst (fs_readFile p w').
Proof.
  intros H. unfold fs_readFile. rewrite H.
  destruct (is_root p); [done | ]. by destruct (w_fs w' !! p) as [[]| ].
Qed.

Lemma persistent_grant_fs (w w' : world) (rr b : text) :
  w_fs w = w_fs w' -> persistent_grant w rr b = persistent_grant w' rr b.
Proof. intros H. unfold persistent_grant. by rewrite (fs_readFile_fs _ _ _ H). Qed.

Lemma consume_step (k : text) (w : world) :
  exists w', consumeOnceToken k w =
               (Ok (match w_once w !! k with Some exp => (w_now w <=? exp)%Z | None => false end), w') /\
             w_fs w' = w_fs w /\ w_env w' = w_env w /\
             w_sessions w' = w_sessions w /\ w_now w' = w_now w.
Proof.
  unfold consumeOnceToken.
  destruct (w_once w !! k) as [exp | ]; [ | by exists w].
  exists (set_once w (delete k (w_once w))). split; [ | done]. cbn [w_now set_once].
  rewrite Z.gtb_ltb.
  destruct (Z.ltb_spec exp (w_now w)), (Z.leb_spec (w_now w) exp); done || lia.
Qed.

Section AllowProps.
Context `{RT : JSRuntime}.

Lemma session_step (s : text) (w : world) :
  exists w', isSessionAllowed s w =
               (Ok (match w_sessions w !! s with
                    | Some exp => negb (exp =? 0)%Z && (w_now w <=? exp)%Z
                    | None => false end), w') /\
             w_fs w' = w_fs w /\ w_env w' = w_env w.
Proof.
  unfold isSessionAllowed.
  destruct (w_sessions w !! s) as [exp | ]; [ | by exists w].
  destruct (exp =? 0)%Z; [by exists w | ].
  rewrite Z.gtb_ltb.
  destruct (Z.ltb_spec exp (w_now w)), (Z.leb_spec (w_now w) exp); try lia.
  - by exists (set_sessions w (delete s (w_sessions w))).
  - by exists w.
Qed.

Lemma always_step (repoRoot b : text) (w : world) :
  isAlwaysAllowed repoRoot b w =
    match resolveRepoRootOrThrow (w_env w) repoRoot with
    | Ok rr => (Ok (persistent_grant w rr b), w)
    | Err e => (Err e, w)
    end.
Proof.
  unfold isAlwaysAllowed, resolve_root_io, io_bind at 1.
  destruct (resolveRepoRootOrThrow (w_env w) repoRoot) as [rr | e]; [ | done].
  cbv zeta. unfold io_catch, read_json, io_bind, persistent_grant.
  rewrite (pair_eta (fs_readFile (allowFilePath rr) w)), fs_readFile_world.
  destruct (fst (fs_readFile (allowFilePath rr) w)) as [raw | e]; [ | done].
  cbn [fst]. destruct (JSON_parse raw); reflexivity.
Qed.

(** C1 (amended). [computeAllowWrite] tries the tiers in order: a
    one-time token of the store that has not expired grants [(true, once)]
    at once, without the cookie header being read. Otherwise the session
    cookie is read (a value that [decodeURIComponent] rejects throws its
    [URIError]) and an unexpired session grant gives [(true, session)];
    failing that, the browser cookie is read (with the same [URIError]),
    and a non-empty browser id triggers the persistent tier, which first
    resolves the root (an unallowed root is thrown as an error) and gives
    [(true, always)] when the allow document grants the browser; in every
    other case the answer is [(false, none)]. *)
Theorem computeAllowWrite_tiers :
  forall (w : world) (repoRoot : text) (tok hdr : option text),
    (once_grant w tok = true ->
       fst (computeAllowWrite repoRoot tok hdr w) = Ok (true, MOnce)) /\
    fst (computeAllowWrite repoRoot tok hdr w) =
      if once_grant w tok then Ok (true, MOnce) else
      match getCookie hdr STUDIO_SESSION_ID_COOKIE with
      | Err e => Err e
      | Ok sid =>
          if session_grant w sid then Ok (true, MSession) else
          match getCookie hdr STUDIO_BROWSER_ID_COOKIE with
          | Err e => Err e
          | Ok bid =>
              match bid with
              | Some ((_ :: _) as b) =>
                  match resolveRepoRootOrThrow (w_env w) repoRoot with
                  | Ok rr => if persistent_grant w rr b then Ok (true, MAlways)
                             else Ok (false, MNone)
                  | Err e => Err e
                  end
              | _ => Ok (false, MNone)
              end
          end
      end.
Proof.
  intros w repoRoot tok hdr.
  assert (Honce : exists w1,
    (match tok with Some ((_ :: _) as k) => consumeOnceToken k | _ => io_ret false end) w =
      (Ok (once_grant w tok), w1) /\
    w_fs w1 = w_fs w /\ w_env w1 = w_env w /\ w_sessions w1 = w_sessions w /\ w_now w1 = w_now w).
  { destruct tok as [[ | c k] | ]; [by exists w | | by exists w].
    destruct (consume_step (c :: k) w) as (w1 & H & Hf). exists w1. cbv beta iota. by rewrite H. }
  destruct Honce as (w1 & H1 & Hfs1 & Henv1 & Hses1 & Hnow1).
  unfold computeAllowWrite. rewrite (io_bind_ok _ _ _ _ _ H1). cbv beta.
  split; [intros Ho; rewrite Ho; reflexivity | ].
  destruct (once_grant w tok); [reflexivity | ].
  destruct (getCookie hdr STUDIO_SESSION_ID_COOKIE) as [sid | e] eqn:Hs.
  2: { rewrite (io_bind_err _ _ w1 w1 e); reflexivity. }
  rewrite (io_bind_ok _ _ w1 w1 sid); [ | reflexivity].
  assert (Hsess : exists w2,
    (match sid with Some ((_ :: _) as s) => isSessionAllowed s | _ => io_ret false end) w1 =
      (Ok (session_grant w sid), w2) /\ w_fs w2 = w_fs w /\ w_env w2 = w_env w).
  { destruct sid as [[ | c s] | ]; [by exists w1 | | by exists w1].
    destruct (session_step (c :: s) w1) as (w2 & H & Hf & He). exists w2. cbv beta iota.
    rewrite H, Hses1, Hnow1, Hf, He. auto. }
  destruct Hsess as (w2 & H2 & Hfs2 & Henv2).
  rewrite (io_bind_ok _ _ _ _ _ H2). cbv beta.
  destruct (session_grant w sid); [reflexivity | ].
  destruct (getCookie hdr STUDIO_BROWSER_ID_COOKIE) as [bid | e] eqn:Hb.
  2: { rewrite (io_bind_err _ _ w2 w2 e); reflexivity. }
  rewrite (io_bind_ok _ _ w2 w2 bid); [ | reflexivity].
  destruct bid as [[ | c b] | ]; [reflexivity | | reflexivity].
  destruct (resolveRepoRootOrThrow (w_env w) repoRoot) as [rr | e] eqn:Hr.
  - rewrite (io_bind_ok _ _ w2 w2 (persistent_grant w rr (c :: b))).
    + by destruct (persistent_grant w rr (c :: b)).
    + change (isAlwaysAllowed repoRoot (c :: b) w2 = (Ok (persistent_grant w rr (c :: b)), w2)).
      rewrite always_step, Henv2, Hr, (persistent_grant_fs w2 w rr (c :: b) Hfs2).
      reflexivity.
  - rewrite (io_bind_err _ _ w2 w2 e); [reflexivity | ].
    change (isAlwaysAllowed repoRoot (c :: b) w2 = (Err e, w2)).
    rewrite always_step, Henv2, Hr. reflexivity.
Qed.

End AllowProps.

Lemma computeAllowWrite_tiers_witness :
  once_grant token_world (Some (t "tok")) = true /\
  fst (@computeAllowWrite demo_rt (t "/repo") (Some (t "tok"))
         (Some (t "noctune_studio_session_id=%E0%A4")) token_world) = Ok (true, MOnce).
Proof.
  assert (H : once_grant token_world (Some (t "tok")) = true) by (vm_compute; reflexivity).
  split; [exact H | ].
  exact (proj1 (@computeAllowWrite_tiers demo_rt token_world (t "/repo") (Some (t "tok"))
                  (Some (t "noctune_studio_session_id=%E0%A4"))) H).
Defined.

(** With no token and no session, a browser cookie and a root outside the
    allowed roots make [computeAllowWrite] throw instead of answering
    [(false, none)]; so does a session cookie whose value is not valid
    percent-encoded UTF-8, which [decodeURIComponent] rejects. *)
Lemma computeAllowWrite_root_cex :
  fst (@computeAllowWrite demo_rt (t "/elsewhere") None
         (Some (t "noctune_studio_browser_id=b1")) (demo_world [] ∅ 0)) =
    Err (RootNotAllowed (t "/elsewhere")) /\
  fst (@computeAllowWrite demo_rt (t "/repo") None
         (Some (t "noctune_studio_session_id=%E0%A4")) (demo_world [] ∅ 0)) =
    Err URIError.
Proof. vm_compute. split; reflexivity. Qed.

(* ------------------------------------------------------------------ *)
(** ** Paths *)

Lemma teq_true (a b : text) : teq a b = true <-> a = b.
Proof. unfold teq. apply bool_decide_eq_true. Qed.

Lemma teq_false (a b : text) : teq a b = false <-> a <> b.
Proof. unfold teq. apply bool_decide_eq_false. Qed.

Lemma split_on_not_nil (sep : N) (a : text) : split_on sep a <> [].
Proof.
  destruct a as [ | c a]; simpl; [done | ].
  destruct (N.eqb c sep); [done | ]. by destruct (split_on sep a).
Qed.

Lemma split_on_app (sep : N) (a b : text) :
  split_on sep (a ++ sep :: b) = split_on sep a ++ split_on sep b.
Proof.
  induction a as [ | c a IH]; simpl.
  - by rewrite N.eqb_refl.
  - destruct (N.eqb c sep); [by rewrite IH | ].
    rewrite IH. pose proof (split_on_not_nil sep a).
    by destruct (split_on sep a).
Qed.

Lemma split_on_noslash (a : text) :
  existsb is_slash a = false -> split_on slash a = [a].
Proof.
  induction a as [ | c a IH]; simpl; [done | ].
  intros H. apply orb_false_iff in H as [H1 H2]. unfold is_slash in H1.
  by rewrite H1, IH.
Qed.

Lemma split_on_join (segs : list text) :
  segs <> [] -> Forall (fun s => existsb is_slash s = false) segs ->
  split_on slash (join_with [slash] segs) = segs.
Proof.
  induction segs as [ | x [ | y r] IH]; intros Hne Hf; [done | | ].
  - inversion Hf; subst. by apply split_on_noslash.
  - inversion Hf; subst.
    change (join_with [slash] (x :: y :: r)) with (x ++ slash :: join_with [slash] (y :: r)).
    rewrite split_on_app, split_on_noslash, IH; done.
Qed.

Lemma split_on_slash_free (p : text) :
  Forall (fun s => existsb is_slash s = false) (split_on slash p).
Proof.
  induction p as [ | c r IH]; simpl; [by repeat constructor | ].
  destruct (N.eqb c slash) eqn:E; [by constructor | ].
  destruct (split_on slash r) as [ | x xs] eqn:Hs; [by apply split_on_not_nil in Hs | ].
  inversion IH; subst. constructor; [ | done].
  simpl. unfold is_slash. by rewrite E.
Qed.

Lemma join_with_app (sep : text) (a b : list text) :
  a <> [] -> b <> [] -> join_with sep (a ++ b) = join_with sep a ++ sep ++ join_with sep b.
Proof.
  induction a as [ | x [ | y r] IH]; intros Ha Hb; [done | | ].
  - destruct b; done.
  - change ((x :: y :: r) ++ b) with (x :: ((y :: r) ++ b)).
    change (join_with sep (x :: (y :: r) ++ b)) with (x ++ sep ++ join_with sep ((y :: r) ++ b)).
    rewrite IH; [ | done | done]. simpl. by rewrite <- !app_assoc.
Qed.

Lemma starts_with_app (pre s : text) :
  starts_with pre s = true <-> exists x, s = pre ++ x.
Proof.
  revert s. induction pre as [ | c pre IH]; intros s; simpl.
  - split; [by exists s | done].
  - destruct s as [ | d s].
    + split; [done | by intros [x Hx]].
    + rewrite andb_true_iff, N.eqb_eq, IH. split.
      * intros [-> [x ->]]. by exists x.
      * intros [x Hx]. injection Hx as -> ->. eauto.
Qed.

Lemma norm_rev_plain (acc segs : list text) :
  Forall (fun s => plain s = true) acc ->
  Forall (fun s => existsb is_slash s = false) segs ->
  Forall (fun s => plain s = true) (norm_rev false acc segs).
Proof.
  revert acc. induction segs as [ | s r IH]; intros acc Ha Hs; simpl; [done | ].
  inversion Hs; subst.
  destruct (teq s [] || teq s (t ".")) eqn:E1; [by apply IH | ].
  destruct (teq s (t "..")) eqn:E2.
  - destruct acc as [ | x acc']; [by apply IH | ].
    inversion Ha; subst. destruct (teq x (t "..")); by apply IH.
  - apply IH; [ | done]. constructor; [ | done].
    apply orb_false_iff in E1 as [E1 E1']. unfold plain.
    by rewrite E1, E1', E2, H1.
Qed.

Lemma path_resolve_abs (cwd : text) (args : list text) :
  is_abs cwd = true ->
  exists segs, path_resolve cwd args = mk_path segs /\ Forall (fun s => plain s = true) segs.
Proof.
  intros Hc. unfold path_resolve.
  destruct (resolve_scan (rev args) []) as [p [ | ]]; cbv beta iota; [ | rewrite Hc];
    (eexists; split; [reflexivity | ]);
    apply Forall_rev, norm_rev_plain; [done | apply split_on_slash_free | done | apply split_on_slash_free].
Qed.

Lemma plain_nonempty (s : text) : plain s = true -> teq s [] = false.
Proof. unfold plain. destruct (teq s []); done. Qed.

Lemma plain_noslash (s : text) : plain s = true -> existsb is_slash s = false.
Proof. unfold plain. by destruct (existsb is_slash s); rewrite ?andb_false_r. Qed.

Lemma filter_nonempty_id (segs : list text) :
  Forall (fun s => plain s = true) segs ->
  filter (fun s => negb (teq s [])) segs = segs.
Proof.
  induction 1 as [ | x r Hx Hr IH]; [done | ].
  rewrite filter_cons_True; [by rewrite IH | ].
  by rewrite (plain_nonempty x Hx).
Qed.



Lemma root_check_ok (rr r : text) (l : list text) :
  root_check rr l = Ok r ->
  r = rr /\ exists base, In base l /\ (rr = base \/ starts_with (base ++ [slash]) rr = true).
Proof.
  induction l as [ | b l IH]; simpl; [done | ].
  destruct (teq rr b) eqn:E1.
  - intros [= <-]. apply teq_true in E1. split; [done | ]. exists b. auto.
  - destruct (starts_with (b ++ [slash]) rr) eqn:E2.
    + intros [= <-]. split; [done | ]. exists b. auto.
    + intros H. destruct (IH H) as [-> [base [Hin Hb]]]. split; [done | ]. exists base. auto.
Qed.









Lemma norm_rev_plain_id (acc segs : list text) :
  Forall (fun s => plain s = true) segs -> norm_rev false acc segs = rev segs ++ acc.
Proof.
  intros Hp. revert acc. induction Hp as [ | s r Hs Hr IH]; intros acc; simpl; [done | ].
  unfold plain in Hs.
  destruct (teq s []), (teq s (t ".")), (teq s (t "..")); try done.
  simpl. rewrite IH. by rewrite <- app_assoc.
Qed.





(* ------------------------------------------------------------------ *)
(** ** Sorting *)

Section SortBy.
Context {A : Type} (lt : A -> A -> bool) (R : A -> A -> Prop).
Hypothesis lt_R : forall a b, lt a b = true -> R a b.
Hypothesis nlt_R : forall a b, lt a b = false -> R b a.

Lemma insert_by_perm (x : A) (l : list A) : Permutation (insert_by lt x l) (x :: l).
Proof.
  induction l as [ | y r IH]; simpl; [done | ].
  destruct (lt x y); [done | ].
  etransitivity; [apply perm_skip, IH | apply perm_swap].
Qed.


Lemma sort_by_fold_perm (l acc : list A) :
  Permutation (fold_left (fun acc x => insert_by lt x acc) l acc) (l ++ acc).
Proof.
  revert acc. induction l as [ | x l IH]; intros acc; simpl; [done | ].
  etransitivity; [apply IH | ].
  etransitivity; [apply Permutation_app_head, insert_by_perm | ].
  symmetry. apply Permutation_middle.
Qed.

Lemma sort_by_perm (l : list A) : Permutation (sort_by lt l) l.
Proof.
  unfold sort_by. pose proof (sort_by_fold_perm l []) as H.
  by rewrite app_nil_r in H.
Qed.


End SortBy.


(* ------------------------------------------------------------------ *)
(** ** Listing runs *)

Section RunsProps.
Context `{RT : JSRuntime}.



End RunsProps.

Section RunsSorted.
Context `{RT : JSRuntime}.


Hypothesis lc_asym :
  forall a b, (locale_compare a b < 0)%Z -> (0 <= locale_compare b a)%Z.




End RunsSorted.



(* ------------------------------------------------------------------ *)
(** ** Entries of a directory *)

Lemma mk_path_snoc (ds : list text) (n : text) :
  ds <> [] -> mk_path (ds ++ [n]) = mk_path ds ++ [slash] ++ n.
Proof. intros H. unfold mk_path. rewrite join_with_app; [reflexivity | done | done]. Qed.

Lemma normalize_segs_mk (ds : list text) :
  Forall (fun s => plain s = true) ds -> normalize_segs false (mk_path ds) = ds.
Proof.
  intros Hp. unfold normalize_segs, mk_path. cbn [split_on]. rewrite N.eqb_refl.
  destruct ds as [ | x r]; [reflexivity | ].
  rewrite split_on_join; [ | done | eapply Forall_impl; [exact Hp | apply plain_noslash]].
  change (norm_rev false [] ([] :: x :: r)) with (norm_rev false [] (x :: r)).
  by rewrite (norm_rev_plain_id [] (x :: r) Hp), app_nil_r, rev_involutive.
Qed.

Lemma existsb_slash_in (c : N) (x : text) :
  existsb is_slash x = false -> In c x -> is_slash c = false.
Proof.
  intros H Hin. destruct (is_slash c) eqn:E; [ | done].
  assert (existsb is_slash x = true) by (apply existsb_exists; eauto). congruence.
Qed.

Lemma last_is_slash_mk (ds : list text) :
  ds <> [] -> Forall (fun s => plain s = true) ds -> last_is_slash (mk_path ds) = false.
Proof.
  intros Hne Hp. destruct (exists_last Hne) as (l & x & ->).
  apply Forall_app in Hp as [_ Hx]. inversion Hx as [ | ? ? Hpx _]; subst.
  assert (HP : exists P, mk_path (l ++ [x]) = P ++ x).
  { destruct l as [ | y l']; [by exists [slash] | ].
    exists (mk_path (y :: l') ++ [slash]). rewrite mk_path_snoc; [ | done]. by rewrite <- app_assoc. }
  destruct HP as [P ->]. unfold last_is_slash. rewrite rev_app_distr.
  destruct (rev x) as [ | c r] eqn:Ex.
  - apply (f_equal (@rev N)) in Ex. rewrite rev_involutive in Ex. subst x.
    vm_compute in Hpx. discriminate.
  - simpl. apply (existsb_slash_in c x); [by apply plain_noslash | ].
    apply in_rev. rewrite Ex. by left.
Qed.

Lemma path_normalize_mk (ds : list text) :
  Forall (fun s => plain s = true) ds -> path_normalize (mk_path ds) = mk_path ds.
Proof.
  intros Hp. destruct ds as [ | x r]; [reflexivity | ].
  pose proof (normalize_segs_mk _ Hp) as Hn.
  pose proof (last_is_slash_mk (x :: r) ltac:(done) Hp) as Hl.
  unfold path_normalize. change (mk_path (x :: r)) with (slash :: join_with [slash] (x :: r)) at 1.
  cbv beta iota zeta.
  change (slash :: join_with [slash] (x :: r)) with (mk_path (x :: r)).
  assert (Ha : is_abs (mk_path (x :: r)) = true) by reflexivity.
  rewrite Ha. cbn [negb]. rewrite Hn, Hl. cbv iota. by rewrite app_nil_r.
Qed.

Lemma path_join_child (ds : list text) (n : text) :
  ds <> [] -> Forall (fun s => plain s = true) ds -> plain n = true ->
  path_join [mk_path ds; n] = mk_path ds ++ [slash] ++ n.
Proof.
  intros Hne Hp Hn. unfold path_join.
  rewrite filter_cons_True; [ | done].
  rewrite filter_cons_True; [ | by rewrite (plain_nonempty n Hn)].
  rewrite filter_nil.
  change (join_with [slash] [mk_path ds; n]) with (mk_path ds ++ [slash] ++ n).
  rewrite <- mk_path_snoc by done.
  change (mk_path (ds ++ [n])) with (slash :: join_with [slash] (ds ++ [n])) at 1.
  cbv iota. change (slash :: join_with [slash] (ds ++ [n])) with (mk_path (ds ++ [n])).
  apply path_normalize_mk. apply Forall_app. split; [done | by constructor].
Qed.

Lemma drop_while_app_all (f : N -> bool) (l1 l2 : text) :
  forallb f l1 = true -> drop_while f (l1 ++ l2) = drop_while f l2.
Proof.
  induction l1 as [ | c l1 IH]; simpl; [done | ].
  intros H. apply andb_true_iff in H as [-> H]. by apply IH.
Qed.

Lemma path_dirname_child (ds : list text) (n : text) :
  ds <> [] -> Forall (fun s => plain s = true) ds ->
  n <> [] -> existsb is_slash n = false ->
  path_dirname (mk_path ds ++ [slash] ++ n) = mk_path ds.
Proof.
  intros Hne Hp Hn Hs. unfold path_dirname, mk_path. cbn [app]. cbv beta iota zeta.
  rewrite !rev_app_distr. cbn [rev]. rewrite <- app_assoc. cbn [app].
  destruct (rev n) as [ | c rn] eqn:Ern.
  { apply (f_equal (@rev N)) in Ern. rewrite rev_involutive in Ern. by subst n. }
  assert (Hc : is_slash c = false).
  { apply (existsb_slash_in c n Hs). apply in_rev. rewrite Ern. by left. }
  assert (Hall : forallb (fun c => negb (is_slash c)) (c :: rn) = true).
  { apply forallb_forall. intros y Hy. rewrite <- Ern in Hy. apply in_rev in Hy.
    by rewrite (existsb_slash_in y n Hs Hy). }
  cbn [drop_while app]. rewrite Hc. rewrite app_comm_cons.
  rewrite (drop_while_app_all _ (c :: rn)) by done.
  cbn [app drop_while]. unfold is_slash at 1. rewrite N.eqb_refl. cbn [negb].
  destruct (rev (join_with [slash] ds)) as [ | b bs] eqn:Ej.
  - exfalso. apply (f_equal (@rev N)) in Ej. rewrite rev_involutive in Ej.
    destruct ds as [ | x r]; [done | ]. inversion Hp as [ | ? ? Hx _]; subst.
    destruct r as [ | y r']; simpl in Ej.
    + subst x. vm_compute in Hx. discriminate.
    + apply app_eq_nil in Ej as [-> _]. vm_compute in Hx. discriminate.
  - f_equal. rewrite <- Ej. apply rev_involutive.
Qed.

Lemma ends_with_app (suf a : text) : ends_with suf (a ++ suf) = true.
Proof.
  unfold ends_with. rewrite rev_app_distr. apply starts_with_app. by exists (rev a).
Qed.

Lemma ends_with_split (suf s : text) : ends_with suf s = true -> exists a, s = a ++ suf.
Proof.
  unfold ends_with. intros H. apply starts_with_app in H as [x Hx].
  exists (rev x). apply (f_equal (@rev N)) in Hx.
  by rewrite rev_involutive, rev_app_distr, rev_involutive in Hx.
Qed.

Lemma replace_json_suffix_name (a r : text) :
  replace_json_suffix (a ++ t ".json") r = a ++ r.
Proof.
  unfold replace_json_suffix. rewrite ends_with_app.
  rewrite take_app_length'; [done | ].
  rewrite length_app. change (length (t ".json")) with 5%nat. lia.
Qed.

Lemma replace_json_suffix_child (d a r : text) :
  replace_json_suffix (d ++ [slash] ++ a ++ t ".json") r = d ++ [slash] ++ a ++ r.
Proof.
  pose proof (replace_json_suffix_name (d ++ [slash] ++ a) r) as H.
  by rewrite <- !app_assoc in H.
Qed.

Lemma decision_file_json (dir a : text) :
  decision_file dir (a ++ t ".json") = dir ++ [slash] ++ a ++ t ".decision".
Proof.
  unfold decision_file. rewrite take_app_length'; [done | ].
  rewrite length_app. change (length (t ".json")) with 5%nat. lia.
Qed.

Lemma path_join_plain (ds ns : list text) :
  ds <> [] -> Forall (fun s => plain s = true) ds -> Forall (fun s => plain s = true) ns ->
  path_join (mk_path ds :: ns) = mk_path (ds ++ ns).
Proof.
  intros Hne Hp Hn. unfold path_join.
  rewrite filter_cons_True by done. rewrite filter_nonempty_id by done.
  assert (Hj : join_with [slash] (mk_path ds :: ns) = mk_path (ds ++ ns)).
  { destruct ns as [ | n ns']; [by rewrite app_nil_r | ].
    change (join_with [slash] (mk_path ds :: n :: ns'))
      with (mk_path ds ++ [slash] ++ join_with [slash] (n :: ns')).
    unfold mk_path. rewrite join_with_app by done. reflexivity. }
  rewrite Hj. change (mk_path (ds ++ ns)) with (slash :: join_with [slash] (ds ++ ns)) at 1.
  cbv iota. change (slash :: join_with [slash] (ds ++ ns)) with (mk_path (ds ++ ns)).
  apply path_normalize_mk. by apply Forall_app.
Qed.

Lemma last_is_slash_cons (c : N) (p : text) :
  p <> [] -> last_is_slash (c :: p) = last_is_slash p.
Proof.
  intros Hp. unfold last_is_slash. cbn [rev].
  destruct (rev p) as [ | x r] eqn:E; [ | done].
  apply (f_equal (@rev N)) in E. rewrite rev_involutive in E. by subst p.
Qed.

Lemma path_join_root_plain (ns : list text) :
  ns <> [] -> Forall (fun s => plain s = true) ns ->
  path_join (mk_path [] :: ns) = mk_path ns.
Proof.
  intros Hne Hn. unfold path_join.
  rewrite filter_cons_True by done. rewrite filter_nonempty_id by done.
  destruct ns as [ | n ns']; [done | ].
  change (join_with [slash] (mk_path [] :: n :: ns'))
    with (slash :: mk_path (n :: ns')).
  cbv iota. unfold path_normalize.
  cbv beta iota zeta.
  assert (Hs : normalize_segs false (slash :: mk_path (n :: ns')) = n :: ns').
  { unfold normalize_segs. cbn [split_on]. rewrite N.eqb_refl.
    pose proof (normalize_segs_mk (n :: ns') Hn) as H. unfold normalize_segs in H.
    change (norm_rev false [] ([] :: split_on slash (mk_path (n :: ns'))))
      with (norm_rev false [] (split_on slash (mk_path (n :: ns')))).
    exact H. }
  change (is_abs (slash :: mk_path (n :: ns'))) with true. cbn [negb].
  rewrite Hs, last_is_slash_cons, last_is_slash_mk by done.
  cbv iota. by rewrite app_nil_r.
Qed.

Lemma path_join_mk (ds ns : list text) :
  ns <> [] -> Forall (fun s => plain s = true) ds -> Forall (fun s => plain s = true) ns ->
  path_join (mk_path ds :: ns) = mk_path (ds ++ ns).
Proof.
  intros Hne Hp Hn. destruct ds as [ | d ds'].
  - by apply path_join_root_plain.
  - by apply path_join_plain.
Qed.

Lemma is_root_child (d n : text) : d <> [] -> is_root (d ++ [slash] ++ n) = false.
Proof.
  intros Hd. destruct d as [ | x d']; [done | ]. unfold is_root. apply teq_false.
  change (t "/") with [slash]. cbn [app]. intros H. injection H as _ H.
  by destruct d'.
Qed.

Lemma fs_exists_spec (p : text) (w : world) :
  is_root p = false -> fs_exists p w = (Ok (bool_decide (is_Some (w_fs w !! p))), w).
Proof.
  intros Hr. unfold fs_exists, io_catch, io_bind, fs_stat. rewrite Hr.
  destruct (w_fs w !! p); reflexivity.
Qed.

Lemma read_json_catch (p : text) (w : world) :
  is_root p = false ->
  io_catch (let! v := read_json p in io_ret (Some v)) (fun _ => io_ret None) w =
  (Ok (match w_fs w !! p with Some (EFile raw) => JSON_parse raw | _ => None end), w).
Proof.
  intros Hr. unfold io_catch, io_bind, read_json, io_bind, fs_readFile. rewrite Hr.
  destruct (w_fs w !! p) as [[raw | ] | ]; [ | reflexivity | reflexivity].
  by destruct (JSON_parse raw).
Qed.

Lemma plain_app_ext (a e : text) :
  existsb is_slash (a ++ e) = false -> (3 <= length e)%nat -> plain (a ++ e) = true.
Proof.
  intros Hs Hl. unfold plain. rewrite Hs.
  assert (Hlen : (3 <= length (a ++ e))%nat) by (rewrite length_app; lia).
  assert (Hne : forall u, (length u < 3)%nat -> teq (a ++ e) u = false).
  { intros u Hu. apply teq_false. intros H. rewrite H in Hlen. lia. }
  rewrite (Hne []), (Hne (t ".")), (Hne (t "..")); [reflexivity | | | ].
  all: cbv; lia.
Qed.

Lemma child_name_some (d k n : text) :
  child_name d k = Some n ->
  n <> [] /\ existsb is_slash n = false /\
  k = (if is_root d then [slash] else d ++ [slash]) ++ n.
Proof.
  unfold child_name. set (pre := if is_root d then [slash] else d ++ [slash]).
  destruct (starts_with pre k) eqn:Hs; [ | done].
  apply starts_with_app in Hs as [x ->]. rewrite drop_app_length.
  destruct (teq x []) eqn:Hx; [done | ]. destruct (existsb is_slash x) eqn:Hx'; [done | ].
  cbn [orb]. intros [= <-]. apply teq_false in Hx. done.
Qed.

Lemma child_name_child (d n : text) :
  is_root d = false -> n <> [] -> existsb is_slash n = false ->
  child_name d (d ++ [slash] ++ n) = Some n.
Proof.
  intros Hr Hn Hs. unfold child_name. rewrite Hr, app_assoc.
  rewrite (proj2 (starts_with_app _ _)) by eauto. rewrite drop_app_length.
  rewrite (proj2 (teq_false _ _) Hn), Hs. reflexivity.
Qed.

Lemma fs_writeFile_new (p c : text) (w : world) :
  (is_root (path_dirname p) = true \/ w_fs w !! path_dirname p = Some EDir) ->
  is_root p = false -> w_fs w !! p = None ->
  fs_writeFile p c w = (Ok tt, set_fs w (<[p := EFile c]> (w_fs w))).
Proof.
  intros Hd Hr Hp. unfold fs_writeFile. cbv zeta.
  destruct (is_root (path_dirname p)) eqn:Hdr.
  - by rewrite Hr, Hp.
  - destruct Hd as [ | ->]; [done | ]. by rewrite Hr, Hp.
Qed.

(** ** Approval requests and decisions *)

Definition child_ok (n : text) : Prop := n <> [] /\ existsb is_slash n = false.

Lemma json_name_plain (a : text) :
  existsb is_slash (a ++ t ".json") = false -> plain (a ++ t ".json") = true.
Proof. intros Hs. apply plain_app_ext; [done | cbv; lia]. Qed.

Lemma pending_entries_cons (w : world) (d n : text) (ns : list text) :
  pending_entries w d (n :: ns) =
  if ends_with (t ".json") n && negb (bool_decide (is_Some (w_fs w !! decision_file d n)))
  then n :: pending_entries w d ns else pending_entries w d ns.
Proof.
  unfold pending_entries. destruct (ends_with _ n && _) eqn:E.
  - rewrite filter_cons_True; [done | ]. rewrite E. exact I.
  - rewrite filter_cons_False; [done | ]. rewrite E. intros [].
Qed.

Lemma pending_loop_spec (ds names : list text) (w : world) :
  ds <> [] -> Forall (fun s => plain s = true) ds -> Forall child_ok names ->
  pending_loop (mk_path ds) names w =
  (Ok (omap (entry_payload w (mk_path ds)) (pending_entries w (mk_path ds) names)), w).
Proof.
  intros Hne Hp. induction names as [ | n ns IH]; intros Hn.
  { unfold pending_entries. by rewrite filter_nil. }
  apply Forall_cons in Hn as [[Hn0 Hs] Hns]. cbn [pending_loop]. rewrite pending_entries_cons.
  destruct (ends_with (t ".json") n) eqn:He; cbn [negb].
  - apply ends_with_split in He as Ha. destruct Ha as [a ->].
    rewrite path_join_child by (done || by apply json_name_plain).
    rewrite replace_json_suffix_child.
    assert (Hr : is_root (mk_path ds ++ [slash] ++ a ++ t ".decision") = false)
      by (apply is_root_child; done).
    rewrite (io_bind_ok _ _ w w _ (fs_exists_spec _ w Hr)), decision_file_json.
    destruct (decide (is_Some (w_fs w !! (mk_path ds ++ [slash] ++ a ++ t ".decision")))) as [Hd | Hd].
    + rewrite !(bool_decide_eq_true_2 _ Hd). cbn [andb negb]. by apply IH.
    + rewrite !(bool_decide_eq_false_2 _ Hd). cbn [andb negb].
      assert (Hr' : is_root (mk_path ds ++ [slash] ++ a ++ t ".json") = false)
        by (apply is_root_child; done).
      rewrite (io_bind_ok _ _ w w _ (read_json_catch _ w Hr')).
      rewrite (io_bind_ok _ _ w w _ (IH Hns)).
      cbn [omap list_omap]. unfold entry_payload at 1. unfold io_ret.
      by destruct (w_fs w !! (mk_path ds ++ [slash] ++ a ++ t ".json")) as [[ | ] | ].
  - by apply IH.
Qed.

Lemma read_safe_catch (p : text) (w : world) :
  is_root p = false ->
  io_catch (let! raw := fs_readFile p in io_ret (safeJsonParse raw)) (fun _ => io_ret JNull) w =
  (Ok (match w_fs w !! p with Some (EFile raw) => safeJsonParse raw | _ => JNull end), w).
Proof.
  intros Hr. unfold io_catch, io_bind, fs_readFile. rewrite Hr.
  by destruct (w_fs w !! p) as [[raw | ] | ].
Qed.

Lemma read_decision_catch (p : text) (w : world) :
  is_root p = false ->
  io_catch
    (let! raw := fs_readFile p in
     let d := match safeJsonParse raw with
              | JNull => JObj [(t "raw", JStr (js_trim raw))]
              | v => v
              end in
     io_ret (true, d))
    (fun _ => io_ret (false, JNull)) w =
  (Ok (match w_fs w !! p with Some (EFile _) => true | _ => false end,
       match w_fs w !! p with
       | Some (EFile raw) =>
           match safeJsonParse raw with
           | JNull => JObj [(t "raw", JStr (js_trim raw))]
           | v => v
           end
       | _ => JNull
       end), w).
Proof.
  intros Hr. unfold io_catch, io_bind, fs_readFile. rewrite Hr.
  by destruct (w_fs w !! p) as [[raw | ] | ].
Qed.

Lemma decisions_loop_spec (ds names : list text) (w : world) :
  ds <> [] -> Forall (fun s => plain s = true) ds -> Forall child_ok names ->
  decisions_loop (mk_path ds) names w =
  (Ok (map (decision_record w (mk_path ds)) (List.filter (ends_with (t ".json")) names)), w).
Proof.
  intros Hne Hp. induction names as [ | n ns IH]; intros Hn; [done | ].
  apply Forall_cons in Hn as [[Hn0 Hs] Hns]. cbn [decisions_loop List.filter].
  destruct (ends_with (t ".json") n) eqn:He; cbn [negb]; [ | by apply IH].
  apply ends_with_split in He as Ha. destruct Ha as [a ->].
  rewrite path_join_child by (done || by apply json_name_plain).
  rewrite replace_json_suffix_child, replace_json_suffix_name, app_nil_r.
  assert (Hr1 : is_root (mk_path ds ++ [slash] ++ a ++ t ".json") = false)
    by (apply is_root_child; done).
  assert (Hr2 : is_root (mk_path ds ++ [slash] ++ a ++ t ".decision") = false)
    by (apply is_root_child; done).
  rewrite (io_bind_ok _ _ w w _ (read_safe_catch _ w Hr1)).
  rewrite (io_bind_ok _ _ w w _ (read_decision_catch _ w Hr2)).
  rewrite (io_bind_ok _ _ w w _ (IH Hns)).
  cbn [map fst snd]. unfold io_ret. do 3 f_equal.
  unfold decision_record. rewrite decision_file_json.
  rewrite take_app_length'; [reflexivity | ].
  rewrite length_app. change (length (t ".json")) with 5%nat. lia.
Qed.

Lemma resolve_ok_mk (E : env) (repoRoot rr : text) :
  is_abs (env_cwd E) = true -> resolveRepoRootOrThrow E repoRoot = Ok rr ->
  exists segs, rr = mk_path segs /\ Forall (fun s => plain s = true) segs.
Proof.
  intros Hc H. unfold resolveRepoRootOrThrow in H.
  apply root_check_ok in H as [-> _]. by apply path_resolve_abs.
Qed.

Lemma approvals_dir_mk (segs : list text) (id : text) :
  Forall (fun s => plain s = true) segs -> plain id = true ->
  approvals_dir (mk_path segs) id =
  mk_path (segs ++ [t ".noctune_cache"; t "runs"; id; t "state"; t "approvals"]).
Proof.
  intros Hs Hi. unfold approvals_dir. apply path_join_mk; [done | done | ].
  repeat constructor; try done.
Qed.

Lemma readdir_dir (d : text) (w : world) :
  is_root d = false -> w_fs w !! d = Some EDir ->
  fs_readdir d w = (Ok (omap (fun '(k, _) => child_name d k) (map_to_list (w_fs w))), w).
Proof. intros Hr Hd. unfold fs_readdir. by rewrite Hr, Hd. Qed.

Lemma readdir_names_ok (d : text) (fs : gmap text entry) :
  Forall child_ok (omap (fun '(k, _) => child_name d k) (map_to_list fs)).
Proof.
  apply Forall_forall. intros n Hn. apply list_elem_of_omap in Hn as [[k e] [_ Hk]].
  apply child_name_some in Hk as (Hn0 & Hs & _). by split.
Qed.

Lemma readdir_names_in (d n : text) (e : entry) (fs : gmap text entry) :
  is_root d = false -> child_ok n -> fs !! (d ++ [slash] ++ n) = Some e ->
  n ∈ omap (fun '(k, _) => child_name d k) (map_to_list fs).
Proof.
  intros Hr [Hn Hs] Hk. apply list_elem_of_omap. exists (d ++ [slash] ++ n, e).
  split; [by apply elem_of_map_to_list | by apply child_name_child].
Qed.

Lemma mk_path_not_root (ds : list text) :
  ds <> [] -> Forall (fun s => plain s = true) ds -> is_root (mk_path ds) = false.
Proof.
  intros Hne Hp. destruct (exists_last Hne) as (l & x & ->).
  apply Forall_app in Hp as [Hl Hx]. inversion Hx as [ | ? ? Hpx _]; subst.
  destruct l as [ | y l'].
  - unfold is_root, mk_path. apply teq_false. change (t "/") with [slash].
    cbn [join_with]. intros [= Hx0]. subst x. vm_compute in Hpx. discriminate.
  - rewrite mk_path_snoc by done. apply is_root_child. done.
Qed.

Lemma sort_texts_elem (x : text) (l : list text) : x ∈ sort_texts l <-> x ∈ l.
Proof.
  rewrite !list_elem_of_In. pose proof (sort_by_perm text_ltb l) as Hp.
  split; apply Permutation_in; [done | by symmetry].
Qed.

Lemma sort_texts_child_ok (l : list text) : Forall child_ok l -> Forall child_ok (sort_texts l).
Proof.
  rewrite !Forall_forall. intros H x Hx. apply H. by apply sort_texts_elem.
Qed.

Lemma readdir_catch_dir (d : text) (w : world) :
  is_root d = false -> w_fs w !! d = Some EDir ->
  io_catch (let! es := fs_readdir d in io_ret (Some es)) (fun _ => io_ret None) w =
  (Ok (Some (omap (fun '(k, _) => child_name d k) (map_to_list (w_fs w)))), w).
Proof. intros Hr Hd. unfold io_catch, io_bind. by rewrite readdir_dir. Qed.

Lemma listPending_form (w : world) (repoRoot runId rr : text) (ds : list text) :
  resolveRepoRootOrThrow (w_env w) repoRoot = Ok rr ->
  approvals_dir rr (js_trim runId) = mk_path ds ->
  ds <> [] -> Forall (fun s => plain s = true) ds ->
  w_fs w !! mk_path ds = Some EDir ->
  listPendingApprovals repoRoot runId w =
  (Ok (omap (entry_payload w (mk_path ds))
         (pending_entries w (mk_path ds)
            (sort_texts (omap (fun '(k, _) => child_name (mk_path ds) k) (map_to_list (w_fs w))))),
       mk_path ds), w).
Proof.
  intros Hres Hdir Hne Hp Hd. unfold listPendingApprovals.
  rewrite (io_bind_ok _ _ w w _ (resolve_root_io_ok _ _ w Hres)). cbv beta zeta.
  rewrite Hdir.
  rewrite (io_bind_ok _ _ w w _ (readdir_catch_dir _ w (mk_path_not_root ds Hne Hp) Hd)).
  cbv beta iota.
  rewrite (io_bind_ok _ _ w w _ (pending_loop_spec _ _ w Hne Hp
             (sort_texts_child_ok _ (readdir_names_ok _ _)))).
  reflexivity.
Qed.

Lemma listDecisions_form (w : world) (repoRoot runId rr : text) (ds : list text) :
  resolveRepoRootOrThrow (w_env w) repoRoot = Ok rr ->
  approvals_dir rr (js_trim runId) = mk_path ds ->
  ds <> [] -> Forall (fun s => plain s = true) ds ->
  w_fs w !! mk_path ds = Some EDir ->
  listApprovalsWithDecisions repoRoot runId w =
  (Ok (map (decision_record w (mk_path ds))
         (List.filter (ends_with (t ".json"))
            (sort_texts (omap (fun '(k, _) => child_name (mk_path ds) k) (map_to_list (w_fs w))))),
       mk_path ds), w).
Proof.
  intros Hres Hdir Hne Hp Hd. unfold listApprovalsWithDecisions.
  rewrite (io_bind_ok _ _ w w _ (resolve_root_io_ok _ _ w Hres)). cbv beta zeta.
  rewrite Hdir.
  rewrite (io_bind_ok _ _ w w _ (readdir_catch_dir _ w (mk_path_not_root ds Hne Hp) Hd)).
  cbv beta iota.
  rewrite (io_bind_ok _ _ w w _ (decisions_loop_spec _ _ w Hne Hp
             (sort_texts_child_ok _ (readdir_names_ok _ _)))).
  reflexivity.
Qed.

Lemma decision_name_plain (id : text) :
  existsb is_slash id = false -> plain (id ++ t ".decision") = true.
Proof.
  intros Hs. apply plain_app_ext; [ | cbv; lia].
  rewrite existsb_app, Hs. reflexivity.
Qed.

Lemma decideApproval_new (w : world) (repoRoot runId id rr : text) (ds : list text)
  (approved : bool) (reason : option text) :
  resolveRepoRootOrThrow (w_env w) repoRoot = Ok rr ->
  approvals_dir rr (js_trim runId) = mk_path ds ->
  ds <> [] -> Forall (fun s => plain s = true) ds ->
  w_fs w !! mk_path ds = Some EDir ->
  id <> [] -> js_trim id = id -> existsb is_slash id = false ->
  w_fs w !! (mk_path ds ++ [slash] ++ id ++ t ".decision") = None ->
  decideApproval repoRoot runId id approved reason w =
  (Ok (true, mk_path ds ++ [slash] ++ id ++ t ".decision"),
   set_fs w (<[mk_path ds ++ [slash] ++ id ++ t ".decision" :=
                EFile (JSON_stringify (JObj [(t "approved", JBool approved);
                                             (t "reason", JStr (default [] reason))]))]> (w_fs w))).
Proof.
  intros Hres Hdir Hne Hp Hd Hid Htr Hs Hnone. unfold decideApproval.
  rewrite (io_bind_ok _ _ w w _ (resolve_root_io_ok _ _ w Hres)). cbv beta zeta.
  rewrite Htr, Hdir.
  assert (Hpl : plain (id ++ t ".decision") = true) by (by apply decision_name_plain).
  destruct id as [ | c id']; [done | ].
  rewrite (io_bind_ok _ _ w w _ (fs_mkdirp_existing _ w (or_intror Hd))).
  rewrite path_join_child by done.
  assert (Hpar : is_root (path_dirname (mk_path ds ++ [slash] ++ (c :: id') ++ t ".decision")) = true \/
                 w_fs w !! path_dirname (mk_path ds ++ [slash] ++ (c :: id') ++ t ".decision") = Some EDir).
  { right. rewrite path_dirname_child; [done | done | done | | by apply plain_noslash].
    apply teq_false, plain_nonempty, Hpl. }
  assert (Hr : is_root (mk_path ds ++ [slash] ++ (c :: id') ++ t ".decision") = false)
    by (by apply is_root_child).
  rewrite (io_bind_ok _ _ w _ _ (fs_writeFile_new _ _ w Hpar Hr Hnone)). reflexivity.
Qed.

(** The decision document written for an approval without a reason. *)
Lemma approved_doc_parse :
  safeJsonParse (JSON_stringify (JObj [(t "approved", JBool true); (t "reason", JStr (default [] None))]))
  = JObj [(t "approved", JBool true); (t "reason", JStr [])].
Proof. vm_compute. reflexivity. Qed.

Lemma child_paths_differ (d a : text) :
  d ++ [slash] ++ a ++ t ".decision" <> d ++ [slash] ++ a ++ t ".json".
Proof.
  intros H. do 3 apply app_inv_head in H. vm_compute in H. discriminate.
Qed.

Lemma dir_not_child (d a : text) : d <> d ++ [slash] ++ a.
Proof.
  intros H. apply (f_equal length) in H. rewrite !length_app in H. cbn [length] in H. lia.
Qed.

(** C8: in an existing approvals directory, a request file [<id>.json]
    holding valid JSON and without a [<id>.decision] file is pending:
    [listPendingApprovals] lists the parsed request, and the pending entries
    are exactly the request files without a decision file. After
    [decideApproval] with [approved = true] writes [<id>.decision], the
    request is no longer among the pending entries, and
    [listApprovalsWithDecisions] reports it decided with
    [approved: true]. *)
Theorem listPendingApprovals_decide (w : world) (repoRoot runId id raw rr : text) (v : jsval) :
  let dir := approvals_dir rr (js_trim runId) in
  let dp := dir ++ [slash] ++ id ++ t ".decision" in
  let w1 := set_fs w (<[dp := EFile (JSON_stringify
              (JObj [(t "approved", JBool true); (t "reason", JStr (default [] None))]))]> (w_fs w)) in
  is_abs (env_cwd (w_env w)) = true ->
  resolveRepoRootOrThrow (w_env w) repoRoot = Ok rr ->
  plain (js_trim runId) = true ->
  id <> [] -> js_trim id = id -> existsb is_slash id = false ->
  w_fs w !! dir = Some EDir ->
  w_fs w !! (dir ++ [slash] ++ id ++ t ".json") = Some (EFile raw) ->
  JSON_parse raw = Some v ->
  w_fs w !! dp = None ->
  (exists names, fst (fs_readdir dir w) = Ok names /\
     (id ++ t ".json") ∈ pending_entries w dir (sort_texts names) /\
     listPendingApprovals repoRoot runId w =
       (Ok (omap (entry_payload w dir) (pending_entries w dir (sort_texts names)), dir), w) /\
     v ∈ omap (entry_payload w dir) (pending_entries w dir (sort_texts names))) /\
  decideApproval repoRoot runId id true None w = (Ok (true, dp), w1) /\
  (exists names1, fst (fs_readdir dir w1) = Ok names1 /\
     ((id ++ t ".json") ∉ pending_entries w1 dir (sort_texts names1)) /\
     listPendingApprovals repoRoot runId w1 =
       (Ok (omap (entry_payload w1 dir) (pending_entries w1 dir (sort_texts names1)), dir), w1)) /\
  (exists recs, listApprovalsWithDecisions repoRoot runId w1 = (Ok (recs, dir), w1) /\
     exists r, r ∈ recs /\ approval_id r = id /\ decided r = true /\
       get_prop (decision r) (t "approved") = Some (JBool true)).
Proof.
  intros dir dp w1 Hcwd Hres Hrun Hid Htr Hs Hd Hj Hv Hnone. subst dir dp w1.
  destruct (resolve_ok_mk _ _ _ Hcwd Hres) as (segs & Hrr & Hsegs).
  set (ds := segs ++ [t ".noctune_cache"; t "runs"; js_trim runId; t "state"; t "approvals"]).
  assert (Hdir : approvals_dir rr (js_trim runId) = mk_path ds)
    by (rewrite Hrr; by apply approvals_dir_mk).
  assert (Hne : ds <> []) by (subst ds; by destruct segs).
  assert (Hp : Forall (fun s => plain s = true) ds).
  { apply Forall_app. split; [done | ]. repeat constructor; done. }
  assert (Hroot : is_root (mk_path ds) = false) by (by apply mk_path_not_root).
  assert (Hsj : existsb is_slash (id ++ t ".json") = false)
    by (rewrite existsb_app, Hs; reflexivity).
  assert (Hok : child_ok (id ++ t ".json")).
  { split; [by destruct id | done]. }
  rewrite Hdir in Hd, Hj, Hnone |- *.
  set (doc := JSON_stringify (JObj [(t "approved", JBool true); (t "reason", JStr (default [] None))])).
  set (w1 := set_fs w (<[mk_path ds ++ [slash] ++ id ++ t ".decision" := EFile doc]> (w_fs w))).
  (* the world after the decision *)
  assert (Hd1 : w_fs w1 !! mk_path ds = Some EDir).
  { cbn [w1 set_fs w_fs]. rewrite lookup_insert_ne; [done | ].
    apply not_eq_sym, dir_not_child. }
  assert (Hdec1 : is_Some (w_fs w1 !! decision_file (mk_path ds) (id ++ t ".json"))).
  { rewrite decision_file_json. cbn [w1 set_fs w_fs]. rewrite lookup_insert_eq. by eexists. }
  assert (Hj1 : w_fs w1 !! (mk_path ds ++ [slash] ++ id ++ t ".json") = Some (EFile raw)).
  { cbn [w1 set_fs w_fs]. rewrite lookup_insert_ne; [done | ].
    apply child_paths_differ. }
  split; [ | split; [ | split]].
  - eexists. split; [by rewrite readdir_dir | ].
    assert (Hin : id ++ t ".json" ∈ pending_entries w (mk_path ds)
                    (sort_texts (omap (fun '(k, _) => child_name (mk_path ds) k) (map_to_list (w_fs w))))).
    { unfold pending_entries. apply list_elem_of_filter. split.
      - rewrite ends_with_app, decision_file_json.
        rewrite bool_decide_eq_false_2; [exact I | ]. intros [x Hx].
        assert (E : Some x = None) by (etransitivity; [symmetry; exact Hx | exact Hnone]).
        discriminate.
      - apply sort_texts_elem. by apply (readdir_names_in _ _ (EFile raw)). }
    split; [exact Hin | split; [by apply listPending_form with rr | ]].
    apply list_elem_of_omap. exists (id ++ t ".json"). split; [exact Hin | ].
    unfold entry_payload. by rewrite Hj.
  - by apply decideApproval_new with rr.
  - eexists. split; [by rewrite readdir_dir | split; [ | by apply listPending_form with rr]].
    unfold pending_entries. rewrite list_elem_of_filter. intros [HP _].
    revert HP. rewrite (bool_decide_eq_true_2 _ Hdec1). rewrite andb_false_r. intros [].
  - eexists. split; [by apply listDecisions_form with rr | ].
    exists (decision_record w1 (mk_path ds) (id ++ t ".json")).
    split.
    + apply list_elem_of_In, in_map, filter_In. split; [ | apply ends_with_app].
      apply list_elem_of_In, sort_texts_elem. by apply (readdir_names_in _ _ (EFile raw)).
    + unfold decision_record. cbv zeta. rewrite decision_file_json.
      cbn [w1 set_fs w_fs]. rewrite lookup_insert_eq. cbn [approval_id decided decision].
      unfold doc. rewrite approved_doc_parse. split; [ | done].
      rewrite take_app_length'; [done | ].
      rewrite length_app. change (length (t ".json")) with 5%nat. lia.
Qed.

Lemma listPendingApprovals_decide_witness :
  (exists l, fst (listPendingApprovals (t "/repo") (t "r1") (approvals_world (j "{`q`:true}"))) =
               Ok (l, t "/repo/.noctune_cache/runs/r1/state/approvals") /\
             JObj [(t "q", JBool true)] ∈ l) /\
  exists recs,
    fst (listApprovalsWithDecisions (t "/repo") (t "r1")
           (snd (decideApproval (t "/repo") (t "r1") (t "a1") true None
                   (approvals_world (j "{`q`:true}"))))) =
      Ok (recs, t "/repo/.noctune_cache/runs/r1/state/approvals") /\
    exists r, r ∈ recs /\ approval_id r = t "a1" /\ decided r = true /\
      get_prop (decision r) (t "approved") = Some (JBool true).
Proof.
  destruct (listPendingApprovals_decide (approvals_world (j "{`q`:true}"))
              (t "/repo") (t "r1") (t "a1") (j "{`q`:true}") (t "/repo")
              (JObj [(t "q", JBool true)])
              ltac:(vm_compute; reflexivity) ltac:(vm_compute; reflexivity)
              ltac:(vm_compute; reflexivity) ltac:(vm_compute; discriminate)
              ltac:(vm_compute; reflexivity) ltac:(vm_compute; reflexivity)
              ltac:(vm_compute; reflexivity) ltac:(vm_compute; reflexivity)
              ltac:(vm_compute; reflexivity) ltac:(vm_compute; reflexivity))
    as ((names & _ & _ & Hl & Hv) & Hd & _ & (recs & Hr & Hrec)).
  split.
  - eexists. rewrite Hl. split; [reflexivity | exact Hv].
  - rewrite Hd. cbn [snd]. exists recs. rewrite Hr. split; [reflexivity | exact Hrec].
Defined.

(** The request [a1.json] holds a torn write and has no decision file, yet
    [listPendingApprovals] returns nothing: a request whose content does not
    parse is skipped, so it is not listed although it is undecided. *)
Lemma listPendingApprovals_invalid_json_cex :
  w_fs (approvals_world (t "{")) !! t "/repo/.noctune_cache/runs/r1/state/approvals/a1.json"
    = Some (EFile (t "{")) /\
  w_fs (approvals_world (t "{")) !! t "/repo/.noctune_cache/runs/r1/state/approvals/a1.decision"
    = None /\
  fst (listPendingApprovals (t "/repo") (t "r1") (approvals_world (t "{"))) =
    Ok ([], t "/repo/.noctune_cache/runs/r1/state/approvals").
Proof. split; [ | split]; vm_compute; reflexivity. Qed.

(* ------------------------------------------------------------------ *)
(** ** [JSON.parse] reads back what [JSON.stringify] writes *)

Lemma hex_val_digit (n : N) : (n < 16)%N -> hex_val (hex_digit n) = Some n.
Proof.
  intros Hn. unfold hex_digit, hex_val.
  destruct (N.ltb_spec n 10).
  - replace (N.leb 48 (n + 48) && N.leb (n + 48) 57) with true
      by (symmetry; apply andb_true_iff; split; apply N.leb_le; lia).
    f_equal. lia.
  - replace (N.leb 48 (n + 87) && N.leb (n + 87) 57) with false
      by (symmetry; apply andb_false_iff; right; apply N.leb_gt; lia).
    replace (N.leb 97 (n + 87) && N.leb (n + 87) 102) with true
      by (symmetry; apply andb_true_iff; split; apply N.leb_le; lia).
    f_equal. lia.
Qed.

Lemma hex4_u_escape (c : N) :
  (c < 65536)%N ->
  hex4 (hex_digit (c / 4096 mod 16)) (hex_digit (c / 256 mod 16))
       (hex_digit (c / 16 mod 16)) (hex_digit (c mod 16)) = Some c.
Proof.
  intros Hc. unfold hex4.
  rewrite !hex_val_digit by (apply N.mod_lt; lia).
  f_equal.
  pose proof (N.div_mod c 16 ltac:(lia)).
  pose proof (N.div_mod (c / 16) 16 ltac:(lia)).
  pose proof (N.div_mod (c / 16 / 16) 16 ltac:(lia)).
  rewrite !N.Div0.div_div in *.
  assert (c / 4096 < 16)%N by (apply N.Div0.div_lt_upper_bound; lia).
  rewrite (N.mod_small (c / 4096)) by lia.
  change (16 * 16)%N with 256%N in *. change (256 * 16)%N with 4096%N in *.
  lia.
Qed.

Lemma escape_unit_parse (c : N) (r : text) :
  parse_str_body (escape_unit c ++ r) =
  match parse_str_body r with Some (b, rest) => Some (c :: b, rest) | None => None end.
Proof.
  unfold escape_unit.
  destruct (N.eqb_spec c 8); [subst; reflexivity | ].
  destruct (N.eqb_spec c 9); [subst; reflexivity | ].
  destruct (N.eqb_spec c 10); [subst; reflexivity | ].
  destruct (N.eqb_spec c 12); [subst; reflexivity | ].
  destruct (N.eqb_spec c 13); [subst; reflexivity | ].
  destruct (N.eqb_spec c 34); [subst; reflexivity | ].
  destruct (N.eqb_spec c 92); [subst; reflexivity | ].
  destruct (N.ltb c 32 || is_high_surrogate c || is_low_surrogate c) eqn:Hu.
  - assert (Hc : (c < 65536)%N).
    { unfold is_high_surrogate, is_low_surrogate in Hu.
      apply orb_true_iff in Hu as [Hu | Hu]; [apply orb_true_iff in Hu as [Hu | Hu] | ];
        [apply N.ltb_lt in Hu; lia | | ];
        apply andb_true_iff in Hu as [_ Hu]; apply N.leb_le in Hu; lia. }
    unfold u_escape. cbn [app parse_str_body N.eqb]. cbn.
    rewrite hex4_u_escape by done. reflexivity.
  - apply orb_false_iff in Hu as [Hu _]. apply orb_false_iff in Hu as [Hu _].
    cbn [app parse_str_body].
    rewrite (proj2 (N.eqb_neq c 34) n4), (proj2 (N.eqb_neq c 92) n5), Hu. reflexivity.
Qed.

Lemma parse_raw_unit (c : N) (r : text) :
  (32 <= c)%N -> c <> 34%N -> c <> 92%N ->
  parse_str_body (c :: r) =
  match parse_str_body r with Some (b, rest) => Some (c :: b, rest) | None => None end.
Proof.
  intros H1 H2 H3. cbn [parse_str_body].
  rewrite (proj2 (N.eqb_neq c 34) H2), (proj2 (N.eqb_neq c 92) H3).
  replace (N.ltb c 32) with false by (symmetry; apply N.ltb_ge; lia). reflexivity.
Qed.

Lemma quote_units_cons2 (c d : N) (r : text) :
  quote_units (c :: d :: r) =
  if is_high_surrogate c && is_low_surrogate d then c :: d :: quote_units r
  else escape_unit c ++ quote_units (d :: r).
Proof. reflexivity. Qed.

Lemma quote_units_parse (s rest : text) :
  parse_str_body (quote_units s ++ 34%N :: rest) = Some (s, rest).
Proof.
  remember (length s) as n eqn:Hn. revert s Hn.
  induction n as [n IH] using lt_wf_ind. intros s Hn.
  destruct s as [ | c r]; [reflexivity | ].
  destruct r as [ | d r'].
  - cbn [quote_units]. rewrite escape_unit_parse. reflexivity.
  - rewrite quote_units_cons2. destruct (is_high_surrogate c && is_low_surrogate d) eqn:Hs.
    + apply andb_true_iff in Hs as [Hc Hd].
      unfold is_high_surrogate, is_low_surrogate in Hc, Hd.
      apply andb_true_iff in Hc as [Hc _], Hd as [Hd _]. apply N.leb_le in Hc, Hd.
      cbn [app]. rewrite parse_raw_unit by lia. rewrite parse_raw_unit by lia.
      rewrite (IH (length r')) by (subst; simpl; lia). reflexivity.
    + rewrite <- app_assoc, escape_unit_parse.
      rewrite (IH (length (d :: r'))) by (subst; simpl; lia). reflexivity.
Qed.

Lemma digits_value_snoc (ds : list N) (d : N) :
  digits_value (ds ++ [d]) = (digits_value ds * 10 + Z.of_N (d - 48))%Z.
Proof. unfold digits_value. by rewrite fold_left_app. Qed.

Lemma pos_digits_spec (f : nat) (n : Z) (acc : text) :
  (0 <= n < 10 ^ Z.of_nat (S f))%Z ->
  exists ds, pos_digits (S f) n acc = ds ++ acc /\ ds <> [] /\
    forallb is_digit ds = true /\ digits_value ds = n /\
    (n = 0%Z -> ds = [48%N]) /\ (0 < n -> head ds <> Some 48%N)%Z.
Proof.
  revert n acc. induction f as [ | f IH]; intros n acc Hn.
  - cbn [pos_digits]. replace (n <? 10)%Z with true by (symmetry; apply Z.ltb_lt; lia).
    exists [(Z.to_N n + 48)%N]. split; [done | ]. split; [done | ].
    split; [unfold is_digit; cbn; rewrite andb_true_r; apply andb_true_iff; split; apply N.leb_le; lia | ].
    split; [cbn; lia | ]. split; [intros ->; reflexivity | ].
    intros Hp [= Heq]. lia.
  - cbn [pos_digits]. destruct (Z.ltb_spec n 10).
    + exists [(Z.to_N n + 48)%N]. split; [done | ]. split; [done | ].
      split; [unfold is_digit; cbn; rewrite andb_true_r; apply andb_true_iff; split; apply N.leb_le; lia | ].
      split; [cbn; lia | ]. split; [intros ->; reflexivity | ].
      intros Hp [= Heq]. lia.
    + assert (Hq : (0 <= n / 10 < 10 ^ Z.of_nat (S f))%Z).
      { split; [apply Z.div_pos; lia | ]. apply Z.div_lt_upper_bound; [lia | ].
        rewrite Nat2Z.inj_succ, Z.pow_succ_r in Hn by lia. lia. }
      destruct (IH (n / 10)%Z ((Z.to_N (n mod 10) + 48)%N :: acc) Hq)
        as (ds & Hds & Hne & Hdig & Hval & _ & Hhd).
      change (pos_digits (S f) (n / 10) ((Z.to_N (n mod 10) + 48)%N :: acc) = ds ++ (Z.to_N (n mod 10) + 48)%N :: acc) in Hds.
      cbn [pos_digits] in Hds |- *. rewrite Hds.
      exists (ds ++ [(Z.to_N (n mod 10) + 48)%N]). rewrite <- app_assoc. split; [done | ].
      split; [by destruct ds | ].
      pose proof (Z.mod_pos_bound n 10 ltac:(lia)).
      split.
      { rewrite forallb_app, Hdig. unfold is_digit. cbn. rewrite andb_true_r.
        apply andb_true_iff; split; apply N.leb_le; lia. }
      split.
      { rewrite digits_value_snoc, Hval.
        replace (Z.of_N (Z.to_N (n mod 10) + 48 - 48)) with (n mod 10)%Z by lia.
        pose proof (Z.div_mod n 10 ltac:(lia)). lia. }
      split; [lia | ].
      intros _. destruct ds as [ | x ds']; [done | ]. cbn [app head].
      apply Hhd. apply Z.div_str_pos. lia.
Qed.

Lemma dec_digits_spec (n : Z) :
  (0 <= n)%Z ->
  dec_digits n <> [] /\ forallb is_digit (dec_digits n) = true /\
  digits_value (dec_digits n) = n /\
  (n = 0%Z -> dec_digits n = [48%N]) /\ (0 < n -> head (dec_digits n) <> Some 48%N)%Z.
Proof.
  intros Hn. unfold dec_digits.
  assert (Hb : (0 <= n < 10 ^ Z.of_nat (S (Z.to_nat (Z.log2 n))))%Z).
  { split; [done | ]. rewrite Nat2Z.inj_succ, Z2Nat.id by apply Z.log2_nonneg.
    destruct (Z.eq_dec n 0%Z) as [-> | Hn0]; [reflexivity | ].
    destruct (Z.log2_spec n ltac:(lia)) as [_ H2].
    eapply Z.lt_le_trans; [exact H2 | ].
    apply Z.pow_le_mono_l. pose proof (Z.log2_nonneg n). lia. }
  destruct (pos_digits_spec _ n [] Hb) as (ds & -> & Hne & Hd & Hv & H0 & Hh).
  rewrite app_nil_r. done.
Qed.

Lemma take_digits_app (ds rest : text) :
  forallb is_digit ds = true ->
  (match rest with c :: _ => is_digit c = false | [] => True end) ->
  take_digits (ds ++ rest) = (ds, rest).
Proof.
  intros Hd Hr. induction ds as [ | c ds IH].
  - destruct rest as [ | c r]; [reflexivity | ]. cbn. by rewrite Hr.
  - apply andb_true_iff in Hd as [Hc Hd]. cbn [app take_digits]. rewrite Hc, IH by done.
    reflexivity.
Qed.

Lemma match_dot {A} (c : N) (r : text) (f : text -> A) (b : A) :
  c <> 46%N -> match c :: r with 46%N :: r' => f r' | _ => b end = b.
Proof.
  intros H. destruct c as [ | p]; [reflexivity | ].
  repeat (destruct p as [p | p | ]; try reflexivity). exfalso. by apply H.
Qed.

Lemma parse_number_body (neg : bool) (ds tail rest : text) (ex : Z) :
  ds <> [] -> forallb is_digit ds = true -> (forall x y, ds <> 48%N :: x :: y) ->
  (match tail with c :: _ => is_digit c = false /\ c <> 46%N | [] => True end) ->
  parse_exponent tail = Some (ex, rest) ->
  parse_number ((if neg then [45%N] else []) ++ ds ++ tail) =
  Some (classify neg (digits_value ds) ex, rest).
Proof.
  intros Hne Hd H48 Ht He.
  assert (Htd : take_digits (ds ++ tail) = (ds, tail)).
  { apply take_digits_app; [done | ]. destruct tail as [ | c r]; [done | ]. apply Ht. }
  assert (Hfr : match tail with
                | 46%N :: r => match take_digits r with ([], _) => None | (fp, s3) => Some (fp, s3) end
                | _ => Some ([], tail)
                end = Some ([], tail)).
  { destruct tail as [ | c r]; [done | ]. destruct Ht as [_ Ht].
    exact (match_dot c r (fun r' => match take_digits r' with
                                    | ([], _) => None
                                    | (fp, s3) => Some (fp, s3)
                                    end) (Some ([], c :: r)) Ht). }
  unfold parse_number.
  assert (Hd45 : forall d ds', ds = d :: ds' -> N.eqb d 45 = false).
  { intros d ds' ->. apply andb_true_iff in Hd as [Hd _].
    apply N.eqb_neq. intros ->. discriminate. }
  destruct neg; cbn [app].
  - rewrite N.eqb_refl. cbv iota beta. rewrite Htd.
    destruct ds as [ | d ds']; [done | ].
    rewrite Hfr, He, !app_nil_r. cbn [length]. rewrite Z.sub_0_r.
    destruct ds' as [ | a b]; destruct d as [ | p]; try reflexivity;
      repeat (destruct p as [p | p | ]; try reflexivity).
    exfalso. by apply (H48 a b).
  - destruct ds as [ | d ds']; [done | ]. cbn [app].
    rewrite (Hd45 d ds' eq_refl). cbv iota beta. rewrite app_comm_cons, Htd.
    rewrite Hfr, He, !app_nil_r. cbn [length]. rewrite Z.sub_0_r.
    destruct ds' as [ | a b]; destruct d as [ | p]; try reflexivity;
      repeat (destruct p as [p | p | ]; try reflexivity).
    exfalso. by apply (H48 a b).
Qed.

Lemma dec_digits_canonical (n : Z) :
  (0 <= n)%Z -> forall x y, dec_digits n <> 48%N :: x :: y.
Proof.
  intros Hn x y Heq. destruct (dec_digits_spec n Hn) as (_ & _ & _ & H0 & Hh).
  destruct (Z.eq_dec n 0%Z) as [Hz | Hz].
  - rewrite (H0 Hz) in Heq. discriminate.
  - apply Hh; [lia | ]. by rewrite Heq.
Qed.

Lemma parse_exponent_text (e : Z) (rest : text) :
  num_end rest ->
  parse_exponent ((if (e =? 0)%Z then [] else 101%N :: int_text e) ++ rest) = Some (e, rest).
Proof.
  intros Hr. destruct (Z.eqb_spec e 0) as [-> | He].
  - destruct rest as [ | c r]; [reflexivity | ]. destruct Hr as (_ & _ & H1 & H2).
    cbn [app parse_exponent].
    rewrite (proj2 (N.eqb_neq c 101) H1), (proj2 (N.eqb_neq c 69) H2). reflexivity.
  - assert (Hrd : match rest with c :: _ => is_digit c = false | [] => True end)
      by (destruct rest; [done | apply Hr]).
    cbn [app parse_exponent]. rewrite N.eqb_refl. cbn [orb].
    unfold int_text. destruct (Z.ltb_spec e 0).
    + cbn [app]. cbv iota. rewrite N.eqb_refl. cbv iota beta.
      destruct (dec_digits_spec (- e) ltac:(lia)) as (Hne & Hd & Hv & _).
      rewrite take_digits_app by done.
      destruct (dec_digits (- e)) as [ | d ds]; [done | ].
      rewrite Hv. f_equal. f_equal. lia.
    + destruct (dec_digits_spec e ltac:(lia)) as (Hne & Hd & Hv & _).
      destruct (dec_digits e) as [ | d ds] eqn:E; [done | ].
      assert (Hdd : is_digit d = true) by (apply andb_true_iff in Hd; apply Hd).
      assert (H45 : N.eqb d 45 = false) by (apply N.eqb_neq; intros ->; discriminate).
      assert (H43 : N.eqb d 43 = false) by (apply N.eqb_neq; intros ->; discriminate).
      cbn [app]. cbv iota. rewrite H45, H43. cbv iota beta.
      rewrite app_comm_cons, take_digits_app by done.
      rewrite Hv. reflexivity.
Qed.

Lemma num_text_parse (m e : Z) (rest : text) :
  num_end rest ->
  parse_number (num_text (NFin m e) ++ rest) = Some (classify (m <? 0)%Z (Z.abs m) e, rest).
Proof.
  intros Hr. unfold num_text.
  assert (Hit : int_text m = (if (m <? 0)%Z then [45%N] else []) ++ dec_digits (Z.abs m)).
  { unfold int_text. destruct (Z.ltb_spec m 0); cbn [app]; do 2 f_equal; lia. }
  rewrite Hit, <- !app_assoc.
  destruct (dec_digits_spec (Z.abs m) ltac:(lia)) as (Hne & Hd & Hv & _).
  rewrite <- Hv at 2. apply parse_number_body; try done.
  - apply dec_digits_canonical. lia.
  - destruct (Z.eqb_spec e 0); [ | done]. cbn [app].
    destruct rest as [ | c r]; [done | ]. split; apply Hr.
  - apply parse_exponent_text, Hr.
Qed.

Lemma jsval_ind_nested (P : jsval -> Prop) :
  P JNull -> (forall b, P (JBool b)) -> (forall n, P (JNum n)) -> (forall s, P (JStr s)) ->
  (forall l, Forall P l -> P (JArr l)) ->
  (forall kvs, Forall (fun kv => P kv.2) kvs -> P (JObj kvs)) ->
  forall v, P v.
Proof.
  intros HN HB HNum HS HA HO.
  exact (fix go (v : jsval) : P v :=
    match v with
    | JNull => HN
    | JBool b => HB b
    | JNum n => HNum n
    | JStr s => HS s
    | JArr l => HA l ((fix gol (l : list jsval) : Forall P l :=
                        match l with
                        | [] => List.Forall_nil P
                        | x :: r => List.Forall_cons P x r (go x) (gol r)
                        end) l)
    | JObj kvs => HO kvs ((fix gok (kvs : list (text * jsval)) : Forall (fun kv => P kv.2) kvs :=
                            match kvs with
                            | [] => List.Forall_nil _
                            | (k, x) :: r => List.Forall_cons (fun kv => P kv.2) (k, x) r (go x) (gok r)
                            end) kvs)
    end).
Qed.

Lemma skip_ws_app (pre : text) (c : N) (r : text) :
  forallb is_json_ws pre = true -> is_json_ws c = false ->
  skip_ws (pre ++ c :: r) = c :: r.
Proof.
  intros Hp Hc. unfold skip_ws. rewrite drop_while_app_all by done. cbn. by rewrite Hc.
Qed.

Lemma parse_true (f : nat) (pre rest : text) :
  forallb is_json_ws pre = true ->
  parse_value (S f) (pre ++ t "true" ++ rest) = Some (JBool true, rest).
Proof.
  intros Hp. change (t "true" ++ rest) with (116%N :: [114; 117; 101]%N ++ rest). cbn [parse_value].
  rewrite skip_ws_app by done. reflexivity. Qed.

Lemma parse_false (f : nat) (pre rest : text) :
  forallb is_json_ws pre = true ->
  parse_value (S f) (pre ++ t "false" ++ rest) = Some (JBool false, rest).
Proof.
  intros Hp. change (t "false" ++ rest) with (102%N :: [97; 108; 115; 101]%N ++ rest). cbn [parse_value].
  rewrite skip_ws_app by done. reflexivity. Qed.

Lemma parse_null (f : nat) (pre rest : text) :
  forallb is_json_ws pre = true ->
  parse_value (S f) (pre ++ t "null" ++ rest) = Some (JNull, rest).
Proof.
  intros Hp. change (t "null" ++ rest) with (110%N :: [117; 108; 108]%N ++ rest). cbn [parse_value].
  rewrite skip_ws_app by done. reflexivity. Qed.

Lemma parse_string (f : nat) (pre s rest : text) :
  forallb is_json_ws pre = true ->
  parse_value (S f) (pre ++ quote s ++ rest) = Some (JStr s, rest).
Proof.
  intros Hp. unfold quote. cbn [app]. cbn [parse_value]. rewrite skip_ws_app by done.
  cbv iota beta. rewrite N.eqb_refl. rewrite <- app_assoc. cbn [app].
  rewrite quote_units_parse. reflexivity.
Qed.

Lemma parse_value_numeric (f : nat) (pre : text) (c : N) (r : text) :
  forallb is_json_ws pre = true -> (c = 45%N \/ is_digit c = true) ->
  parse_value (S f) (pre ++ c :: r) =
  match parse_number (c :: r) with Some (n, rest) => Some (JNum n, rest) | None => None end.
Proof.
  intros Hp Hc.
  assert (Hc' : c = 45%N \/ c = 48%N \/ c = 49%N \/ c = 50%N \/ c = 51%N \/ c = 52%N \/
                c = 53%N \/ c = 54%N \/ c = 55%N \/ c = 56%N \/ c = 57%N).
  { destruct Hc as [Hc | Hc]; [by left | right].
    unfold is_digit in Hc. apply andb_true_iff in Hc as [H1 H2].
    apply N.leb_le in H1, H2. lia. }
  assert (Hw : is_json_ws c = false) by (repeat destruct Hc' as [-> | Hc']; subst; reflexivity).
  cbn [parse_value]. rewrite skip_ws_app by done. cbv iota beta.
  repeat destruct Hc' as [-> | Hc']; subst; reflexivity.
Qed.

Lemma parse_num_value (f : nat) (pre : text) (n : jsnum) (rest : text) :
  forallb is_json_ws pre = true -> num_end rest ->
  parse_value (S f) (pre ++ num_text n ++ rest) = Some (json_rt (JNum n), rest).
Proof.
  intros Hp Hr. destruct n as [m e | neg].
  - assert (Hh : exists c r, num_text (NFin m e) ++ rest = c :: r /\ (c = 45%N \/ is_digit c = true)).
    { unfold num_text, int_text. destruct (Z.ltb_spec m 0).
      - eexists _, _. split; [reflexivity | by left].
      - destruct (dec_digits_spec m ltac:(lia)) as (Hne & Hd & _).
        destruct (dec_digits m) as [ | d ds]; [done | ].
        apply andb_true_iff in Hd as [Hd _]. eexists _, _. split; [reflexivity | by right]. }
    destruct Hh as (c & r & Hcr & Hc).
    rewrite Hcr, parse_value_numeric by done. rewrite <- Hcr, num_text_parse by done.
    reflexivity.
  - apply parse_null, Hp.
Qed.

Lemma jsize_arr (l : list jsval) : jsize (JArr l) = S (elems_size l).
Proof. reflexivity. Qed.

Lemma jsize_obj (kvs : list (text * jsval)) : jsize (JObj kvs) = S (members_size kvs).
Proof. reflexivity. Qed.

Lemma skip_ws_cons (c : N) (r : text) :
  is_json_ws c = false -> skip_ws (c :: r) = c :: r.
Proof. intros Hc. unfold skip_ws. cbn. by rewrite Hc. Qed.

Lemma obj_set_new (k : text) (v : jsval) (acc : list (text * jsval)) :
  k ∉ map fst acc -> obj_set k v acc = acc ++ [(k, v)].
Proof.
  intros Hk. unfold obj_set.
  assert (Hh : obj_has k acc = false).
  { induction acc as [ | [k' v'] acc IH]; [done | ]. cbn [obj_has existsb].
    cbn [map] in Hk. rewrite not_elem_of_cons in Hk. destruct Hk as [Hk1 Hk2].
    cbn [fst] in Hk1. apply orb_false_iff. split; [by apply teq_false | by apply IH]. }
  by rewrite Hh.
Qed.

Lemma join_with_head (sep a : text) (l : list text) (tail : text) :
  exists z, join_with sep (a :: l) ++ tail = a ++ z.
Proof.
  destruct l as [ | b l].
  - by exists tail.
  - exists (sep ++ join_with sep (b :: l) ++ tail). cbn [join_with]. by rewrite <- !app_assoc.
Qed.

Lemma join_with_map_head {A} (F : A -> text) (sep : text) (a : A) (l : list A) (tail : text) :
  exists z, join_with sep (map F (a :: l)) ++ tail = F a ++ z.
Proof. apply join_with_head. Qed.

Lemma join_with_map_head' {A} (F : A -> list N) (sep : text) (a : A) (l : list A) (tail : text) :
  exists z, join_with sep (map F (a :: l)) ++ tail = F a ++ z.
Proof. apply join_with_head. Qed.

Lemma stringify_head (gap indent : text) (v : jsval) :
  exists c r, stringify gap indent v = c :: r /\ is_json_ws c = false /\ c <> 93%N /\ c <> 125%N.
Proof.
  destruct v as [ | [] | [m e | neg] | s | [ | x l] | [ | kv kvs]];
    try (eexists _, _; split; [reflexivity | split; [reflexivity | split; discriminate]]).
  - cbn [stringify num_text]. unfold int_text. destruct (Z.ltb_spec m 0).
    + eexists _, _. split; [reflexivity | split; [reflexivity | split; discriminate]].
    + destruct (dec_digits_spec m ltac:(lia)) as (Hne & Hd & _).
      destruct (dec_digits m) as [ | d ds]; [done | ].
      apply andb_true_iff in Hd as [Hd _]. unfold is_digit in Hd.
      apply andb_true_iff in Hd as [H1 H2]. apply N.leb_le in H1, H2.
      eexists _, _. split; [reflexivity | ].
      split; [ | split; lia].
      unfold is_json_ws. repeat rewrite (proj2 (N.eqb_neq _ _)) by lia. reflexivity.
  - cbn [stringify]. destruct gap; eexists _, _;
      (split; [reflexivity | split; [reflexivity | split; discriminate]]).
  - cbn [stringify]. destruct gap; eexists _, _;
      (split; [reflexivity | split; [reflexivity | split; discriminate]]).
Qed.

Lemma num_end_cons (c : N) (r : text) :
  is_digit c = false -> c <> 46%N -> c <> 101%N -> c <> 69%N -> num_end (c :: r).
Proof. intros. by repeat split. Qed.

Lemma parse_elems_items (I I' : text) (l : list jsval) :
  Forall (fun x => forall fuel pre rest, jsize x <= fuel -> forallb is_json_ws pre = true ->
            num_end rest ->
            parse_value fuel (pre ++ stringify (t "  ") I' x ++ rest) = Some (json_rt x, rest)) l ->
  l <> [] -> forallb is_json_ws I = true -> forallb is_json_ws I' = true ->
  forall fuel acc pre rest, elems_size l <= fuel -> forallb is_json_ws pre = true ->
  parse_elems fuel acc (pre ++ join_with ([44%N; 10%N] ++ I') (map (stringify (t "  ") I') l) ++
                        [10%N] ++ I ++ [93%N] ++ rest) =
  Some (JArr (rev acc ++ map json_rt l), rest).
Proof.
  intros HF Hne HI HI'. induction HF as [ | x l Hx HF IH]; [done | ].
  intros fuel acc pre rest Hf Hp. destruct fuel as [ | f]; [cbn in Hf; lia | ].
  cbn [parse_elems]. cbn [elems_size] in Hf. destruct l as [ | y l].
  - cbn [map join_with].
    rewrite (Hx f pre ([10%N] ++ I ++ [93%N] ++ rest)) by
      (try lia; try done; apply num_end_cons; (reflexivity || discriminate)).
    cbv iota beta. change ([10%N] ++ I ++ [93%N] ++ rest) with ((10%N :: I) ++ 93%N :: rest).
    rewrite skip_ws_app by done. reflexivity.
  - cbn [elems_size] in IH, Hf.
    change (join_with ([44%N; 10%N] ++ I') (map (stringify (t "  ") I') (x :: y :: l)))
      with (stringify (t "  ") I' x ++ ([44%N; 10%N] ++ I') ++
            join_with ([44%N; 10%N] ++ I') (map (stringify (t "  ") I') (y :: l))).
    rewrite <- !app_assoc.
    rewrite (Hx f pre) by
      (try lia; try done; apply num_end_cons; (reflexivity || discriminate)).
    cbv iota beta. change ([44%N; 10%N] ++ I' ++ ?z) with (44%N :: (10%N :: I') ++ z).
    rewrite skip_ws_cons by reflexivity. cbv iota beta.
    change (N.eqb 44 44) with true. cbv iota beta.
    rewrite IH by (try done; lia). cbn [rev]. by rewrite <- app_assoc.
Qed.

Lemma parse_members_items (I I' : text) (kvs : list (text * jsval)) :
  Forall (fun kv => forall fuel pre rest, jsize kv.2 <= fuel -> forallb is_json_ws pre = true ->
            num_end rest ->
            parse_value fuel (pre ++ stringify (t "  ") I' kv.2 ++ rest) = Some (json_rt kv.2, rest)) kvs ->
  kvs <> [] -> forallb is_json_ws I = true -> forallb is_json_ws I' = true ->
  forall fuel acc pre rest, members_size kvs <= fuel -> forallb is_json_ws pre = true ->
  NoDup (map fst acc ++ map fst kvs) ->
  parse_members fuel acc
    (pre ++ join_with ([44%N; 10%N] ++ I')
              (map (fun '(k, x) => quote k ++ [58%N] ++ [32%N] ++ stringify (t "  ") I' x) kvs) ++
     [10%N] ++ I ++ [125%N] ++ rest) =
  Some (JObj (acc ++ map (fun '(k, x) => (k, json_rt x)) kvs), rest).
Proof.
  intros HF Hne HI HI'. induction HF as [ | [k x] kvs Hx HF IH]; [done | ].
  cbn [snd] in Hx.
  intros fuel acc pre rest Hf Hp Hnd. destruct fuel as [ | f]; [cbn in Hf; lia | ].
  cbn [members_size] in Hf.
  assert (Hk : k ∉ map fst acc).
  { cbn [map fst] in Hnd. intros Hin. apply NoDup_app in Hnd as (_ & Hd & _).
    apply (Hd k Hin). by left. }
  cbn [parse_members]. destruct kvs as [ | kv2 kvs].
  - cbn [map join_with]. unfold quote.
    change (((34%N :: quote_units k ++ [34%N]) ++ [58%N] ++ [32%N] ++ stringify (t "  ") I' x) ++
            [10%N] ++ I ++ [125%N] ++ rest)
      with (34%N :: ((quote_units k ++ [34%N]) ++ [58%N] ++ [32%N] ++ stringify (t "  ") I' x) ++
            [10%N] ++ I ++ [125%N] ++ rest).
    rewrite skip_ws_app by done. cbv iota beta. change (N.eqb 34 34) with true. cbv iota beta.
    rewrite <- !app_assoc. cbn [app]. rewrite quote_units_parse. cbv iota beta.
    rewrite skip_ws_cons by reflexivity. change (N.eqb 58 58) with true. cbv iota beta.
    change (32%N :: stringify (t "  ") I' x ++ 10%N :: I ++ 125%N :: rest)
      with ([32%N] ++ stringify (t "  ") I' x ++ [10%N] ++ I ++ [125%N] ++ rest).
    rewrite (Hx f [32%N]) by
      (try lia; try done; apply num_end_cons; (reflexivity || discriminate)).
    cbv iota beta. change ([10%N] ++ I ++ [125%N] ++ rest) with ((10%N :: I) ++ 125%N :: rest).
    rewrite skip_ws_app by done. rewrite obj_set_new by done. reflexivity.
  - change (join_with ([44%N; 10%N] ++ I')
              (map (fun '(k, x) => quote k ++ [58%N] ++ [32%N] ++ stringify (t "  ") I' x)
                   ((k, x) :: kv2 :: kvs)))
      with ((quote k ++ [58%N] ++ [32%N] ++ stringify (t "  ") I' x) ++ ([44%N; 10%N] ++ I') ++
            join_with ([44%N; 10%N] ++ I')
              (map (fun '(k, x) => quote k ++ [58%N] ++ [32%N] ++ stringify (t "  ") I' x)
                   (kv2 :: kvs))).
    unfold quote at 1. rewrite <- !app_assoc. rewrite <- app_comm_cons.
    rewrite skip_ws_app by done. cbv iota beta. change (N.eqb 34 34) with true. cbv iota beta.
    rewrite <- !app_assoc. change ([34%N] ++ ?z) with (34%N :: z).
    rewrite quote_units_parse. cbv iota beta. change ([58%N] ++ ?z) with (58%N :: z).
    rewrite skip_ws_cons by reflexivity. change (N.eqb 58 58) with true. cbv iota beta.
    rewrite (Hx f [32%N]) by
      (try lia; try done; apply num_end_cons; (reflexivity || discriminate)).
    cbv iota beta. change ([44%N; 10%N] ++ I' ++ ?z) with (44%N :: (10%N :: I') ++ z).
    rewrite skip_ws_cons by reflexivity. change (N.eqb 44 44) with true. cbv iota beta.
    rewrite obj_set_new by done.
    rewrite IH; [ | done | lia | done | ].
    + by rewrite <- app_assoc.
    + rewrite map_app, <- app_assoc. exact Hnd.
Qed.

Lemma stringify_parse (v : jsval) :
  forall indent fuel pre rest,
  json_wf v = true -> jsize v <= fuel -> forallb is_json_ws indent = true ->
  forallb is_json_ws pre = true -> num_end rest ->
  parse_value fuel (pre ++ stringify (t "  ") indent v ++ rest) = Some (json_rt v, rest).
Proof.
  induction v as [ | b | n | s | l IHl | kvs IHk] using jsval_ind_nested;
    intros indent fuel pre rest Hwf Hf HI Hp Hr;
    (destruct fuel as [ | f]; [destruct l || destruct kvs || idtac; cbn in Hf; lia | ]).
  - by apply parse_null.
  - destruct b; [by apply parse_true | by apply parse_false].
  - by apply parse_num_value.
  - by apply parse_string.
  - destruct l as [ | x l'].
    + change (stringify (t "  ") indent (JArr []) ++ rest) with (91%N :: 93%N :: rest).
      cbn [parse_value].
      rewrite skip_ws_app by done. reflexivity.
    + set (I' := indent ++ t "  ").
      assert (E : stringify (t "  ") indent (JArr (x :: l')) =
                  [91%N; 10%N] ++ I' ++ join_with ([44%N; 10%N] ++ I')
                    (map (stringify (t "  ") I') (x :: l')) ++ [10%N] ++ indent ++ [93%N])
        by reflexivity.
      assert (HI' : forallb is_json_ws I' = true) by (subst I'; rewrite forallb_app, HI; done).
      rewrite E, <- !app_assoc.
      change ([91%N; 10%N] ++ I' ++ ?z) with (91%N :: (10%N :: I') ++ z).
      cbn [parse_value]. rewrite skip_ws_app by done. cbv iota beta.
      change (N.eqb 91 34) with false. change (N.eqb 91 123) with false.
      change (N.eqb 91 91) with true. cbv iota beta.
      destruct (stringify_head (t "  ") I' x) as (c & r & Hc & Hcw & Hc93 & _).
      assert (Hsk : exists r0, skip_ws ((10%N :: I') ++
                      join_with ([44%N; 10%N] ++ I') (map (stringify (t "  ") I') (x :: l')) ++
                      [10%N] ++ indent ++ [93%N] ++ rest) = c :: r0).
      { match goal with
        | |- context [join_with ?sep (map ?F (?a :: ?l)) ++ ?tl] =>
            destruct (join_with_map_head F sep a l tl) as [z Hz]; rewrite Hz
        end.
        rewrite Hc. eexists. apply skip_ws_app; [ | done].
        apply andb_true_iff; split; [reflexivity | exact HI']. }
      destruct Hsk as [r0 Hsk].
      rewrite Hsk. cbv iota beta. rewrite (proj2 (N.eqb_neq c 93) Hc93). cbv iota beta.
      rewrite jsize_arr in Hf.
      cbn [json_wf] in Hwf. rewrite forallb_forall in Hwf.
      apply (parse_elems_items indent I' (x :: l')); try done; try lia.
      rewrite Forall_forall in IHl |- *. intros y Hy fuel' pre' rest' Hf' Hp' Hr'.
      apply IHl; try done. apply Hwf. by apply list_elem_of_In.
  - destruct kvs as [ | [k x] kvs'].
    + change (stringify (t "  ") indent (JObj []) ++ rest) with (123%N :: 125%N :: rest).
      cbn [parse_value].
      rewrite skip_ws_app by done. reflexivity.
    + set (I' := indent ++ t "  ").
      assert (E : stringify (t "  ") indent (JObj ((k, x) :: kvs')) =
                  [123%N; 10%N] ++ I' ++ join_with ([44%N; 10%N] ++ I')
                    (map (fun '(k, x) => quote k ++ [58%N] ++ [32%N] ++ stringify (t "  ") I' x)
                       ((k, x) :: kvs')) ++ [10%N] ++ indent ++ [125%N])
        by reflexivity.
      assert (HI' : forallb is_json_ws I' = true) by (subst I'; rewrite forallb_app, HI; done).
      rewrite E, <- !app_assoc.
      change ([123%N; 10%N] ++ I' ++ ?z) with (123%N :: (10%N :: I') ++ z).
      cbn [parse_value]. rewrite skip_ws_app by done. cbv iota beta.
      change (N.eqb 123 34) with false. change (N.eqb 123 123) with true. cbv iota beta.
      assert (Hsk : exists r0, skip_ws ((10%N :: I') ++
                      join_with ([44%N; 10%N] ++ I')
                        (map (fun '(k, x) => quote k ++ [58%N] ++ [32%N] ++ stringify (t "  ") I' x)
                           ((k, x) :: kvs')) ++
                      [10%N] ++ indent ++ [125%N] ++ rest) = 34%N :: r0).
      { match goal with
        | |- context [join_with ?sep (map ?F (?a :: ?l)) ++ ?tl] =>
            destruct (join_with_map_head' F sep a l tl) as [z Hz]; rewrite Hz
        end.
        eexists. cbn [fst snd]. rewrite <- !app_assoc.
        change (quote k ++ ?y) with (34%N :: (quote_units k ++ [34%N]) ++ y).
        apply skip_ws_app; [ | done]. apply andb_true_iff; split; [reflexivity | exact HI']. }
      destruct Hsk as [r0 Hsk].
      rewrite Hsk. cbv iota beta. change (N.eqb 34 125) with false. cbv iota beta.
      rewrite jsize_obj in Hf.
      cbn [json_wf] in Hwf. apply andb_true_iff in Hwf as [Hnd Hwf].
      apply bool_decide_eq_true in Hnd. rewrite forallb_forall in Hwf.
      apply (parse_members_items indent I' ((k, x) :: kvs')); try done; try lia.
      rewrite Forall_forall in IHk |- *. intros [k' y] Hy fuel' pre' rest' Hf' Hp' Hr'.
      apply (IHk (k', y) Hy); try done. apply (Hwf (k', y)). by apply list_elem_of_In.
Qed.

Lemma join_with_length (sep : text) (l : list text) :
  1 <= length sep -> list_sum (map (fun s => S (length s)) l) <= S (length (join_with sep l)).
Proof.
  intros Hs. induction l as [ | a l IH]; [cbn; lia | ].
  destruct l as [ | b l].
  - cbn [map list_sum fold_right join_with]. lia.
  - change (join_with sep (a :: b :: l)) with (a ++ sep ++ join_with sep (b :: l)).
    change (list_sum (map (fun s => S (length s)) (a :: b :: l)))
      with (S (length a) + list_sum (map (fun s => S (length s)) (b :: l))).
    rewrite !length_app. lia.
Qed.

Lemma quote_length (s : text) : 2 <= length (quote s).
Proof. unfold quote. cbn [length]. rewrite length_app. cbn [length]. lia. Qed.

Lemma jsize_le_length (v : jsval) :
  forall indent, jsize v <= length (stringify (t "  ") indent v).
Proof.
  induction v as [ | b | n | s | l IHl | kvs IHk] using jsval_ind_nested; intros indent.
  - cbn. lia.
  - destruct b; cbn; lia.
  - destruct n as [m e | neg]; [ | cbn; lia].
    cbn [jsize stringify num_text]. rewrite length_app. unfold int_text.
    destruct (Z.ltb_spec m 0); [cbn [length]; lia | ].
    destruct (dec_digits_spec m ltac:(lia)) as (Hne & _).
    destruct (dec_digits m); [done | cbn [length]; lia].
  - cbn [stringify]. pose proof (quote_length s). cbn [jsize]. lia.
  - destruct l as [ | x l']; [cbn; lia | ].
    set (I' := indent ++ t "  ").
    assert (E : stringify (t "  ") indent (JArr (x :: l')) =
                [91%N; 10%N] ++ I' ++ join_with ([44%N; 10%N] ++ I')
                  (map (stringify (t "  ") I') (x :: l')) ++ [10%N] ++ indent ++ [93%N])
      by reflexivity.
    assert (Hs : elems_size (x :: l') <=
                 list_sum (map (fun s => S (length s)) (map (stringify (t "  ") I') (x :: l')))).
    { clear E. induction IHl as [ | y l Hy _ IH]; [cbn; lia | ].
      cbn [elems_size map list_sum fold_right]. specialize (Hy I').
      change (fold_right Nat.add 0 (map (fun s => S (length s)) (map (stringify (t "  ") I') l)))
        with (list_sum (map (fun s => S (length s)) (map (stringify (t "  ") I') l))).
      lia. }
    pose proof (join_with_length ([44%N; 10%N] ++ I')
                  (map (stringify (t "  ") I') (x :: l')) ltac:(cbn; lia)).
    rewrite E, jsize_arr, !length_app. cbn [length]. lia.
  - destruct kvs as [ | [k x] kvs']; [cbn; lia | ].
    set (I' := indent ++ t "  ").
    set (F := fun '(k, x) => quote k ++ [58%N] ++ [32%N] ++ stringify (t "  ") I' x).
    assert (E : stringify (t "  ") indent (JObj ((k, x) :: kvs')) =
                [123%N; 10%N] ++ I' ++ join_with ([44%N; 10%N] ++ I')
                  (map F ((k, x) :: kvs')) ++ [10%N] ++ indent ++ [125%N])
      by reflexivity.
    assert (Hs : members_size ((k, x) :: kvs') <=
                 list_sum (map (fun s => S (length s)) (map F ((k, x) :: kvs')))).
    { clear E. induction IHk as [ | [k' y] l Hy _ IH]; [cbn; lia | ].
      cbn [members_size map list_sum fold_right]. specialize (Hy I'). cbn [snd] in Hy.
      change (fold_right Nat.add 0 (map (fun s => S (length s)) (map F l)))
        with (list_sum (map (fun s => S (length s)) (map F l))).
      assert (length (stringify (t "  ") I' y) <= length (F (k', y))).
      { subst F. cbv beta iota. rewrite !length_app. lia. }
      lia. }
    pose proof (join_with_length ([44%N; 10%N] ++ I') (map F ((k, x) :: kvs')) ltac:(cbn; lia)).
    rewrite E, jsize_obj, !length_app. cbn [length]. lia.
Qed.

Lemma JSON_parse_stringify2 (v : jsval) :
  json_wf v = true -> JSON_parse (JSON_stringify2 v ++ [10%N]) = Some (json_rt v).
Proof.
  intros Hwf. unfold JSON_parse, JSON_stringify2.
  pose proof (jsize_le_length v []).
  rewrite <- (app_nil_l (stringify (t "  ") [] v ++ [10%N])).
  rewrite stringify_parse; try done.
  rewrite app_nil_l, length_app. lia.
Qed.

(** ** [JSON.parse] builds well-formed values *)

Lemma digits_value_nonneg (ds : list N) : (0 <= digits_value ds)%Z.
Proof.
  induction ds as [ | d ds IH] using rev_ind; [reflexivity | ].
  rewrite digits_value_snoc. lia.
Qed.

Lemma classify_wf (neg : bool) (m e : Z) :
  (0 <= m)%Z -> json_wf (JNum (classify neg m e)) = true.
Proof.
  intros Hm. unfold classify at 1.
  destruct (Z.eqb_spec m 0) as [-> | Hm0]; [reflexivity | ].
  destruct (if (0 <=? e)%Z then (binary64_overflow <=? m * 10 ^ e)%Z
            else (binary64_overflow * 10 ^ (- e) <=? m)%Z) eqn:Ho; [reflexivity | ].
  destruct (if (0 <=? e)%Z then false else (m * 2 ^ 1075 <=? 10 ^ (- e))%Z) eqn:Hu;
    [reflexivity | ].
  cbn [json_wf]. apply bool_decide_eq_true.
  assert (Hs : ((if neg then - m else m) <? 0)%Z = neg) 
    by (destruct neg; [apply Z.ltb_lt | apply Z.ltb_ge]; lia).
  rewrite Hs.
  assert (Ha : Z.abs (if neg then - m else m) = m) by (destruct neg; lia).
  rewrite Ha. unfold classify. rewrite (proj2 (Z.eqb_neq m 0) Hm0), Ho, Hu. reflexivity.
Qed.

Lemma parse_number_classify (s : text) (n : jsnum) (r : text) :
  parse_number s = Some (n, r) -> exists neg m e, (0 <= m)%Z /\ n = classify neg m e.
Proof.
  intros H. unfold parse_number in H.
  repeat (case_match; try discriminate); simplify_eq;
    eexists _, _, _; (split; [apply digits_value_nonneg | reflexivity]).
Qed.

Lemma obj_set_wf (k : text) (v : jsval) (kvs : list (text * jsval)) :
  json_wf (JObj kvs) = true -> json_wf v = true -> json_wf (JObj (obj_set k v kvs)) = true.
Proof.
  cbn [json_wf]. intros Hkv Hv. apply andb_true_iff in Hkv as [Hnd Hw].
  apply bool_decide_eq_true in Hnd. rewrite forallb_forall in Hw.
  unfold obj_set. destruct (obj_has k kvs) eqn:Hh.
  - apply andb_true_iff. split.
    + apply bool_decide_eq_true.
      assert (Hf : forall l, map fst (map (fun '(k', v') => if teq k' k then (k', v) else (k', v')) l) =
                             map fst l).
      { induction l as [ | [k' v'] l IH]; [done | ]. cbn [map].
        destruct (teq k' k); cbn [fst]; by f_equal. }
      by rewrite Hf.
    + apply forallb_forall. intros [k' v'] Hin. apply in_map_iff in Hin as ([k'' v''] & Heq & Hin).
      destruct (teq k'' k); injection Heq as <- <-; [done | ].
      apply (Hw (k'', v'') Hin).
  - apply andb_true_iff. split.
    + apply bool_decide_eq_true. rewrite map_app. cbn [map fst].
      apply NoDup_app. split; [done | split; [ | apply NoDup_singleton]].
      intros x Hx Hx'. apply list_elem_of_singleton in Hx'. subst x.
      apply list_elem_of_In, in_map_iff in Hx as ([k' v'] & Hk' & Hin). cbn [fst] in Hk'. subst k'.
      enough (obj_has k kvs = true) by congruence.
      apply existsb_exists. exists (k, v'). split; [done | ]. by apply teq_true.
    + rewrite forallb_app. apply andb_true_iff. split.
      * apply forallb_forall. exact Hw.
      * cbn. by rewrite Hv.
Qed.

Lemma parse_wf (fuel : nat) :
  (forall s v r, parse_value fuel s = Some (v, r) -> json_wf v = true) /\
  (forall acc s v r, parse_members fuel acc s = Some (v, r) ->
                     json_wf (JObj acc) = true -> json_wf v = true) /\
  (forall acc s v r, parse_elems fuel acc s = Some (v, r) ->
                     forallb json_wf acc = true -> json_wf v = true).
Proof.
  induction fuel as [ | f (IHv & IHm & IHe)]; [repeat split; intros; discriminate | ].
  split; [ | split].
  - intros s v r H. cbn [parse_value] in H.
    destruct (skip_ws s) as [ | c r0]; [discriminate | ].
    destruct (N.eqb c 34).
    { destruct (parse_str_body r0) as [[str rest] | ]; simplify_eq; done. }
    destruct (N.eqb c 123).
    { destruct (skip_ws r0) as [ | d r']; [discriminate | ].
      destruct (N.eqb d 125); simplify_eq; [done | ]. by apply (IHm [] r0 v r). }
    destruct (N.eqb c 91).
    { destruct (skip_ws r0) as [ | d r']; [discriminate | ].
      destruct (N.eqb d 93); simplify_eq; [done | ]. by apply (IHe [] r0 v r). }
    repeat (case_match; simplify_eq; try done).
    match goal with
    | Hn : parse_number _ = Some _ |- _ =>
        destruct (parse_number_classify _ _ _ Hn) as (neg & m & e & Hm & ->)
    end.
    by apply classify_wf.
  - intros acc s v r H Hacc. cbn [parse_members] in H.
    repeat (case_match; simplify_eq; try done).
    + apply (IHm _ _ _ _ H). apply obj_set_wf; [done | ].
      match goal with Hp : parse_value f _ = Some _ |- _ => by apply (IHv _ _ _ Hp) end.
    + apply obj_set_wf; [done | ].
      match goal with Hp : parse_value f _ = Some _ |- _ => by apply (IHv _ _ _ Hp) end.
  - intros acc s v r H Hacc. cbn [parse_elems] in H.
    repeat (case_match; simplify_eq; try done).
    + apply (IHe _ _ _ _ H). cbn [forallb]. rewrite Hacc.
      match goal with Hp : parse_value f _ = Some _ |- _ => by rewrite (IHv _ _ _ Hp) end.
    + cbn [json_wf]. rewrite forallb_forall. intros x Hx.
      apply in_app_or in Hx as [Hx | [<- | []]].
      * apply in_rev in Hx.
        rewrite forallb_forall in Hacc. by apply Hacc.
      * match goal with Hp : parse_value f _ = Some _ |- _ => by apply (IHv _ _ _ Hp) end.
Qed.

Lemma JSON_parse_wf (s : text) (v : jsval) : JSON_parse s = Some v -> json_wf v = true.
Proof.
  unfold JSON_parse. intros H. repeat (case_match; simplify_eq; try done).
  match goal with Hp : parse_value _ _ = Some _ |- _ => by apply (proj1 (parse_wf _) _ _ _ Hp) end.
Qed.

(** ** Property reads after writes *)

Lemma obj_get_acc (kvs : list (text * jsval)) (k : text) (acc : option jsval) :
  fold_left (fun acc '(k', v) => if teq k' k then Some v else acc) kvs acc =
  match obj_get kvs k with Some v => Some v | None => acc end.
Proof.
  unfold obj_get. revert acc. induction kvs as [ | [k' v] kvs IH]; intros acc; [done | ].
  cbn [fold_left]. rewrite (IH (if teq k' k then Some v else acc)), (IH (if teq k' k then Some v else None)).
  destruct (fold_left _ kvs None); [done | ]. by destruct (teq k' k).
Qed.

Lemma obj_get_set_eq (k : text) (v : jsval) (kvs : list (text * jsval)) :
  obj_get (obj_set k v kvs) k = Some v.
Proof.
  unfold obj_set. destruct (obj_has k kvs) eqn:Hh.
  - unfold obj_get.
    assert (Hg : forall l acc, fold_left (fun acc '(k', v0) => if teq k' k then Some v0 else acc)
                   (map (fun '(k', v') => if teq k' k then (k', v) else (k', v')) l) acc =
                 if obj_has k l then Some v else acc).
    { induction l as [ | [k' v'] l IH]; intros acc; [done | ].
      cbn [map fold_left obj_has existsb]. destruct (teq k' k) eqn:Ek; cbn [fold_left].
      - rewrite Ek, IH. cbn [orb]. unfold obj_has. by destruct (existsb _ l).
      - rewrite Ek, IH. cbn [orb]. done. }
    by rewrite Hg, Hh.
  - unfold obj_get. rewrite fold_left_app. cbn [fold_left]. unfold teq.
    by rewrite bool_decide_eq_true_2.
Qed.

Lemma obj_get_set_ne (k k2 : text) (v : jsval) (kvs : list (text * jsval)) :
  k <> k2 -> obj_get (obj_set k v kvs) k2 = obj_get kvs k2.
Proof.
  intros Hne. unfold obj_set. destruct (obj_has k kvs).
  - unfold obj_get. generalize (@None jsval) as acc.
    induction kvs as [ | [k' v'] l IH]; intros acc; [done | ].
    cbn [map fold_left]. rewrite <- IH. f_equal.
    destruct (teq k' k) eqn:Ek; [ | done].
    apply teq_true in Ek. subst k'. rewrite (proj2 (teq_false k k2) Hne). done.
  - unfold obj_get. rewrite fold_left_app. cbn [fold_left].
    rewrite (proj2 (teq_false k k2) Hne). done.
Qed.

Lemma obj_get_in (kvs : list (text * jsval)) (k : text) (v : jsval) :
  obj_get kvs k = Some v -> In (k, v) kvs.
Proof.
  induction kvs as [ | [k' v'] l IH]; [done | ].
  change (obj_get ((k', v') :: l) k)
    with (fold_left (fun acc '(k'', v0) => if teq k'' k then Some v0 else acc) l
            (if teq k' k then Some v' else None)).
  rewrite obj_get_acc. destruct (obj_get l k) as [x | ] eqn:El.
  - intros [= <-]. right. by apply IH.
  - destruct (teq k' k) eqn:Ek; [ | done]. apply teq_true in Ek. subst. intros [= <-]. by left.
Qed.

(** ** Array indices are canonical *)

Lemma digits_value_lt (ds : list N) :
  forallb is_digit ds = true -> (digits_value ds < 10 ^ Z.of_nat (length ds))%Z.
Proof.
  induction ds as [ | d ds IH] using rev_ind; [reflexivity | ].
  rewrite forallb_app. intros [Hds Hd]%andb_true_iff. cbn [forallb] in Hd.
  rewrite andb_true_r in Hd. unfold is_digit in Hd.
  apply andb_true_iff in Hd as [H1 H2]. apply N.leb_le in H1, H2.
  rewrite digits_value_snoc, length_app. cbn [length].
  rewrite Nat2Z.inj_add, Z.pow_add_r by lia. specialize (IH Hds).
  assert (Z.of_N (d - 48) <= 9)%Z by lia. lia.
Qed.

Lemma digits_value_ge (ds : list N) :
  forallb is_digit ds = true -> (forall r, ds <> 48%N :: r) -> ds <> [] ->
  (10 ^ (Z.of_nat (length ds) - 1) <= digits_value ds)%Z.
Proof.
  induction ds as [ | d ds IH] using rev_ind; [done | ].
  rewrite forallb_app. intros [Hds Hd]%andb_true_iff H48 _. cbn [forallb] in Hd.
  rewrite andb_true_r in Hd. unfold is_digit in Hd.
  apply andb_true_iff in Hd as [H1 H2]. apply N.leb_le in H1, H2.
  rewrite digits_value_snoc, length_app. cbn [length].
  destruct ds as [ | c ds'].
  - cbn. assert (d <> 48%N) by (intros ->; by apply (H48 [])). lia.
  - assert (IH' : (10 ^ (Z.of_nat (length (c :: ds')) - 1) <= digits_value (c :: ds'))%Z).
    { apply IH; [done | | done]. intros r Hr. apply (H48 (r ++ [d])). rewrite Hr. done. }
    cbn [length] in IH' |- *.
    replace (Z.of_nat (S (length ds') + 1) - 1)%Z with (1 + (Z.of_nat (S (length ds')) - 1))%Z by lia.
    rewrite Z.pow_add_r by lia. lia.
Qed.

Lemma digits_value_inj (ds1 ds2 : list N) :
  forallb is_digit ds1 = true -> forallb is_digit ds2 = true ->
  length ds1 = length ds2 -> digits_value ds1 = digits_value ds2 -> ds1 = ds2.
Proof.
  revert ds2. induction ds1 as [ | d1 ds1 IH] using rev_ind; intros ds2 H1 H2 Hl Hv.
  - destruct ds2; [done | cbn in Hl; lia].
  - destruct ds2 as [ | d2 ds2 _] using rev_ind; [rewrite length_app in Hl; cbn in Hl; lia | ].
    rewrite forallb_app in H1, H2. apply andb_true_iff in H1 as [H1 Hd1], H2 as [H2 Hd2].
    cbn [forallb] in Hd1, Hd2. rewrite andb_true_r in Hd1, Hd2. unfold is_digit in Hd1, Hd2.
    apply andb_true_iff in Hd1 as [Ha Hb], Hd2 as [Hc Hd].
    apply N.leb_le in Ha, Hb, Hc, Hd.
    rewrite !length_app in Hl. cbn [length] in Hl.
    rewrite !digits_value_snoc in Hv.
    assert (Hx : d1 = d2) by lia. subst d2.
    f_equal. apply IH; [done | done | lia | lia].
Qed.

Lemma array_index_cons (c : N) (r : text) :
  c <> 48%N ->
  array_index (c :: r) =
  if forallb is_digit (c :: r) then
    (if (digits_value (c :: r) <? 4294967295)%Z then Some (Z.to_nat (digits_value (c :: r))) else None)
  else None.
Proof.
  intros H. destruct c as [ | p]; [reflexivity | ].
  repeat (destruct p as [p | p | ]; try reflexivity). exfalso. by apply H.
Qed.

Lemma array_index_some (k : text) (i : nat) :
  array_index k = Some i ->
  (k = [48%N] /\ i = 0) \/
  ((forall r, k <> 48%N :: r) /\ k <> [] /\ forallb is_digit k = true /\
   Z.to_nat (digits_value k) = i).
Proof.
  destruct k as [ | c r]; [done | ].
  destruct (N.eq_dec c 48%N) as [-> | Hc].
  - destruct r as [ | x r]; [intros [= <-]; by left | done].
  - rewrite array_index_cons by done.
    destruct (forallb is_digit (c :: r)) eqn:Hd; [ | done].
    destruct (digits_value (c :: r) <? 4294967295)%Z; [ | done].
    intros [= <-]. right. split; [ | done]. intros r' [= ->]. done.
Qed.

Lemma array_index_inj (k1 k2 : text) (i : nat) :
  array_index k1 = Some i -> array_index k2 = Some i -> k1 = k2.
Proof.
  assert (Hpos : forall k, (forall r, k <> 48%N :: r) -> k <> [] -> forallb is_digit k = true ->
                 (1 <= digits_value k)%Z).
  { intros k H48 Hne Hd. pose proof (digits_value_ge k Hd H48 Hne).
    assert (0 < 10 ^ (Z.of_nat (length k) - 1))%Z.
    { apply Z.pow_pos_nonneg; [lia | ]. destruct k; [done | cbn [length]; lia]. }
    lia. }
  intros H1 H2.
  destruct (array_index_some k1 i H1) as [[-> Hi1] | (H48 & Hne & Hd & Hv)],
           (array_index_some k2 i H2) as [[-> Hi2] | (H48' & Hne' & Hd' & Hv')]; try done;
    subst i.
  all: try (pose proof (Hpos k2 H48' Hne' Hd'); lia).
  all: try (pose proof (Hpos k1 H48 Hne Hd); lia).
  - assert (Hval : digits_value k1 = digits_value k2).
    { pose proof (digits_value_nonneg k1). pose proof (digits_value_nonneg k2). lia. }
    pose proof (Hpos k1 H48 Hne Hd). pose proof (Hpos k2 H48' Hne' Hd').
    pose proof (digits_value_lt k1 Hd). pose proof (digits_value_lt k2 Hd').
    pose proof (digits_value_ge k1 Hd H48 Hne). pose proof (digits_value_ge k2 Hd' H48' Hne').
    apply digits_value_inj; [done | done | | done].
    destruct (Nat.lt_trichotomy (length k1) (length k2)) as [Hl | [Hl | Hl]]; [ | done | ].
    + assert (10 ^ Z.of_nat (length k1) <= 10 ^ (Z.of_nat (length k2) - 1))%Z
        by (apply Z.pow_le_mono_r; lia).
      lia.
    + assert (10 ^ Z.of_nat (length k2) <= 10 ^ (Z.of_nat (length k1) - 1))%Z
        by (apply Z.pow_le_mono_r; lia).
      lia.
Qed.

(** ** What [JSON.parse] after [JSON.stringify] changes in a lookup *)

Lemma nth_error_list_lookup {A} (l : list A) (i : nat) : nth_error l i = l !! i.
Proof. revert i. induction l as [ | x l IH]; intros [ | i]; cbn; auto. Qed.

Lemma obj_get_rt (kvs : list (text * jsval)) (k : text) :
  obj_get (map (fun '(k, x) => (k, json_rt x)) kvs) k = option_map json_rt (obj_get kvs k).
Proof.
  unfold obj_get. change (@None jsval) with (option_map json_rt None) at 1.
  generalize (@None jsval) as acc.
  induction kvs as [ | [k' x] l IH]; intros acc; [done | ].
  cbn [map fold_left]. rewrite <- IH. f_equal. by destruct (teq k' k).
Qed.

Lemma get_prop_rt (v : jsval) (k : text) :
  (k <> t "length" \/ match v with JArr _ | JStr _ => False | _ => True end) ->
  get_prop (json_rt v) k = option_map json_rt (get_prop v k).
Proof.
  intros Hk. destruct v as [ | b | [m e | neg] | s | l | kvs]; try reflexivity.
  - destruct Hk as [Hk | []]. cbn [json_rt get_prop].
    rewrite (proj2 (teq_false _ _) Hk). destruct (array_index k); [ | done].
    by destruct (nth_error s n).
  - destruct Hk as [Hk | []]. cbn [json_rt get_prop].
    rewrite (proj2 (teq_false _ _) Hk). destruct (array_index k); [ | done].
    apply nth_error_map.
  - apply obj_get_rt.
Qed.

Lemma get_prop_allowed_none (v : jsval) :
  match v with JObj _ => False | _ => True end -> get_prop v (t "allowed") = None.
Proof.
  destruct v as [ | b | n | s | l | kvs]; intros H; try reflexivity. done.
Qed.

Lemma allowed_member_rt (v : jsval) (b : text) :
  allowed_member (json_rt v) b = option_map json_rt (allowed_member v b).
Proof.
  unfold allowed_member.
  rewrite get_prop_rt by (left; discriminate).
  destruct (get_prop v (t "browsers")) as [B | ]; [cbn [option_map] | done].
  assert (Hlen : forall n, get_prop (js_length n) (t "allowed") = None)
    by (intros n; by apply get_prop_allowed_none).
  destruct (decide (b = t "length")) as [-> | Hb].
  - destruct B as [ | x | n | s | l | kvs];
      try (rewrite get_prop_rt by (right; exact I);
           destruct (get_prop _ (t "length")) as [e | ]; [ | done];
           cbn [option_map]; apply get_prop_rt; left; discriminate).
    + cbn [json_rt get_prop]. rewrite (proj2 (teq_true _ _) eq_refl). by rewrite !Hlen.
    + cbn [json_rt get_prop]. rewrite (proj2 (teq_true _ _) eq_refl). by rewrite !Hlen.
  - rewrite get_prop_rt by (by left).
    destruct (get_prop B b) as [e | ]; [cbn [option_map] | done].
    apply get_prop_rt. left. discriminate.
Qed.

Lemma get_prop_wf (v : jsval) (k : text) (z : jsval) :
  json_wf v = true -> get_prop v k = Some z ->
  (k <> t "length" \/ exists kvs, z = JObj kvs) -> json_wf z = true.
Proof.
  intros Hv Hz Hk. destruct v as [ | b | n | s | l | kvs]; try discriminate.
  - cbn [get_prop] in Hz. destruct (teq k (t "length")) eqn:Hl.
    + apply teq_true in Hl. injection Hz as <-. destruct Hk as [Hk | [kvs Hk]]; done.
    + destruct (array_index k); [ | done]. destruct (nth_error s n); [ | done].
      injection Hz as <-. done.
  - cbn [get_prop] in Hz. destruct (teq k (t "length")) eqn:Hl.
    + apply teq_true in Hl. injection Hz as <-. destruct Hk as [Hk | [kvs Hk]]; done.
    + destruct (array_index k); [ | done]. cbn [json_wf] in Hv. rewrite forallb_forall in Hv.
      apply Hv. by apply nth_error_In in Hz.
  - cbn [get_prop] in Hz. apply obj_get_in in Hz. cbn [json_wf] in Hv.
    apply andb_true_iff in Hv as [_ Hv]. rewrite forallb_forall in Hv. apply (Hv _ Hz).
Qed.

Lemma allowed_member_wf (v : jsval) (b : text) (z : jsval) :
  json_wf v = true -> allowed_member v b = Some z -> json_wf z = true.
Proof.
  unfold allowed_member. intros Hv Hz.
  destruct (get_prop v (t "browsers")) as [B | ] eqn:HB; [ | done].
  destruct (get_prop B b) as [e | ] eqn:He; [ | done].
  destruct e as [ | x | n | s | l | ekvs];
    try (rewrite get_prop_allowed_none in Hz by exact I; discriminate).
  apply (get_prop_wf _ _ _ (get_prop_wf _ _ _ (get_prop_wf _ _ _ Hv HB ltac:(left; discriminate)) He
                              ltac:(right; eauto)) Hz).
  left. discriminate.
Qed.

Lemma truthy_rt (z : jsval) :
  json_wf z = true -> (forall neg, z <> JNum (NInf neg)) -> truthy (json_rt z) = truthy z.
Proof.
  intros Hw Hn. destruct z as [ | b | [m e | neg] | s | l | kvs]; try reflexivity.
  - cbn [json_wf] in Hw. apply bool_decide_eq_true in Hw. cbn [json_rt]. by rewrite Hw.
  - exfalso. by apply (Hn neg).
Qed.

(** ** The document update of [setAlwaysAllowed] *)

Lemma array_store_wf (l : list jsval) (i : nat) (x : jsval) :
  forallb json_wf l = true -> json_wf x = true -> forallb json_wf (array_store l i x) = true.
Proof.
  intros Hl Hx. unfold array_store. destruct (Nat.ltb i (length l)).
  - apply forallb_forall. intros y Hy. apply list_elem_of_In in Hy.
    assert (HF : Forall (fun y => json_wf y = true) (<[i := x]> l)).
    { apply Forall_insert; [ | done]. apply Forall_forall. intros z Hz.
      rewrite forallb_forall in Hl. apply Hl. by apply list_elem_of_In. }
    rewrite Forall_forall in HF. by apply HF.
  - rewrite !forallb_app, Hl. cbn. rewrite Hx, andb_true_r.
    induction (i - length l); [done | ]. done.
Qed.

Lemma set_prop_wf (o : jsval) (k : text) (x o' : jsval) :
  json_wf o = true -> json_wf x = true -> set_prop o k x = Ok o' -> json_wf o' = true.
Proof.
  intros Ho Hx H. destruct o as [ | b | n | s | l | kvs]; cbn [set_prop] in H;
    try (injection H as <-; done).
  - destruct (teq k (t "length")); [discriminate | ].
    destruct (array_index k); injection H as <-; [ | done].
    by apply array_store_wf.
  - destruct (teq k (t "__proto__") && negb (obj_has k kvs)); injection H as <-; [done | ].
    by apply obj_set_wf.
Qed.

Lemma update_allow_doc_wf (obj : jsval) (b : text) (rec obj' : jsval) :
  json_wf obj = true -> json_wf rec = true -> update_allow_doc obj b rec = Ok obj' ->
  json_wf obj' = true.
Proof.
  intros Ho Hr. unfold update_allow_doc.
  set (obj1 := if negb (truthy obj) || negb (typeof_object obj) then JObj [] else obj).
  assert (H1 : json_wf obj1 = true) by (subst obj1; by destruct (_ || _)).
  set (B := match get_prop obj1 (t "browsers") with
            | Some b0 => if truthy b0 && typeof_object b0 then b0 else JObj []
            | None => JObj [] end).
  assert (HB : json_wf B = true).
  { subst B. destruct (get_prop obj1 (t "browsers")) as [b0 | ] eqn:E; [ | done].
    destruct (truthy b0 && typeof_object b0); [ | done].
    apply (get_prop_wf _ _ _ H1 E). left. discriminate. }
  unfold rbind. destruct (set_prop B b rec) as [B' | e] eqn:Hs; [ | discriminate].
  intros H. apply (set_prop_wf _ _ _ _ H1 (set_prop_wf _ _ _ _ HB Hr Hs) H).
Qed.

Lemma array_store_other (l : list jsval) (i j : nat) (x : jsval) :
  i <> j ->
  nth_error (array_store l i x) j = nth_error l j \/
  (nth_error l j = None /\
   (nth_error (array_store l i x) j = None \/ nth_error (array_store l i x) j = Some JNull)).
Proof.
  intros Hij. unfold array_store. rewrite !nth_error_list_lookup.
  destruct (Nat.ltb_spec i (length l)).
  - left. by apply list_lookup_insert_ne.
  - destruct (Nat.lt_ge_cases j (length l)) as [Hj | Hj].
    + left. by apply lookup_app_l.
    + right. split; [by apply lookup_ge_None_2 | ].
      rewrite lookup_app_r by done.
      destruct (Nat.lt_ge_cases (j - length l) (i - length l)) as [Hk | Hk].
      * right. rewrite lookup_app_l by (rewrite repeat_length; done).
        rewrite <- nth_error_list_lookup. apply nth_error_repeat. lia.
      * left. rewrite lookup_app_r by (rewrite repeat_length; done).
        apply lookup_ge_None_2. rewrite repeat_length. cbn [length]. lia.
Qed.

Lemma browser_allowed_nonobj (B : jsval) (k : text) :
  truthy B && typeof_object B = false -> browser_allowed B k = None.
Proof.
  intros H. unfold browser_allowed.
  destruct B as [ | b | n | s | l | kvs]; try reflexivity; try discriminate.
  cbn [get_prop]. destruct (teq k (t "length")); [reflexivity | ].
  destruct (array_index k); [ | reflexivity].
  destruct (nth_error s n); reflexivity.
Qed.

(** Writing browser [b1] leaves what [b2] reads alone. *)
Lemma set_prop_frame (B B' rec : jsval) (b1 b2 : text) :
  b1 <> b2 -> set_prop B b1 rec = Ok B' -> browser_allowed B' b2 = browser_allowed B b2.
Proof.
  intros Hne H. destruct B as [ | b | n | s | l | kvs]; cbn [set_prop] in H;
    try (injection H as <-; reflexivity).
  - destruct (teq b1 (t "length")); [discriminate | ].
    destruct (array_index b1) as [i | ] eqn:Hi; injection H as <-; [ | reflexivity].
    unfold browser_allowed. cbn [get_prop].
    destruct (teq b2 (t "length")); [reflexivity | ].
    destruct (array_index b2) as [j | ] eqn:Hj; [ | reflexivity].
    assert (Hij : i <> j) by (intros <-; apply Hne; by apply (array_index_inj _ _ i)).
    destruct (array_store_other l i j rec Hij) as [-> | [-> [-> | ->]]]; reflexivity.
  - destruct (teq b1 (t "__proto__") && negb (obj_has b1 kvs)); injection H as <-;
      [reflexivity | ].
    unfold browser_allowed. cbn [get_prop]. by rewrite obj_get_set_ne.
Qed.

(** For a document that is an object, the update changes no other
    browser's [allowed] member. *)
Lemma update_allow_doc_frame (kvs : list (text * jsval)) (b1 b2 : text) (rec obj' : jsval) :
  b1 <> b2 -> update_allow_doc (JObj kvs) b1 rec = Ok obj' ->
  allowed_member obj' b2 = allowed_member (JObj kvs) b2.
Proof.
  intros Hne. unfold update_allow_doc. cbv zeta. cbn [truthy typeof_object negb orb].
  set (B := match get_prop (JObj kvs) (t "browsers") with
            | Some b0 => if truthy b0 && typeof_object b0 then b0 else JObj []
            | None => JObj [] end).
  unfold rbind. destruct (set_prop B b1 rec) as [B' | e] eqn:Hs; [ | discriminate].
  cbn [set_prop]. change (teq (t "browsers") (t "__proto__")) with false. cbn [andb].
  intros [= <-]. unfold allowed_member. cbn [get_prop]. rewrite obj_get_set_eq.
  fold (browser_allowed B' b2). rewrite (set_prop_frame _ _ _ _ _ Hne Hs).
  subst B. cbn [get_prop]. destruct (obj_get kvs (t "browsers")) as [b0 | ]; [ | reflexivity].
  destruct (truthy b0 && typeof_object b0) eqn:Hb; [reflexivity | ].
  exact (eq_sym (browser_allowed_nonobj b0 b2 Hb)).
Qed.

Section AllowFrame.
Context `{RT : JSRuntime}.

(** [setAlwaysAllowed] on a root whose document is there: the document is
    rewritten from the update of its parsed content (an empty object when
    it does not parse), or the call throws and changes nothing. *)
Lemma setAlwaysAllowed_step (repoRoot b rr raw : text) (w : world) :
  resolveRepoRootOrThrow (w_env w) repoRoot = Ok rr ->
  w_fs w !! path_dirname (allowFilePath rr) = Some EDir ->
  is_root (allowFilePath rr) = false ->
  w_fs w !! allowFilePath rr = Some (EFile raw) ->
  setAlwaysAllowed repoRoot b w =
    match update_allow_doc (match JSON_parse raw with Some v => v | None => JObj [] end) b
            (JObj [(t "allowed", JBool true); (t "updatedAt", JStr (to_iso_string (w_now w)))]) with
    | Ok obj' => (Ok tt, set_fs w (<[allowFilePath rr := EFile (JSON_stringify2 obj' ++ [10%N])]>
                                      (w_fs w)))
    | Err e => (Err e, w)
    end.
Proof.
  intros Hr Hd Hroot Hp. unfold setAlwaysAllowed.
  unfold io_bind at 1. rewrite (resolve_root_io_ok _ _ _ Hr). cbv iota beta zeta.
  unfold io_bind at 1. rewrite (fs_mkdirp_existing _ _ (or_intror Hd)). cbv iota beta.
  unfold io_bind at 1.
  assert (Hc : io_catch (read_json (allowFilePath rr)) (fun _ => io_ret (JObj [])) w =
               (Ok (match JSON_parse raw with Some v => v | None => JObj [] end), w)).
  { unfold io_catch, read_json, io_bind, fs_readFile. rewrite Hroot, Hp.
    destruct (JSON_parse raw); reflexivity. }
  rewrite Hc. cbv iota beta. unfold io_bind, io_get. cbv iota beta.
  destruct (update_allow_doc _ _ _) as [obj' | e]; [ | reflexivity].
  unfold fs_writeFile. cbv zeta. rewrite Hd, Hroot, Hp.
  destruct (is_root (path_dirname (allowFilePath rr))); reflexivity.
Qed.

Lemma allowFilePath_not_root (E : env) (repoRoot rr : text) :
  is_abs (env_cwd E) = true -> resolveRepoRootOrThrow E repoRoot = Ok rr ->
  is_root (allowFilePath rr) = false.
Proof.
  intros Hc Hr. destruct (resolve_ok_mk _ _ _ Hc Hr) as (segs & -> & Hs).
  unfold allowFilePath.
  assert (Hn : Forall (fun s => plain s = true) [t ".noctune_cache"; t "studio_allow.json"])
    by (repeat constructor).
  rewrite path_join_mk by done. apply mk_path_not_root.
  - by destruct segs.
  - by apply Forall_app.
Qed.

(** The document read after [setAlwaysAllowed] rewrote it with [obj']. *)
Lemma persistent_grant_written (w : world) (rr b : text) (obj' : jsval) :
  is_root (allowFilePath rr) = false -> json_wf obj' = true ->
  persistent_grant (set_fs w (<[allowFilePath rr := EFile (JSON_stringify2 obj' ++ [10%N])]> (w_fs w)))
    rr b = js_Boolean (option_map json_rt (allowed_member obj' b)).
Proof.
  intros Hroot Hwf. unfold persistent_grant, fs_readFile. rewrite Hroot.
  cbn [w_fs set_fs]. rewrite lookup_insert_eq. cbn [fst].
  rewrite JSON_parse_stringify2 by done. by rewrite allowed_member_rt.
Qed.

Lemma persistent_grant_read (w : world) (rr b raw : text) :
  is_root (allowFilePath rr) = false -> w_fs w !! allowFilePath rr = Some (EFile raw) ->
  persistent_grant w rr b =
    match JSON_parse raw with Some doc => js_Boolean (allowed_member doc b) | None => false end.
Proof. intros Hroot Hp. unfold persistent_grant, fs_readFile. by rewrite Hroot, Hp. Qed.

(** C10 (amended). Let the persistent-allow document of the root be a file
    (in its directory). When it parses as a JSON object, then for every
    browser [b2] other than [b1] whose recorded [allowed] value is not a
    non-finite number, [isAlwaysAllowed(root, b2)] returns the same after
    [setAlwaysAllowed(root, b1)] as before: the update changes only the
    entry of [b1] (non-finite numbers are rewritten as [null] by
    [JSON.stringify], which turns a truthy [Infinity] into [false]). When
    the document does not parse, the call rewrites it from an empty object,
    and afterwards [isAlwaysAllowed(root, b2)] is [false] for every [b2]
    other than [b1]. *)
Theorem setAlwaysAllowed_frame (repoRoot b1 rr raw : text) (w : world) :
  is_abs (env_cwd (w_env w)) = true ->
  resolveRepoRootOrThrow (w_env w) repoRoot = Ok rr ->
  w_fs w !! path_dirname (allowFilePath rr) = Some EDir ->
  w_fs w !! allowFilePath rr = Some (EFile raw) ->
  (forall kvs b2, JSON_parse raw = Some (JObj kvs) -> b1 <> b2 ->
     (forall neg, allowed_member (JObj kvs) b2 <> Some (JNum (NInf neg))) ->
     fst (isAlwaysAllowed repoRoot b2 (snd (setAlwaysAllowed repoRoot b1 w))) =
     fst (isAlwaysAllowed repoRoot b2 w)) /\
  (JSON_parse raw = None -> forall b2, b1 <> b2 ->
     fst (isAlwaysAllowed repoRoot b2 (snd (setAlwaysAllowed repoRoot b1 w))) = Ok false).
Proof.
  intros Hc Hr Hd Hp.
  pose proof (allowFilePath_not_root _ _ _ Hc Hr) as Hroot.
  rewrite (setAlwaysAllowed_step _ _ _ _ _ Hr Hd Hroot Hp).
  set (rec := JObj [(t "allowed", JBool true); (t "updatedAt", JStr (to_iso_string (w_now w)))]).
  assert (Hrec : json_wf rec = true) by reflexivity.
  split.
  - intros kvs b2 Hj Hne Hinf. rewrite Hj.
    pose proof (JSON_parse_wf _ _ Hj) as Hwf.
    destruct (update_allow_doc (JObj kvs) b1 rec) as [obj' | e] eqn:Hu; cbn [snd]; [ | reflexivity].
    rewrite !always_step. cbn [w_env set_fs]. rewrite Hr. cbn [fst]. f_equal.
    rewrite persistent_grant_written by (done || by apply (update_allow_doc_wf _ _ _ _ Hwf Hrec Hu)).
    rewrite (persistent_grant_read _ _ _ _ Hroot Hp), Hj.
    rewrite (update_allow_doc_frame _ _ _ _ _ Hne Hu).
    destruct (allowed_member (JObj kvs) b2) as [z | ] eqn:Ha; [ | reflexivity].
    cbn [option_map js_Boolean]. apply truthy_rt.
    + by apply (allowed_member_wf _ _ _ Hwf Ha).
    + intros neg ->. by apply (Hinf neg).
  - intros Hj b2 Hne. rewrite Hj.
    destruct (update_allow_doc (JObj []) b1 rec) as [obj' | e] eqn:Hu; cbn [snd].
    + rewrite always_step. cbn [w_env set_fs]. rewrite Hr. cbn [fst]. f_equal.
      rewrite persistent_grant_written by (done || by apply (update_allow_doc_wf (JObj []) _ _ _ eq_refl Hrec Hu)).
      by rewrite (update_allow_doc_frame _ _ _ _ _ Hne Hu).
    + rewrite always_step, Hr. cbn [fst]. f_equal.
      by rewrite (persistent_grant_read _ _ _ _ Hroot Hp), Hj.
Qed.

End AllowFrame.

Lemma setAlwaysAllowed_frame_witness :
  let W := allow_world (j "{`browsers`:{`b2`:{`allowed`:true}}}") in
  is_abs (env_cwd (w_env W)) = true /\
  resolveRepoRootOrThrow (w_env W) (t "/repo") = Ok (t "/repo") /\
  fst (isAlwaysAllowed (t "/repo") (t "b2")
         (snd (@setAlwaysAllowed demo_rt (t "/repo") (t "b1") W))) =
  fst (isAlwaysAllowed (t "/repo") (t "b2") W).
Proof.
  cbv zeta. split; [vm_compute; reflexivity | split; [vm_compute; reflexivity | ]].
  refine (proj1 (@setAlwaysAllowed_frame demo_rt (t "/repo") (t "b1") (t "/repo")
                   (j "{`browsers`:{`b2`:{`allowed`:true}}}")
                   (allow_world (j "{`browsers`:{`b2`:{`allowed`:true}}}")) _ _ _ _)
            [(t "browsers", JObj [(t "b2", JObj [(t "allowed", JBool true)])])] (t "b2") _ _ _).
  all: try (vm_compute; reflexivity).
  - intros H. vm_compute in H. discriminate.
  - intros neg H. vm_compute in H. discriminate.
Defined.

(** C10 counterexample: the document records [b2] with [allowed] equal to
    [1e999], which parses as [Infinity] and grants [b2]. After
    [setAlwaysAllowed] for [b1] the document is written back with [null] in
    its place, and [b2] is no longer granted. *)
Lemma setAlwaysAllowed_infinity_cex :
  let W := allow_world (j "{`browsers`:{`b2`:{`allowed`:1e999}}}") in
  JSON_parse (j "{`browsers`:{`b2`:{`allowed`:1e999}}}") =
    Some (JObj [(t "browsers", JObj [(t "b2", JObj [(t "allowed", JNum (NInf false))])])]) /\
  fst (isAlwaysAllowed (t "/repo") (t "b2") W) = Ok true /\
  fst (isAlwaysAllowed (t "/repo") (t "b2")
         (snd (@setAlwaysAllowed demo_rt (t "/repo") (t "b1") W))) = Ok false.
Proof. cbv zeta. split; [ | split]; vm_compute; reflexivity. Qed.

(* ================================================================== *)
(** * Further properties of the code *)

(** ** What [setAlwaysAllowed] writes *)

(** [mkdir -p] adds directories only. *)
Lemma mkdirp_fuel_new_dirs (n : nat) (p : text) (fs fs' : gmap text entry) :
  mkdirp_fuel n p fs = Ok fs' -> forall k x, fs' !! k = Some x -> fs !! k = Some x \/ x = EDir.
Proof.
  revert p fs fs'. induction n as [ | n IH]; intros p fs fs' H k x Hk; simpl in H; [done | ].
  destruct (is_root p); [injection H as <-; by left | ].
  destruct (fs !! p) as [[] | ] eqn:Hp; try (injection H as <-; by left); try done.
  destruct (mkdirp_fuel n (path_dirname p) fs) as [fs1 | ] eqn:Hm; [ | done].
  injection H as <-. destruct (decide (k = p)) as [-> | Hne].
  - rewrite lookup_insert_eq in Hk. injection Hk as <-. by right.
  - rewrite lookup_insert_ne in Hk by congruence. by apply (IH _ _ _ Hm).
Qed.

Lemma set_fs_set_fs (w : world) (fs1 fs2 : gmap text entry) :
  set_fs (set_fs w fs1) fs2 = set_fs w fs2.
Proof. reflexivity. Qed.

Section AllowWrite.
Context `{RT : JSRuntime}.

(** A call of [setAlwaysAllowed] that succeeds has created the directory,
    read the document as it then was (an empty object when it cannot be
    read or parsed), and written back its update. *)
Lemma setAlwaysAllowed_ok (repoRoot b rr : text) (w : world) :
  resolveRepoRootOrThrow (w_env w) repoRoot = Ok rr ->
  is_root (allowFilePath rr) = false ->
  fst (setAlwaysAllowed repoRoot b w) = Ok tt ->
  exists fs1 obj',
    mkdirp_fuel (S (length (path_dirname (allowFilePath rr)))) (path_dirname (allowFilePath rr))
      (w_fs w) = Ok fs1 /\
    update_allow_doc
      (match fs1 !! allowFilePath rr with
       | Some (EFile raw) => match JSON_parse raw with Some v => v | None => JObj [] end
       | _ => JObj []
       end) b
      (JObj [(t "allowed", JBool true); (t "updatedAt", JStr (to_iso_string (w_now w)))]) = Ok obj' /\
    snd (setAlwaysAllowed repoRoot b w) =
      set_fs w (<[allowFilePath rr := EFile (JSON_stringify2 obj' ++ [10%N])]> fs1).
Proof.
  intros Hr Hroot Hok.
  destruct (setAlwaysAllowed repoRoot b w) as [res w'] eqn:HR. cbn [fst] in Hok. subst res.
  cbn [snd]. unfold setAlwaysAllowed in HR.
  unfold io_bind at 1 in HR. rewrite (resolve_root_io_ok _ _ _ Hr) in HR. cbv iota beta zeta in HR.
  unfold io_bind at 1 in HR. unfold fs_mkdirp at 1 in HR.
  destruct (mkdirp_fuel _ _ (w_fs w)) as [fs1 | e] eqn:Hm; [ | done].
  cbv iota beta in HR. unfold io_bind at 1 in HR.
  set (obj := match fs1 !! allowFilePath rr with
              | Some (EFile raw) => match JSON_parse raw with Some v => v | None => JObj [] end
              | _ => JObj [] end) in *.
  assert (Hc : io_catch (read_json (allowFilePath rr)) (fun _ => io_ret (JObj [])) (set_fs w fs1) =
               (Ok obj, set_fs w fs1)).
  { unfold io_catch, read_json, io_bind, fs_readFile. rewrite Hroot. cbn [w_fs set_fs].
    subst obj. destruct (fs1 !! allowFilePath rr) as [[raw | ] | ]; try reflexivity.
    destruct (JSON_parse raw); reflexivity. }
  rewrite Hc in HR. cbv iota beta in HR. unfold io_bind, io_get in HR. cbv iota beta in HR.
  cbn [w_now set_fs] in HR.
  destruct (update_allow_doc obj b _) as [obj' | e] eqn:Hu; [ | done].
  apply fs_writeFile_ok in HR as (_ & _ & _ & ->).
  exists fs1, obj'. split; [done | ]. split; [done | ]. reflexivity.
Qed.

End AllowWrite.

Lemma update_allow_doc_grants (obj : jsval) (b : text) (rec obj' : jsval) :
  b <> t "__proto__" -> (forall l, obj <> JArr l) ->
  (forall kvs l, obj = JObj kvs -> obj_get kvs (t "browsers") <> Some (JArr l)) ->
  update_allow_doc obj b rec = Ok obj' ->
  allowed_member obj' b = get_prop rec (t "allowed").
Proof.
  intros Hb Harr Hbr. unfold update_allow_doc.
  assert (Hobj1 : exists kvs1,
    (if negb (truthy obj) || negb (typeof_object obj) then JObj [] else obj) = JObj kvs1 /\
    forall l, obj_get kvs1 (t "browsers") <> Some (JArr l)).
  { destruct obj as [ | bo | n | s | l | kvs]; cbn [typeof_object negb];
      rewrite ?orb_true_r; try (exists []; split; [reflexivity | done]).
    - exfalso. by apply (Harr l).
    - cbn [truthy negb orb]. exists kvs. split; [reflexivity | ]. intros l. by apply Hbr. }
  destruct Hobj1 as (kvs1 & -> & Hk). cbv zeta. cbn [get_prop].
  assert (HB : exists bk,
    match obj_get kvs1 (t "browsers") with
    | Some b0 => if truthy b0 && typeof_object b0 then b0 else JObj []
    | None => JObj [] end = JObj bk).
  { destruct (obj_get kvs1 (t "browsers")) as [b0 | ] eqn:E; [ | by exists []].
    destruct (truthy b0 && typeof_object b0) eqn:Ht; [ | by exists []].
    destruct b0 as [ | | | | l | bk]; cbn [typeof_object] in Ht; rewrite ?andb_false_r in Ht;
      try discriminate.
    - exfalso. by apply (Hk l).
    - by exists bk. }
  destruct HB as [bk ->]. cbn [set_prop]. rewrite (proj2 (teq_false _ _) Hb). cbn [andb].
  unfold rbind. cbn [set_prop]. change (teq (t "browsers") (t "__proto__")) with false.
  cbn [andb]. intros [= <-]. unfold allowed_member. cbn [get_prop].
  rewrite obj_get_set_eq. cbn [get_prop]. by rewrite obj_get_set_eq.
Qed.

Lemma update_allow_doc_array (l : list jsval) (b : text) (rec obj' : jsval) :
  update_allow_doc (JArr l) b rec = Ok obj' -> obj' = JArr l.
Proof.
  unfold update_allow_doc. cbn [truthy typeof_object negb orb get_prop].
  change (teq (t "browsers") (t "length")) with false.
  change (array_index (t "browsers")) with (@None nat). cbv iota zeta. unfold rbind.
  cbn [set_prop]. destruct (teq b (t "__proto__") && negb (obj_has b [])); cbv iota;
    change (teq (t "browsers") (t "length")) with false;
    change (array_index (t "browsers")) with (@None nat); cbv iota; by intros [= <-].
Qed.

Section AllowGrant.
Context `{RT : JSRuntime}.

(** When [setAlwaysAllowed(root, b)] succeeds, a following
    [isAlwaysAllowed(root, b)] answers [true], provided [b] is not
    [__proto__] and the existing allow document, if it parses, is neither an
    array nor an object whose [browsers] member is an array. When the
    existing document parses to an array, the document written back is that
    same array (its [JSON.stringify(doc, null, 2)] and a newline) and the
    check answers [false]. *)
Theorem setAlwaysAllowed_grants (repoRoot b rr : text) (w : world) :
  is_abs (env_cwd (w_env w)) = true ->
  resolveRepoRootOrThrow (w_env w) repoRoot = Ok rr ->
  fst (setAlwaysAllowed repoRoot b w) = Ok tt ->
  (b <> t "__proto__" ->
   (forall raw v, w_fs w !! allowFilePath rr = Some (EFile raw) -> JSON_parse raw = Some v ->
      (forall l, v <> JArr l) /\
      (forall kvs l, v = JObj kvs -> obj_get kvs (t "browsers") <> Some (JArr l))) ->
   fst (isAlwaysAllowed repoRoot b (snd (setAlwaysAllowed repoRoot b w))) = Ok true) /\
  (forall raw l, w_fs w !! allowFilePath rr = Some (EFile raw) -> JSON_parse raw = Some (JArr l) ->
   w_fs (snd (setAlwaysAllowed repoRoot b w)) !! allowFilePath rr =
     Some (EFile (JSON_stringify2 (JArr l) ++ [10%N])) /\
   fst (isAlwaysAllowed repoRoot b (snd (setAlwaysAllowed repoRoot b w))) = Ok false).
Proof.
  intros Hc Hr Hok.
  pose proof (allowFilePath_not_root _ _ _ Hc Hr) as Hroot.
  destruct (setAlwaysAllowed_ok _ _ _ _ Hr Hroot Hok) as (fs1 & obj' & Hm & Hu & ->).
  set (rec := JObj [(t "allowed", JBool true); (t "updatedAt", JStr (to_iso_string (w_now w)))])
    in Hu.
  assert (Hrec : json_wf rec = true) by reflexivity.
  set (obj := match fs1 !! allowFilePath rr with
              | Some (EFile raw) => match JSON_parse raw with Some v => v | None => JObj [] end
              | _ => JObj [] end) in Hu.
  assert (Hwf : json_wf obj = true).
  { subst obj. destruct (fs1 !! allowFilePath rr) as [[raw | ] | ]; try done.
    destruct (JSON_parse raw) as [v | ] eqn:Hp; [ | done]. by apply (JSON_parse_wf raw). }
  pose proof (update_allow_doc_wf _ _ _ _ Hwf Hrec Hu) as Hwf'.
  rewrite always_step. cbn [w_env set_fs]. rewrite Hr.
  change (set_fs w (<[allowFilePath rr := EFile (JSON_stringify2 obj' ++ [10%N])]> fs1))
    with (set_fs (set_fs w fs1)
            (<[allowFilePath rr := EFile (JSON_stringify2 obj' ++ [10%N])]> (w_fs (set_fs w fs1)))).
  rewrite (persistent_grant_written _ _ _ _ Hroot Hwf').
  split.
  - intros Hb Hshape. cbn [fst]. f_equal.
    assert (Hs : (forall l, obj <> JArr l) /\
                 (forall kvs l, obj = JObj kvs -> obj_get kvs (t "browsers") <> Some (JArr l))).
    { subst obj. destruct (fs1 !! allowFilePath rr) as [[raw | ] | ] eqn:Hf;
        try (split; [done | by intros ? ? [= <-]]).
      destruct (JSON_parse raw) as [v | ] eqn:Hp; [ | split; [done | by intros ? ? [= <-]]].
      destruct (mkdirp_fuel_new_dirs _ _ _ _ Hm _ _ Hf) as [Hw | ]; [ | done].
      by apply (Hshape raw). }
    destruct Hs as [Hs1 Hs2].
    by rewrite (update_allow_doc_grants _ _ _ _ Hb Hs1 Hs2 Hu).
  - intros raw l Hf Hp.
    assert (Hobj : obj = JArr l).
    { subst obj. by rewrite (mkdirp_fuel_mono _ _ _ _ Hm _ _ Hf), Hp. }
    rewrite Hobj in Hu. apply update_allow_doc_array in Hu. subst obj'. split.
    + cbn [w_fs set_fs]. apply lookup_insert_eq.
    + cbn [fst]. by f_equal.
Qed.

End AllowGrant.

Lemma setAlwaysAllowed_grants_witness :
  fst (@isAlwaysAllowed (t "/repo") (t "b1")
         (snd (@setAlwaysAllowed demo_rt (t "/repo") (t "b1") (allow_world (t "{"))))) = Ok true /\
  fst (@isAlwaysAllowed (t "/repo") (t "b1")
         (snd (@setAlwaysAllowed demo_rt (t "/repo") (t "b1") (allow_world (t "[1]"))))) = Ok false.
Proof.
  split.
  - refine (proj1 (@setAlwaysAllowed_grants demo_rt (t "/repo") (t "b1") (t "/repo")
                     (allow_world (t "{")) _ _ _) _ _);
      try (vm_compute; reflexivity).
    + intros H. vm_compute in H. discriminate.
    + intros raw v Hf Hp. vm_compute in Hf. injection Hf as <-. vm_compute in Hp. discriminate.
  - refine (proj2 (proj2 (@setAlwaysAllowed_grants demo_rt (t "/repo") (t "b1") (t "/repo")
                     (allow_world (t "[1]")) _ _ _) (t "[1]") [JNum (NFin 1 0)] _ _));
      vm_compute; reflexivity.
Defined.


(** The allow document as [setAlwaysAllowed] writes it (two-space
    [JSON.stringify] and a newline) reads back with [JSON.parse] as the
    value written, non-finite numbers becoming [null]; in particular a
    document read with [JSON.parse] and written back unchanged reads back
    the same up to those numbers. *)
Theorem allow_document_roundtrip (v : jsval) :
  json_wf v = true ->
  JSON_parse (JSON_stringify2 v ++ [10%N]) = Some (json_rt v) /\
  (forall raw, JSON_parse raw = Some v -> JSON_parse (JSON_stringify2 v ++ [10%N]) = Some (json_rt v)).
Proof.
  intros Hwf. split; [by apply JSON_parse_stringify2 | ].
  intros raw Hp. apply JSON_parse_stringify2. by apply (JSON_parse_wf raw).
Qed.

Lemma allow_document_roundtrip_witness :
  JSON_parse (JSON_stringify2 (JObj [(t "browsers", JObj [(t "b1", JNum (NInf false))])]) ++ [10%N]) =
    Some (JObj [(t "browsers", JObj [(t "b1", JNull)])]).
Proof. refine (proj1 (allow_document_roundtrip _ _)). reflexivity. Defined.

(** ** Session grants over time *)

(** After [allowSession(sid, ttl)] at time [now], a check at any time
    [now'] answers [true] exactly when [now' <= now + ttl], unless the
    expiry [now + ttl] is 0, which is never granted. A check that finds the
    grant expired deletes it (an expiry of 0 is left in place), and once a
    check has answered [false] every later check answers [false], whatever
    the clock says. *)
Theorem allowSession_isSessionAllowed (w w2 : world) (sid : text) (ttl : Z) :
  w_sessions w2 = w_sessions (snd (allowSession sid ttl w)) ->
  fst (allowSession sid ttl w) = Ok (w_now w + ttl)%Z /\
  fst (isSessionAllowed sid w2) =
    Ok (negb (w_now w + ttl =? 0) && (w_now w2 <=? w_now w + ttl))%Z /\
  w_sessions (snd (isSessionAllowed sid w2)) =
    (if negb (w_now w + ttl =? 0) && (w_now w + ttl <? w_now w2) then delete sid (w_sessions w2)
     else w_sessions w2)%Z /\
  (fst (isSessionAllowed sid w2) = Ok false ->
   forall w3, w_sessions w3 = w_sessions (snd (isSessionAllowed sid w2)) ->
   fst (isSessionAllowed sid w3) = Ok false).
Proof.
  intros Hs. cbn [allowSession snd w_sessions set_sessions] in Hs.
  set (exp := (w_now w + ttl)%Z) in *.
  assert (Hl : w_sessions w2 !! sid = Some exp) by (rewrite Hs; apply lookup_insert_eq).
  split; [reflexivity | ].
  unfold isSessionAllowed. rewrite Hl.
  destruct (Z.eqb_spec exp 0) as [H0 | H0]; cbn [negb andb].
  - split; [reflexivity | ]. split; [reflexivity | ].
    intros _ w3 Hs3. cbn [snd] in Hs3. rewrite Hs3, Hl. by rewrite (proj2 (Z.eqb_eq _ _) H0).
  - destruct (Z.gtb_spec (w_now w2) exp) as [Hg | Hg].
    + rewrite (proj2 (Z.leb_gt _ _) Hg), (proj2 (Z.ltb_lt _ _) Hg).
      split; [reflexivity | ]. split; [reflexivity | ].
      intros _ w3 Hs3. cbn [snd w_sessions set_sessions] in Hs3.
      rewrite Hs3, lookup_delete_eq. reflexivity.
    + rewrite (proj2 (Z.leb_le _ _) Hg), (proj2 (Z.ltb_ge _ _) Hg).
      split; [reflexivity | ]. split; [reflexivity | ]. discriminate.
Qed.

Lemma allowSession_isSessionAllowed_witness :
  let w := demo_world [] ∅ 100 in
  fst (isSessionAllowed (t "s1") (snd (allowSession (t "s1") 50 w))) = Ok true.
Proof.
  cbv zeta.
  rewrite (proj1 (proj2 (allowSession_isSessionAllowed (demo_world [] ∅ 100)
                           (snd (allowSession (t "s1") 50 (demo_world [] ∅ 100))) (t "s1") 50
                           eq_refl))).
  reflexivity.
Defined.

(** ** Paging through an event log *)

Section TailPaging.
Context `{RT : JSRuntime}.

(** The log path is chosen before the cursor and the limit are looked at. *)
Lemma tail_call (w : world) (repoRoot runId rr : text) :
  resolveRepoRootOrThrow (w_env w) repoRoot = Ok rr ->
  exists ep, forall cur limit,
    tailNoctuneEvents repoRoot runId cur limit w =
      (Ok (match fst (fs_readFile ep w) with
           | Ok raw => tail_window raw cur limit ep
           | Err _ => {| events := []; cursor := XInt 0; nextCursor := XInt 0; tail_path := ep |}
           end), w).
Proof.
  intros Hr. unfold tailNoctuneEvents, io_bind at 1. rewrite (resolve_root_io_ok _ _ _ Hr).
  set (p1 := path_join _). set (p2 := path_join _).
  set (choose := io_catch (let! _ := fs_stat p1 in io_ret p1) (fun _ => io_ret p2)).
  assert (Hc : exists ep, choose w = (Ok ep, w)).
  { unfold choose, io_catch, io_bind. rewrite (pair_eta (fs_stat p1 w)), fs_stat_world.
    destruct (fst (fs_stat p1 w)); eauto. }
  destruct Hc as [ep Hep]. exists ep. intros cur limit.
  unfold io_bind at 1. rewrite Hep.
  unfold io_bind at 1, io_catch at 1. unfold io_bind at 1.
  rewrite (pair_eta (fs_readFile ep w)), fs_readFile_world.
  destruct (fst (fs_readFile ep w)) as [raw | e]; reflexivity.
Qed.

(** Two calls, the second from the [nextCursor] of the first, read
    adjacent windows of the same log: together their events are the lines
    from the first cursor to the second [nextCursor] that parse (none when
    a bound is NaN). When the first call reached the end of the log the
    second returns nothing and stays at the end. *)
Theorem tailNoctuneEvents_paging (w : world) (repoRoot runId rr : text) (cur limit : option jsnumber) :
  resolveRepoRootOrThrow (w_env w) repoRoot = Ok rr ->
  exists r1 r2,
    tailNoctuneEvents repoRoot runId cur limit w = (Ok r1, w) /\
    tailNoctuneEvents repoRoot runId (Some (xint_number (nextCursor r1))) limit w = (Ok r2, w) /\
    let lines := match fst (fs_readFile (tail_path r1) w) with
                 | Ok raw => log_lines raw | Err _ => [] end in
    tail_path r2 = tail_path r1 /\ cursor r2 = nextCursor r1 /\
    events r1 ++ events r2 =
      match cursor r1, nextCursor r2 with
      | XInt s, XInt e => omap JSON_parse (take (Z.to_nat (e - s)) (drop (Z.to_nat s) lines))
      | _, _ => []
      end /\
    (nextCursor r1 = XInt (Z.of_nat (length lines)) ->
       events r2 = [] /\ nextCursor r2 = nextCursor r1).
Proof.
  intros Hr. destruct (tail_call w repoRoot runId rr Hr) as [ep Hcall].
  eexists; eexists. split; [apply Hcall | ]. split; [apply Hcall | ]. cbn zeta.
  destruct (fst (fs_readFile ep w)) as [raw | e] eqn:Hf; cbn [tail_path]; rewrite ?Hf.
  - change (tail_path (tail_window raw cur limit ep)) with ep. rewrite Hf.
    change (tail_path (tail_window raw (Some (xint_number (nextCursor (tail_window raw cur limit ep))))
                        limit ep)) with ep.
    destruct (tail_window_spec raw cur limit ep) as (Hc1 & Hn1 & _ & H1).
    destruct (tail_window_spec raw (Some (xint_number (nextCursor (tail_window raw cur limit ep))))
                limit ep) as (Hc2 & Hn2 & _ & H2).
    set (r1 := tail_window raw cur limit ep) in *.
    set (r2 := tail_window raw (Some (xint_number (nextCursor r1))) limit ep) in *.
    set (lines := log_lines raw) in *.
    set (N := Z.of_nat (length lines)) in *.
    destruct H1 as [(_ & Hn1' & He1)
                   | (s1 & e1 & L & Hs1 & He1' & HL & HLr & Hee1 & Hse1 & Hen1 & He1)].
    + assert (Hc : cursor r2 = nextCursor r1) by (rewrite Hc2, Hn1'; reflexivity).
      destruct H2 as [(_ & Hn2' & He2) | (s2 & e2 & L2 & Hs2 & _)].
      * split; [reflexivity | ]. split; [exact Hc | ]. split.
        -- rewrite He1, He2, Hn2'. destruct (cursor r1); reflexivity.
        -- rewrite Hn1'. discriminate.
      * exfalso. rewrite Hc, Hn1' in Hs2. discriminate.
    + assert (Hc : cursor r2 = XInt e1).
      { rewrite Hc2, He1'. simpl. f_equal. lia. }
      destruct H2 as [(Hnan & Hn2' & He2)
                     | (s2 & e2 & L2 & Hs2 & He2' & HL2 & HLr2 & Hee2 & Hse2 & Hen2 & He2)].
      * exfalso. destruct Hnan as [Hnan | Hnan];
          [rewrite Hc in Hnan | rewrite HL in Hnan]; discriminate.
      * rewrite Hc in Hs2. injection Hs2 as <-. rewrite HL in HL2. injection HL2 as <-.
        split; [reflexivity | ]. split; [rewrite Hc, He1'; reflexivity | ]. split.
        -- rewrite Hs1, He2', He1, He2, <- omap_app. f_equal.
           replace (drop (Z.to_nat e1) lines)
             with (drop (Z.to_nat (e1 - s1)) (drop (Z.to_nat s1) lines))
             by (rewrite drop_drop; f_equal; lia).
           rewrite take_take_drop. f_equal. lia.
        -- rewrite He1'. intros Hend. injection Hend as Hend. split.
           ++ rewrite He2. rewrite drop_ge; [by rewrite take_nil | ]. unfold N in Hend. lia.
           ++ rewrite He2'. f_equal. lia.
  - cbn [cursor nextCursor events]. split; [reflexivity | ]. split; [reflexivity | ].
    split; [reflexivity | ]. done.
Qed.

End TailPaging.

Lemma tailNoctuneEvents_paging_witness :
  exists r1 r2,
    tailNoctuneEvents (t "/repo") (t "r1") (Some (jsint 0)) (Some (jsint 2)) three_event_world =
      (Ok r1, three_event_world) /\
    tailNoctuneEvents (t "/repo") (t "r1") (Some (xint_number (nextCursor r1))) (Some (jsint 2))
      three_event_world = (Ok r2, three_event_world).
Proof.
  destruct (tailNoctuneEvents_paging three_event_world (t "/repo") (t "r1") (t "/repo")
              (Some (jsint 0)) (Some (jsint 2)) ltac:(vm_compute; reflexivity))
    as (r1 & r2 & H1 & H2 & _).
  exists r1, r2. split; [exact H1 | exact H2].
Defined.

(** ** Reading a cookie *)





Section CookieProps.
Context `{RT : JSRuntime}.



End CookieProps.


(** Text literals as the lists of code units they denote. *)
Ltac lit_text :=
  repeat match goal with
  | |- context [j ?x] => let P := eval vm_compute in (j x) in change (j x) with P
  | |- context [t ?x] => let P := eval vm_compute in (t x) in change (t x) with P
  | H : context [j ?x] |- _ => let P := eval vm_compute in (j x) in change (j x) with P in H
  | H : context [t ?x] |- _ => let P := eval vm_compute in (t x) in change (t x) with P in H
  end.

(** The compact decision document reads back as the object written. *)
Lemma decision_doc_parse (b : bool) (s : text) :
  safeJsonParse (JSON_stringify (JObj [(t "approved", JBool b); (t "reason", JStr s)])) =
  JObj [(t "approved", JBool b); (t "reason", JStr s)].
Proof.
  assert (E : JSON_stringify (JObj [(t "approved", JBool b); (t "reason", JStr s)]) =
    (if b then j "{`approved`:true,`reason`:" else j "{`approved`:false,`reason`:") ++ quote s ++ [125%N])
    by (destruct b; reflexivity).
  rewrite E. unfold safeJsonParse, JSON_parse.
  assert (Hl : exists f, length ((if b then j "{`approved`:true,`reason`:"
                                  else j "{`approved`:false,`reason`:") ++ quote s ++ [125%N]) = S (S (S f))).
  { rewrite length_app. destruct b; eexists; cbn [length]; reflexivity. }
  destruct Hl as [f ->].
  pose proof (parse_string f [] s [125%N] eq_refl) as Hs. cbn [app] in Hs.
  pose proof (parse_true (S f) [] (j ",`reason`:" ++ quote s ++ [125%N]) eq_refl) as Ht.
  pose proof (parse_false (S f) [] (j ",`reason`:" ++ quote s ++ [125%N]) eq_refl) as Hf.
  clear E. destruct b; lit_text; cbn [app] in Ht, Hf |- *;
  cbn -[quote parse_value]; cbn [parse_value]; cbn -[quote parse_value];
  [rewrite Ht | rewrite Hf]; cbn -[quote parse_value]; rewrite Hs; reflexivity.
Qed.

(** [decideApproval] with any answer and reason, on a request [<id>.json]
    without a decision yet, where the root is allowed, the trimmed run id is
    a plain path segment, the run's approvals directory exists, and [id] is
    non-empty, has no surrounding whitespace and no [/]: it writes
    [<id>.decision], and [listApprovalsWithDecisions] then reports the
    request decided, with the request's parsed content and exactly the
    answer and reason given (an absent reason as the empty string). The
    conditions on [id] matter: [decideApproval] trims the id, the listing
    does not. *)
Theorem decideApproval_recorded (w : world) (repoRoot runId id raw rr : text)
  (approved : bool) (reason : option text) :
  let dir := approvals_dir rr (js_trim runId) in
  let dp := dir ++ [slash] ++ id ++ t ".decision" in
  is_abs (env_cwd (w_env w)) = true ->
  resolveRepoRootOrThrow (w_env w) repoRoot = Ok rr ->
  plain (js_trim runId) = true ->
  id <> [] -> js_trim id = id -> existsb is_slash id = false ->
  w_fs w !! dir = Some EDir ->
  w_fs w !! (dir ++ [slash] ++ id ++ t ".json") = Some (EFile raw) ->
  w_fs w !! dp = None ->
  exists w1, decideApproval repoRoot runId id approved reason w = (Ok (true, dp), w1) /\
  exists recs, listApprovalsWithDecisions repoRoot runId w1 = (Ok (recs, dir), w1) /\
    exists r, r ∈ recs /\ approval_id r = id /\ approval r = safeJsonParse raw /\
      decided r = true /\
      decision r = JObj [(t "approved", JBool approved); (t "reason", JStr (default [] reason))].
Proof.
  intros dir dp Hcwd Hres Hrun Hid Htr Hs Hd Hj Hnone. subst dir dp.
  destruct (resolve_ok_mk _ _ _ Hcwd Hres) as (segs & Hrr & Hsegs).
  set (ds := segs ++ [t ".noctune_cache"; t "runs"; js_trim runId; t "state"; t "approvals"]).
  assert (Hdir : approvals_dir rr (js_trim runId) = mk_path ds)
    by (rewrite Hrr; by apply approvals_dir_mk).
  assert (Hne : ds <> []) by (subst ds; by destruct segs).
  assert (Hp : Forall (fun s => plain s = true) ds).
  { apply Forall_app. split; [done | ]. repeat constructor; done. }
  assert (Hroot : is_root (mk_path ds) = false) by (by apply mk_path_not_root).
  assert (Hsj : existsb is_slash (id ++ t ".json") = false)
    by (rewrite existsb_app, Hs; reflexivity).
  assert (Hok : child_ok (id ++ t ".json")).
  { split; [by destruct id | done]. }
  rewrite Hdir in Hd, Hj, Hnone |- *.
  set (doc := JSON_stringify (JObj [(t "approved", JBool approved);
                                    (t "reason", JStr (default [] reason))])).
  set (w1 := set_fs w (<[mk_path ds ++ [slash] ++ id ++ t ".decision" := EFile doc]> (w_fs w))).
  assert (Hd1 : w_fs w1 !! mk_path ds = Some EDir).
  { cbn [w1 set_fs w_fs]. rewrite lookup_insert_ne; [done | ].
    apply not_eq_sym, dir_not_child. }
  assert (Hj1 : w_fs w1 !! (mk_path ds ++ [slash] ++ id ++ t ".json") = Some (EFile raw)).
  { cbn [w1 set_fs w_fs]. rewrite lookup_insert_ne; [done | ].
    apply child_paths_differ. }
  exists w1. split; [by apply decideApproval_new with rr | ].
  eexists. split; [by apply listDecisions_form with rr | ].
  exists (decision_record w1 (mk_path ds) (id ++ t ".json")).
  split.
  - apply list_elem_of_In, in_map, filter_In. split; [ | apply ends_with_app].
    apply list_elem_of_In, sort_texts_elem. by apply (readdir_names_in _ _ (EFile raw)).
  - unfold decision_record. cbv zeta. rewrite decision_file_json, Hj1.
    cbn [w1 set_fs w_fs]. rewrite lookup_insert_eq. cbn [approval_id approval decided decision].
    unfold doc. rewrite decision_doc_parse. split; [ | done].
    rewrite take_app_length'; [done | ].
    rewrite length_app. change (length (t ".json")) with 5%nat. lia.
Qed.

Lemma decideApproval_recorded_witness :
  exists w1, decideApproval (t "/repo") (t "r1") (t "a1") false (Some (t "too risky"))
               (approvals_world (j "{`q`:true}")) =
             (Ok (true, t "/repo/.noctune_cache/runs/r1/state/approvals/a1.decision"), w1) /\
  exists recs, listApprovalsWithDecisions (t "/repo") (t "r1") w1 =
                 (Ok (recs, t "/repo/.noctune_cache/runs/r1/state/approvals"), w1) /\
    exists r, r ∈ recs /\ approval_id r = t "a1" /\ approval r = JObj [(t "q", JBool true)] /\
      decided r = true /\
      decision r = JObj [(t "approved", JBool false); (t "reason", JStr (t "too risky"))].
Proof.
  destruct (decideApproval_recorded (approvals_world (j "{`q`:true}"))
              (t "/repo") (t "r1") (t "a1") (j "{`q`:true}") (t "/repo") false (Some (t "too risky"))
              ltac:(vm_compute; reflexivity) ltac:(vm_compute; reflexivity)
              ltac:(vm_compute; reflexivity) ltac:(vm_compute; discriminate)
              ltac:(vm_compute; reflexivity) ltac:(vm_compute; reflexivity)
              ltac:(vm_compute; reflexivity) ltac:(vm_compute; reflexivity)
              ltac:(vm_compute; reflexivity))
    as (w1 & Hd & recs & Hl & r & Hr & Hid & Ha & Hdc & Hdec).
  exists w1. split; [exact Hd | ]. exists recs. split; [exact Hl | ].
  exists r. split; [exact Hr | split; [exact Hid | split; [ | split; [exact Hdc | exact Hdec]]]].
  rewrite Ha. vm_compute. reflexivity.
Defined.

(** [decideApproval] with an approval id that is empty or all whitespace
    fails with "approvalId is required" and writes nothing, once the root is
    accepted. *)
Theorem decideApproval_blank_id (w : world) (repoRoot runId id rr : text)
  (approved : bool) (reason : option text) :
  resolveRepoRootOrThrow (w_env w) repoRoot = Ok rr ->
  js_trim id = [] ->
  decideApproval repoRoot runId id approved reason w = (Err ApprovalIdRequired, w).
Proof.
  intros Hres Hid. unfold decideApproval.
  rewrite (io_bind_ok _ _ w w _ (resolve_root_io_ok _ _ w Hres)). cbv beta zeta.
  rewrite Hid. reflexivity.
Qed.

Lemma decideApproval_blank_id_witness :
  decideApproval (t "/repo") (t "r1") (t " 	 ") true None (approvals_world (j "{`q`:true}")) =
  (Err ApprovalIdRequired, approvals_world (j "{`q`:true}")).
Proof.
  apply (decideApproval_blank_id _ _ _ _ (t "/repo")); vm_compute; reflexivity.
Defined.

(** How [listApprovalsWithDecisions] reports the decision of a request
    [<id>.json] in an existing approvals directory: without a decision file
    it is undecided with a null decision; a decision file that is not valid
    JSON, or that holds [null], is reported decided with
    [{raw: <trimmed content>}]; any other JSON value is reported as is. *)
Theorem listApprovalsWithDecisions_decision (w : world) (repoRoot runId id raw rr : text) :
  let dir := approvals_dir rr (js_trim runId) in
  let dp : text := dir ++ [slash] ++ id ++ t ".decision" in
  is_abs (env_cwd (w_env w)) = true ->
  resolveRepoRootOrThrow (w_env w) repoRoot = Ok rr ->
  plain (js_trim runId) = true ->
  existsb is_slash id = false ->
  w_fs w !! dir = Some EDir ->
  w_fs w !! (dir ++ [slash] ++ id ++ t ".json") = Some (EFile raw) ->
  exists recs, listApprovalsWithDecisions repoRoot runId w = (Ok (recs, dir), w) /\
  exists r, r ∈ recs /\ approval_id r = id /\ approval r = safeJsonParse raw /\
    (w_fs w !! dp = None -> decided r = false /\ decision r = JNull) /\
    (forall d, w_fs w !! dp = Some (EFile d) ->
       decided r = true /\
       (JSON_parse d = None \/ JSON_parse d = Some JNull ->
          decision r = JObj [(t "raw", JStr (js_trim d))]) /\
       (forall v, JSON_parse d = Some v -> v <> JNull -> decision r = v)).
Proof.
  intros dir dp Hcwd Hres Hrun Hs Hd Hj. subst dir dp.
  destruct (resolve_ok_mk _ _ _ Hcwd Hres) as (segs & Hrr & Hsegs).
  set (ds := segs ++ [t ".noctune_cache"; t "runs"; js_trim runId; t "state"; t "approvals"]).
  assert (Hdir : approvals_dir rr (js_trim runId) = mk_path ds)
    by (rewrite Hrr; by apply approvals_dir_mk).
  assert (Hne : ds <> []) by (subst ds; by destruct segs).
  assert (Hp : Forall (fun s => plain s = true) ds).
  { apply Forall_app. split; [done | ]. repeat constructor; done. }
  assert (Hroot : is_root (mk_path ds) = false) by (by apply mk_path_not_root).
  assert (Hsj : existsb is_slash (id ++ t ".json") = false)
    by (rewrite existsb_app, Hs; reflexivity).
  assert (Hok : child_ok (id ++ t ".json")).
  { split; [by destruct id | done]. }
  rewrite Hdir in Hd, Hj |- *.
  eexists. split; [by apply listDecisions_form with rr | ].
  exists (decision_record w (mk_path ds) (id ++ t ".json")).
  split; [ | split; [ | split; [ | split]]].
  - apply list_elem_of_In, in_map, filter_In. split; [ | apply ends_with_app].
    apply list_elem_of_In, sort_texts_elem. by apply (readdir_names_in _ _ (EFile raw)).
  - cbn [decision_record approval_id]. rewrite take_app_length'; [done | ].
    rewrite length_app. change (length (t ".json")) with 5%nat. lia.
  - cbn [decision_record approval]. by rewrite Hj.
  - intros Hn. cbn [decision_record decided decision]. rewrite decision_file_json, Hn. done.
  - intros d Hf. cbn [decision_record decided decision]. rewrite decision_file_json, Hf.
    split; [done | ]. unfold safeJsonParse. split.
    + intros [-> | ->]; reflexivity.
    + intros v -> Hv. cbn [default]. destruct v; done.
Qed.

Lemma listApprovalsWithDecisions_decision_witness :
  exists recs, listApprovalsWithDecisions (t "/repo") (t "r1") torn_decision_world =
               (Ok (recs, t "/repo/.noctune_cache/runs/r1/state/approvals"), torn_decision_world) /\
  exists r, r ∈ recs /\ approval_id r = t "a1" /\ decided r = true /\
    decision r = JObj [(t "raw", JStr (j "{`approved`:tr"))].
Proof.
  destruct (listApprovalsWithDecisions_decision torn_decision_world
              (t "/repo") (t "r1") (t "a1") (j "{`q`:true}") (t "/repo")
              ltac:(vm_compute; reflexivity) ltac:(vm_compute; reflexivity)
              ltac:(vm_compute; reflexivity) ltac:(vm_compute; reflexivity)
              ltac:(vm_compute; reflexivity) ltac:(vm_compute; reflexivity))
    as (recs & Hl & r & Hr & Hid & _ & _ & Hdec).
  destruct (Hdec (j " {`approved`:tr ") ltac:(vm_compute; reflexivity)) as (Hdc & Hraw & _).
  exists recs. split; [exact Hl | ]. exists r.
  split; [exact Hr | split; [exact Hid | split; [exact Hdc | ]]].
  rewrite Hraw by (left; vm_compute; reflexivity). vm_compute. reflexivity.
Defined.



Lemma mk_path_nonroot (cwd R : text) :
  is_abs cwd = true -> is_root (path_resolve cwd [R]) = false ->
  exists ds, path_resolve cwd [R] = mk_path ds /\ ds <> [] /\ Forall (fun s => plain s = true) ds.
Proof.
  intros Hc Hr. destruct (path_resolve_abs cwd [R] Hc) as (ds & Hds & Hp).
  exists ds. split; [done | split; [ | done]]. intros ->. rewrite Hds in Hr. discriminate.
Qed.






(** A path [isSafeCachePath] accepts is also inside the repository:
    under a repository root other than [/], [resolvePathInRepoOrThrow]
    accepts it and resolves it to the same absolute path. *)
Theorem isSafeCachePath_in_repo (E : env) (repoRoot q : text) :
  is_abs (env_cwd E) = true ->
  is_root (path_resolve (env_cwd E) [repoRoot]) = false ->
  isSafeCachePath E repoRoot q = true ->
  resolvePathInRepoOrThrow E repoRoot q =
    Some (path_resolve (env_cwd E) [path_resolve (env_cwd E) [repoRoot]; q]).
Proof.
  intros Hc Hr. destruct (mk_path_nonroot _ _ Hc Hr) as (ds & Hds & Hdne & Hp).
  unfold isSafeCachePath, resolvePathInRepoOrThrow. cbv zeta. rewrite Hds.
  rewrite path_join_child by (done || reflexivity).
  intros Hs. rewrite (proj2 (starts_with_app _ _)); [by rewrite orb_true_r | ].
  apply orb_true_iff in Hs as [Hs | Hs].
  - apply teq_true in Hs. rewrite Hs. exists (t ".noctune_cache"). apply app_assoc.
  - apply starts_with_app in Hs as [y ->]. exists (t ".noctune_cache" ++ [slash] ++ y).
    by rewrite <- !app_assoc.
Qed.

Lemma isSafeCachePath_in_repo_witness :
  resolvePathInRepoOrThrow demo_env (t "/repo") (t ".noctune_cache/runs/r1/events.jsonl") =
    Some (t "/repo/.noctune_cache/runs/r1/events.jsonl").
Proof.
  exact (isSafeCachePath_in_repo demo_env (t "/repo") (t ".noctune_cache/runs/r1/events.jsonl")
           eq_refl eq_refl eq_refl).
Defined.



Lemma dedupe_loop_spec (seen : gset text) (l : list text) :
  NoDup (dedupe_loop seen l) /\
  (forall x, x ∈ dedupe_loop seen l <-> x ∈ l /\ x ∉ seen).
Proof.
  revert seen. induction l as [ | r l IH]; intros seen; cbn [dedupe_loop].
  - split; [constructor | ]. intros x. split; [intros Hx; inversion Hx | intros [Hx _]; inversion Hx].
  - case_bool_decide as Hr.
    + destruct (IH seen) as [Hn Hi]. split; [done | ]. intros x. rewrite Hi, elem_of_cons.
      split; [tauto | ]. intros [[-> | Hx] Hs]; [done | tauto].
    + destruct (IH ({[r]} ∪ seen)) as [Hn Hi]. split.
      * constructor; [ | done]. rewrite Hi. set_solver.
      * intros x. rewrite elem_of_cons, Hi, elem_of_cons, elem_of_union, elem_of_singleton.
        split; [intros [-> | [Hx Hs]]; [split; [by left | done] | split; [by right | tauto]] | ].
        intros [[-> | Hx] Hs]; [by left | ].
        destruct (decide (x = r)) as [-> | Hne]; [by left | right; tauto].
Qed.

(** [getAllowedRepoRoots] lists no root twice, always lists the default
    root [path.resolve(process.cwd(), '../..')], and lists exactly the
    default root and the resolved non-empty entries of
    [NOCTUNE_STUDIO_ALLOWED_ROOTS]. *)
Theorem getAllowedRepoRoots_nodup (E : env) :
  NoDup (getAllowedRepoRoots E) /\
  getDefaultRepoRoot E ∈ getAllowedRepoRoots E /\
  (forall r, r ∈ getAllowedRepoRoots E <->
     r = getDefaultRepoRoot E \/
     exists s, s ∈ split_on 44 (js_trim (default [] (env_allowed_roots E))) /\
               js_trim s <> [] /\ r = path_resolve (env_cwd E) [js_trim s]).
Proof.
  unfold getAllowedRepoRoots.
  destruct (dedupe_loop_spec ∅ (
    match js_trim (default [] (env_allowed_roots E)) with
    | [] => []
    | _ :: _ => map (fun p => path_resolve (env_cwd E) [p])
                  (filter (fun s => negb (teq s [])) (map js_trim (split_on 44 (js_trim (default [] (env_allowed_roots E))))))
    end ++ [getDefaultRepoRoot E])) as [Hn Hi].
  split; [exact Hn | ].
  assert (Hm : forall r, r ∈ getAllowedRepoRoots E <-> r ∈
    match js_trim (default [] (env_allowed_roots E)) with
    | [] => []
    | _ :: _ => map (fun p => path_resolve (env_cwd E) [p])
                  (filter (fun s => negb (teq s [])) (map js_trim (split_on 44 (js_trim (default [] (env_allowed_roots E))))))
    end ++ [getDefaultRepoRoot E]).
  { intros r. unfold getAllowedRepoRoots. rewrite Hi.
    split; [tauto | intros H; split; [exact H | apply not_elem_of_empty]]. }
  split; [apply Hm, elem_of_app; right; by apply list_elem_of_singleton | ].
  intros r. rewrite Hm, elem_of_app, list_elem_of_singleton.
  destruct (js_trim (default [] (env_allowed_roots E))) as [ | c raw] eqn:Er.
  - cbn [split_on]. split; [intros [Hx | ->]; [inversion Hx | by left] | ].
    intros [-> | (s & Hs & Hs0 & ->)]; [by right | ].
    apply list_elem_of_singleton in Hs. subst s. done.
  - rewrite list_elem_of_fmap. split.
    + intros [(s & -> & Hs) | ->]; [right | by left].
      apply list_elem_of_filter in Hs as [Hs0 Hs]. apply list_elem_of_fmap in Hs as (s' & -> & Hs').
      exists s'. split; [done | split; [ | done]].
      intros E0. rewrite E0 in Hs0. done.
    + intros [-> | (s & Hs & Hs0 & ->)]; [by right | left].
      exists (js_trim s). split; [done | ].
      apply list_elem_of_filter. split.
      * destruct (teq (js_trim s) []) eqn:T; [ | done]. by apply teq_true in T.
      * apply list_elem_of_fmap. by exists s.
Qed.

Lemma readdir_catch_none (d : text) (w : world) (e : js_error) :
  fst (fs_readdir d w) = Err e ->
  io_catch (let! es := fs_readdir d in io_ret (Some es)) (fun _ => io_ret None) w = (Ok None, w).
Proof.
  intros He. pose proof (fs_readdir_world d w) as Hw. unfold io_catch, io_bind.
  destruct (fs_readdir d w) as [[ns | e'] w']; simpl in He, Hw; subst w'; done.
Qed.

Section MissingDirs.
Context `{RT : JSRuntime}.

(** A directory that cannot be listed (missing, or not a directory) is
    not an error for the listing functions: once the root is accepted,
    [listRuns] returns no runs when [<root>/.noctune_cache/runs] cannot be
    read, and [listPendingApprovals] and [listApprovalsWithDecisions]
    return no approvals, with the directory path, when the run's approvals
    directory cannot be read; none of them changes the world. *)
Theorem listings_missing_dir_empty (w : world) (repoRoot rr runId : text) (limit : option jsnumber) :
  resolveRepoRootOrThrow (w_env w) repoRoot = Ok rr ->
  (forall e, fst (fs_readdir (path_join [rr; t ".noctune_cache"; t "runs"]) w) = Err e ->
     listRuns repoRoot limit w = (Ok [], w)) /\
  (forall e, fst (fs_readdir (approvals_dir rr (js_trim runId)) w) = Err e ->
     listPendingApprovals repoRoot runId w = (Ok ([], approvals_dir rr (js_trim runId)), w) /\
     listApprovalsWithDecisions repoRoot runId w = (Ok ([], approvals_dir rr (js_trim runId)), w)).
Proof.
  intros Hr. split.
  - intros e He. unfold listRuns.
    rewrite (io_bind_ok _ _ w w rr); [ | unfold resolve_root_io; by rewrite Hr]. cbv zeta.
    rewrite (io_bind_ok _ _ w w None); [reflexivity | exact (readdir_catch_none _ _ _ He)].
  - intros e He. split.
    + unfold listPendingApprovals.
      rewrite (io_bind_ok _ _ w w rr); [ | unfold resolve_root_io; by rewrite Hr]. cbv zeta.
      rewrite (io_bind_ok _ _ w w None); [reflexivity | exact (readdir_catch_none _ _ _ He)].
    + unfold listApprovalsWithDecisions.
      rewrite (io_bind_ok _ _ w w rr); [ | unfold resolve_root_io; by rewrite Hr]. cbv zeta.
      rewrite (io_bind_ok _ _ w w None); [reflexivity | exact (readdir_catch_none _ _ _ He)].
Qed.

End MissingDirs.

Lemma listings_missing_dir_empty_witness :
  @listRuns demo_rt (t "/repo") None (demo_world [("/repo"%string, EDir)] ∅ 0) =
    (Ok [], demo_world [("/repo"%string, EDir)] ∅ 0) /\
  listApprovalsWithDecisions (t "/repo") (t "r1") (demo_world [("/repo"%string, EDir)] ∅ 0) =
    (Ok ([], t "/repo/.noctune_cache/runs/r1/state/approvals"), demo_world [("/repo"%string, EDir)] ∅ 0).
Proof.
  destruct (@listings_missing_dir_empty demo_rt (demo_world [("/repo"%string, EDir)] ∅ 0)
              (t "/repo") (t "/repo") (t "r1") None ltac:(vm_compute; reflexivity)) as [H1 H2].
  split.
  - exact (H1 ENOENT ltac:(vm_compute; reflexivity)).
  - exact (proj2 (H2 ENOENT ltac:(vm_compute; reflexivity))).
Defined.
